(** * Reel downloader client: cookie session, download history, API client
      and the download orchestrator of the home screen.

    The development follows the TypeScript sources:
    - [constants/api.ts]              the remote API client,
    - [contexts/session-context.tsx]  the cookie session,
    - the history context             the capped download history,
    - the home screen                 the fetch / preview / download flow,
    - the session screen              the manual cookie import.

    JavaScript strings are sequences of UTF-16 code units; they are kept as
    lists of code units so that [trim], [split], the regular expressions and
    the string comparisons of the sources act on what the engine sees. *)

From Stdlib Require Import List NArith ZArith Bool Lia String Ascii.
From Stdlib Require Import DecimalString.
Import ListNotations.

Set Implicit Arguments.

(** ** JavaScript strings *)

Definition cu := N.
Definition jsstring := list cu.

Fixpoint js (s : string) : jsstring :=
  match s with
  | EmptyString => []
  | String a s' => N_of_ascii a :: js s'
  end.

Definition cu_eqb (a b : cu) : bool := N.eqb a b.

Fixpoint str_eqb (a b : jsstring) : bool :=
  match a, b with
  | [], [] => true
  | x :: a', y :: b' => cu_eqb x y && str_eqb a' b'
  | _, _ => false
  end.

(** Truthiness of a string: the empty string is the only falsy one. *)
Definition truthy (s : jsstring) : bool :=
  match s with [] => false | _ :: _ => true end.

(** [a || b] on strings. *)
Definition or_default (a b : jsstring) : jsstring :=
  if truthy a then a else b.

Definition in_range (lo hi c : cu) : bool := N.leb lo c && N.leb c hi.

Section CodeUnitClasses.
Local Open Scope N_scope.

(** WhiteSpace and LineTerminator code units, the set stripped by
    [String.prototype.trim] and matched by [\s]. *)
Definition is_space (c : cu) : bool :=
  in_range 9 13 c || cu_eqb c 32 || cu_eqb c 160 || cu_eqb c 5760
  || in_range 8192 8202 c || cu_eqb c 8232 || cu_eqb c 8233
  || cu_eqb c 8239 || cu_eqb c 8287 || cu_eqb c 12288 || cu_eqb c 65279.

(** [\w] without the unicode flag, and the class [[\w-]]. *)
Definition is_word (c : cu) : bool :=
  in_range 48 57 c || in_range 65 90 c || in_range 97 122 c || cu_eqb c 95.
Definition is_word_or_dash (c : cu) : bool := is_word c || cu_eqb c 45.

(** [.]: anything but a line terminator. *)
Definition is_dot (c : cu) : bool :=
  negb (cu_eqb c 10 || cu_eqb c 13 || cu_eqb c 8232 || cu_eqb c 8233).

(** ASCII part of [toUpperCase].  Outside ASCII the Unicode mapping is not
    reproduced: the sources only compare the result with the word TRUE, and
    no code unit outside ASCII has an upper case made of T, R, U or E alone. *)
Definition upper_unit (c : cu) : cu :=
  if in_range 97 122 c then c - 32 else c.

End CodeUnitClasses.

Definition toUpperCase (s : jsstring) : jsstring := map upper_unit s.

Fixpoint drop_while (p : cu -> bool) (s : jsstring) : jsstring :=
  match s with
  | [] => []
  | c :: s' => if p c then drop_while p s' else s
  end.

Definition trimStart (s : jsstring) : jsstring := drop_while is_space s.
Definition trimEnd (s : jsstring) : jsstring :=
  rev (drop_while is_space (rev s)).
Definition trim (s : jsstring) : jsstring := trimEnd (trimStart s).

(** [s.startsWith(p)] and the rest after the prefix. *)
Fixpoint strip_prefix (p s : jsstring) : option jsstring :=
  match p with
  | [] => Some s
  | a :: p' =>
      match s with
      | [] => None
      | b :: s' => if cu_eqb a b then strip_prefix p' s' else None
      end
  end.

Definition startsWith (s p : jsstring) : bool :=
  match strip_prefix p s with Some _ => true | None => false end.

(** [s.split(sep)] for a one-unit separator: never empty, the empty string
    splits into one empty piece. *)
Fixpoint split (sep : cu) (s : jsstring) : list jsstring :=
  match s with
  | [] => [[]]
  | c :: s' =>
      if cu_eqb c sep then [] :: split sep s'
      else match split sep s' with
           | p :: ps => (c :: p) :: ps
           | [] => [[c]]
           end
  end.

(** [lines.join(sep)]. *)
Fixpoint join (sep : jsstring) (l : list jsstring) : jsstring :=
  match l with
  | [] => []
  | [x] => x
  | x :: rest => x ++ sep ++ join sep rest
  end.

(** [s.indexOf(c)]: the first index, or -1. *)
Fixpoint indexOf (c : cu) (s : jsstring) : Z :=
  match s with
  | [] => (-1)%Z
  | x :: s' =>
      if cu_eqb x c then 0%Z
      else let i := indexOf c s' in
           if (i <? 0)%Z then (-1)%Z else (i + 1)%Z
  end.

(** [s.substring(a, b)] and [s.substring(a)] for in-order bounds; negative
    bounds count as 0, as in the engine. *)
Definition substring (a b : Z) (s : jsstring) : jsstring :=
  firstn (Z.to_nat b - Z.to_nat a) (skipn (Z.to_nat a) s).
Definition substring_from (a : Z) (s : jsstring) : jsstring :=
  skipn (Z.to_nat a) s.

(** Decimal text of a non-negative integer, as a template literal prints it. *)
Definition decimal (n : N) : jsstring :=
  js (NilZero.string_of_uint (N.to_uint n)).

(** ** Regular expressions

    A backtracking matcher for the fragment the sources use: anchors,
    literals, alternation, greedy [?], greedy and lazy [+] over a class, and
    numbered capture groups.  Alternatives are tried in the engine's order. *)

Inductive regex :=
| Bol                                  (* ^ *)
| Eol                                  (* $ *)
| Lit (l : jsstring)
| Seq (r1 r2 : regex)
| Alt (r1 r2 : regex)
| Opt (r : regex)                      (* r? *)
| Plus (p : cu -> bool)                (* [class]+ *)
| LazyPlus (p : cu -> bool)            (* [class]+? *)
| Group (i : nat) (r : regex).         (* i-th capturing group *)

Definition captures := list (nat * jsstring).
Definition kont := nat -> jsstring -> captures -> option captures.

Definition or_else {A} (a b : option A) : option A :=
  match a with Some x => Some x | None => b end.

Fixpoint plus_greedy (p : cu -> bool) (pos : nat) (s : jsstring)
    (caps : captures) (k : kont) : option captures :=
  match s with
  | [] => None
  | c :: s' =>
      if p c
      then or_else (plus_greedy p (S pos) s' caps k) (k (S pos) s' caps)
      else None
  end.

Fixpoint plus_lazy (p : cu -> bool) (pos : nat) (s : jsstring)
    (caps : captures) (k : kont) : option captures :=
  match s with
  | [] => None
  | c :: s' =>
      if p c
      then or_else (k (S pos) s' caps) (plus_lazy p (S pos) s' caps k)
      else None
  end.

Fixpoint rmatch (r : regex) (pos : nat) (s : jsstring) (caps : captures)
    (k : kont) : option captures :=
  match r with
  | Bol => if Nat.eqb pos 0 then k pos s caps else None
  | Eol => match s with [] => k pos s caps | _ :: _ => None end
  | Lit l =>
      match strip_prefix l s with
      | Some s' => k (pos + List.length l) s' caps
      | None => None
      end
  | Seq r1 r2 =>
      rmatch r1 pos s caps (fun pos' s' caps' => rmatch r2 pos' s' caps' k)
  | Alt r1 r2 => or_else (rmatch r1 pos s caps k) (rmatch r2 pos s caps k)
  | Opt r1 => or_else (rmatch r1 pos s caps k) (k pos s caps)
  | Plus p => plus_greedy p pos s caps k
  | LazyPlus p => plus_lazy p pos s caps k
  | Group i r1 =>
      rmatch r1 pos s caps
        (fun pos' s' caps' => k pos' s' ((i, firstn (pos' - pos) s) :: caps'))
  end.

Definition accept : kont := fun _ _ caps => Some caps.

(** [re.exec(s)] without the global flag: the leftmost start that matches. *)
Fixpoint exec_from (r : regex) (pos : nat) (s : jsstring) : option captures :=
  or_else (rmatch r pos s [] accept)
          (match s with
           | [] => None
           | _ :: s' => exec_from r (S pos) s'
           end).

Definition exec (r : regex) (s : jsstring) : option captures := exec_from r 0 s.

Definition test (r : regex) (s : jsstring) : bool :=
  match exec r s with Some _ => true | None => false end.

Fixpoint capture (i : nat) (caps : captures) : option jsstring :=
  match caps with
  | [] => None
  | (j, w) :: rest => if Nat.eqb i j then Some w else capture i rest
  end.


(** [accepts r k P]: from any position and with any captures, [r] followed by
    the continuation [k] finds a match on [s] exactly when [P s]. *)
Definition accepts (r : regex) (k : kont) (P : jsstring -> Prop) : Prop :=
  forall pos s caps, rmatch r pos s caps k <> None <-> P s.

(** ** Thrown values, results and the state-and-exception monad

    An [async] function is a computation that reads and updates a state and
    either returns or throws; [await] on a rejected promise throws. *)

Inductive Thrown :=
| ApiError (status : Z) (message : jsstring)   (* an instance of ApiError *)
| JsError (message : jsstring)                 (* any other Error *)
| NonError.                                    (* a thrown value that is no Error *)

Inductive Res (A : Type) :=
| Ok (a : A)
| Throw (e : Thrown).
Arguments Ok {A} a.
Arguments Throw {A} e.

Definition M (S A : Type) := S -> Res A * S.

Definition ret {S A} (a : A) : M S A := fun s => (Ok a, s).
Definition throw {S A} (e : Thrown) : M S A := fun s => (Throw e, s).
Definition bind {S A B} (m : M S A) (f : A -> M S B) : M S B :=
  fun s => match m s with
           | (Ok a, s') => f a s'
           | (Throw e, s') => (Throw e, s')
           end.
Definition try_catch {S A} (m : M S A) (h : Thrown -> M S A) : M S A :=
  fun s => match m s with
           | (Ok a, s') => (Ok a, s')
           | (Throw e, s') => h e s'
           end.
Definition get {S} : M S S := fun s => (Ok s, s).
Definition modify {S} (f : S -> S) : M S unit := fun s => (Ok tt, f s).
Definition of_res {S A} (r : Res A) : M S A := fun s => (r, s).

Declare Scope js_scope.
Delimit Scope js_scope with M.
Notation "x <- c ;; k" := (bind c (fun x => k))
  (at level 61, c at next level, right associativity) : js_scope.
Notation "c ;; k" := (bind c (fun _ => k))
  (at level 61, right associativity) : js_scope.
Local Open Scope js_scope.

(** ** JSON documents read without a declared type

    [JObj] lists the properties of the parsed object, one entry per key;
    [JNum] holds a number as the text [String] gives for it. *)

Unset Elimination Schemes.
Inductive json :=
| JNull
| JBool (b : bool)
| JNum (digits : jsstring)
| JStr (s : jsstring)
| JArr (items : list json)
| JObj (fields : list (jsstring * json)).
Set Elimination Schemes.

Inductive jsvalue :=
| Undefined
| Value (j : json).

Fixpoint lookup_field (name : jsstring) (fields : list (jsstring * json))
  : jsvalue :=
  match fields with
  | [] => Undefined
  | (k, v) :: rest => if str_eqb k name then Value v else lookup_field name rest
  end.

(** [data.name]: reading a property of [null] throws, a value that has no
    such property gives [undefined]. *)
Definition get_prop (data : json) (name : jsstring) : Res jsvalue :=
  match data with
  | JNull => Throw (JsError (js "Cannot read property of null"))
  | JObj fields => Ok (lookup_field name fields)
  | _ => Ok Undefined
  end.

(** [String(j)] for a value that came out of [JSON.parse]: an array joins
    the texts of its elements with commas, [null] elements giving the empty
    text, and an object has the text of every plain object. *)
Fixpoint to_string (j : json) : jsstring :=
  match j with
  | JNull => js "null"
  | JBool b => if b then js "true" else js "false"
  | JNum digits => digits
  | JStr s => s
  | JArr items =>
      (fix joined (l : list json) : jsstring :=
         match l with
         | [] => []
         | x :: rest =>
             match x with JNull => [] | _ => to_string x end
               ++ match rest with [] => [] | _ :: _ => js "," ++ joined rest end
         end) items
  | JObj _ => js "[object Object]"
  end.

(** The [message] of [new Error(v)]: the text of [v], and the empty message
    of the prototype when [v] is [undefined]. *)
Definition message_of (v : jsvalue) : jsstring :=
  match v with
  | Undefined => []
  | Value j => to_string j
  end.

(** [v === "text"]. *)
Definition strict_eq_string (v : jsvalue) (text : jsstring) : bool :=
  match v with
  | Value (JStr s) => str_eqb s text
  | _ => false
  end.

(** [JSON.stringify] of a string (QuoteJSONString). *)
Section JsonQuote.
Local Open Scope N_scope.

Definition hex_digit (d : N) : cu := if d <? 10 then 48 + d else 87 + d.

Definition unicode_escape (c : cu) : jsstring :=
  [92; 117; hex_digit ((c / 4096) mod 16); hex_digit ((c / 256) mod 16);
   hex_digit ((c / 16) mod 16); hex_digit (c mod 16)].

Definition is_high_surrogate (c : cu) : bool := in_range 55296 56319 c.
Definition is_low_surrogate (c : cu) : bool := in_range 56320 57343 c.

Definition quote_unit (c : cu) : jsstring :=
  if cu_eqb c 8 then [92; 98]
  else if cu_eqb c 9 then [92; 116]
  else if cu_eqb c 10 then [92; 110]
  else if cu_eqb c 12 then [92; 102]
  else if cu_eqb c 13 then [92; 114]
  else if cu_eqb c 34 then [92; 34]
  else if cu_eqb c 92 then [92; 92]
  else if c <? 32 then unicode_escape c
  else if is_high_surrogate c || is_low_surrogate c then unicode_escape c
  else [c].

Fixpoint quote_units (s : jsstring) : jsstring :=
  match s with
  | [] => []
  | c :: rest =>
      if is_high_surrogate c then
        match rest with
        | d :: rest' =>
            if is_low_surrogate d then c :: d :: quote_units rest'
            else quote_unit c ++ quote_units rest
        | [] => quote_unit c
        end
      else quote_unit c ++ quote_units rest
  end.

Definition JSON_quote (s : jsstring) : jsstring :=
  [34] ++ quote_units s ++ [34].

End JsonQuote.

(** [JSON.stringify({ url })]. *)
Definition JSON_stringify_url (url : jsstring) : jsstring :=
  [123%N] ++ JSON_quote (js "url") ++ [58%N] ++ JSON_quote url ++ [125%N].

(** ** The remote API client ([constants/api.ts]) *)

Module Api.

Definition API_BASE_URL : jsstring := js "http://192.168.1.10:8000".

Definition HEALTH_TIMEOUT_MS : N := 5000.
Definition INFO_TIMEOUT_MS : N := 15000.
Definition DOWNLOAD_TIMEOUT_MS : N := 120000.

Record ReelInfo := {
  title : jsstring;
  thumbnail : jsstring;
  duration : jsstring;        (* a number; kept as the literal the server sent *)
  video_url : jsstring;
  uploader : jsstring
}.

Definition Blob := list N.

Inductive Method := GET | POST.

(** What [fetchWithTimeout(url, options, timeoutMs)] hands to [fetch]. *)
Record Request := {
  req_method : Method;
  req_url : jsstring;
  req_headers : list (jsstring * jsstring);
  req_body : option jsstring;
  req_timeout : N
}.

(** A response, with what each read of its body yields; [None] when that
    read rejects.  The body of an error response is read without a type:
    [ApiErrorResponse] is a declaration only, and nothing checks the body
    against it.  The body of an ok response is read at the type [A] the
    caller holds it at. *)
Record Response (A : Type) := {
  status : Z;
  content_disposition : option jsstring;
  error_json : option json;               (* response.json() of an error *)
  payload : option A                      (* response.json() or response.blob() *)
}.

Definition ok {A} (r : Response A) : bool :=
  (200 <=? status r)%Z && (status r <=? 299)%Z.

(** The outcome of [fetch]: the promise rejects when the request does not
    reach the server or when the timer aborts it. *)
Inductive Fetched (A : Type) :=
| Rejected
| Resolved (r : Response A).
Arguments Rejected {A}.
Arguments Resolved {A} r.

(** [fallback] is declared a string; at run time it is whatever the caller
    read from the body. *)
Definition getErrorMessage (status : Z) (fallback : jsvalue) : jsvalue :=
  if (status =? 422)%Z then
    Value (JStr (js "URL no valida. Asegurate de que sea un enlace de Instagram Reel."))
  else if (status =? 403)%Z then
    Value (JStr (js "Este Reel es privado o requiere inicio de sesion."))
  else if (status =? 404)%Z then
    Value (JStr (js "Reel no encontrado. Verifica el enlace e intenta de nuevo."))
  else if (status =? 500)%Z then
    Value (JStr (js "Error en el servidor. Intenta de nuevo mas tarde."))
  else fallback.

(** [new ApiError(status, detail)]: the constructor hands [detail] to
    [Error]. *)
Definition new_ApiError (status : Z) (detail : jsvalue) : Thrown :=
  ApiError status (message_of detail).

(** The requests issued so far are the state of the client. *)
Definition Net := M (list Request).

Definition fetchWithTimeout {A} (url : jsstring) (method : Method)
    (headers : list (jsstring * jsstring)) (body : option jsstring)
    (timeoutMs : N) (outcome : Fetched A) : Net (Response A) :=
  modify (fun log => log ++ [Build_Request method url headers body timeoutMs]) ;;
  match outcome with
  | Rejected => throw (JsError (js "Network request failed"))
  | Resolved r => ret r
  end.

(** [await response.json()] and [await response.blob()]. *)
Definition read_body {S A} (body : option A) : M S A :=
  match body with
  | Some a => ret a
  | None => throw (JsError (js "body could not be read"))
  end.

(** [API_BASE_URL.replace(/\/+$/, "")]. *)
Definition strip_trailing_slashes (s : jsstring) : jsstring :=
  rev (drop_while (fun c => cu_eqb c 47%N) (rev s)).

Definition checkServerHealth (outcome : Fetched json) : Net bool :=
  try_catch
    (let base := strip_trailing_slashes API_BASE_URL in
     response <- fetchWithTimeout (base ++ js "/") GET [] None
                   HEALTH_TIMEOUT_MS outcome ;;
     if negb (ok response) then ret false
     else
       data <- read_body (payload response) ;;
       st <- of_res (get_prop data (js "status")) ;;
       ret (strict_eq_string st (js "ok")))
    (fun _ => ret false).

Definition unreachable_message : jsstring :=
  js "No se pudo conectar al servidor. Verifica que este encendido y en la misma red.".

(** The body of an ok response is returned as [response.json()] gives it:
    [A] is the type the caller holds it at. *)
Definition fetchReelInfo {A} (url : jsstring) (outcome : Fetched A)
  : Net A :=
  response <- try_catch
                (fetchWithTimeout (API_BASE_URL ++ js "/info") POST
                   [(js "Content-Type", js "application/json")]
                   (Some (JSON_stringify_url url)) INFO_TIMEOUT_MS outcome)
                (fun _ => throw (new_ApiError 0
                                   (Value (JStr unreachable_message)))) ;;
  if negb (ok response) then
    detail <- try_catch
                (errorData <- read_body (error_json response) ;;
                 of_res (get_prop errorData (js "detail")))
                (fun _ => ret (Value (JStr (js "Error desconocido.")))) ;;
    throw (new_ApiError (status response)
             (getErrorMessage (status response) detail))
  else read_body (payload response).

(** [/filename="?(.+?)"?$/]. *)
Definition FILENAME_REGEX : regex :=
  Seq (Lit (js "filename="))
   (Seq (Opt (Lit [34%N]))
    (Seq (Group 1 (LazyPlus is_dot))
     (Seq (Opt (Lit [34%N])) Eol))).

(** [now] is the reading of [Date.now()] used for the default file name. *)
Definition downloadReelBinary (url : jsstring) (now : N)
    (outcome : Fetched Blob) : Net (Blob * jsstring) :=
  response <- try_catch
                (fetchWithTimeout (API_BASE_URL ++ js "/download") POST
                   [(js "Content-Type", js "application/json")]
                   (Some (JSON_stringify_url url)) DOWNLOAD_TIMEOUT_MS outcome)
                (fun _ => throw (new_ApiError 0
                                   (Value (JStr unreachable_message)))) ;;
  if negb (ok response) then
    detail <- try_catch
                (errorData <- read_body (error_json response) ;;
                 of_res (get_prop errorData (js "detail")))
                (fun _ => ret (Value (JStr (js "Error desconocido.")))) ;;
    throw (new_ApiError (status response)
             (getErrorMessage (status response) detail))
  else
    let disposition := content_disposition response in
    let filenameMatch :=
      match disposition with
      | Some d => exec FILENAME_REGEX d
      | None => None
      end in
    let default := js "reel_" ++ decimal now ++ js ".mp4" in
    let filename :=
      match filenameMatch with
      | Some caps =>
          match capture 1 caps with
          | Some name => or_default name default
          | None => default
          end
      | None => default
      end in
    blob <- read_body (payload response) ;;
    ret (blob, filename).

End Api.

(** ** The cookie session ([contexts/session-context.tsx]) *)

Module Session.

Definition STORAGE_KEY : jsstring := js "ig_session".

Record InstagramCookie := {
  name : jsstring;
  value : jsstring;
  domain : jsstring;
  path : jsstring;
  secure : bool;
  httpOnly : bool;
  expires : option jsstring
}.

Record SessionState := {
  cookies : list InstagramCookie;
  username : option jsstring
}.

(** The item kept under [STORAGE_KEY], for a store that only this provider
    writes: the text written by [JSON.stringify] stands for the session it
    encodes; [Corrupt] is a text that [JSON.parse] refuses.  A text that
    parses to something else is the subject of [RawSession]. *)
Inductive Stored :=
| Corrupt
| Encoded (s : SessionState).

(** The provider's state together with the secure store. *)
Record World := {
  session : SessionState;
  isLoading : bool;
  secure_store : option Stored
}.

Definition initial (store : option Stored) : World :=
  {| session := {| cookies := []; username := None |};
     isLoading := true;
     secure_store := store |}.

Definition setSession (s : SessionState) : M World unit :=
  modify (fun w => {| session := s; isLoading := isLoading w;
                      secure_store := secure_store w |}).

Definition setIsLoading (b : bool) : M World unit :=
  modify (fun w => {| session := session w; isLoading := b;
                      secure_store := secure_store w |}).

(** [SecureStore.getItemAsync], [setItemAsync] and [deleteItemAsync]; the
    flag tells whether the native call resolves. *)
Definition getItemAsync (resolves : bool) : M World (option Stored) :=
  if resolves then (w <- get ;; ret (secure_store w))
  else throw (JsError (js "SecureStore failed")).

Definition setItemAsync (s : SessionState) (resolves : bool) : M World unit :=
  if resolves then
    modify (fun w => {| session := session w; isLoading := isLoading w;
                        secure_store := Some (Encoded s) |})
  else throw (JsError (js "SecureStore failed")).

Definition deleteItemAsync (resolves : bool) : M World unit :=
  if resolves then
    modify (fun w => {| session := session w; isLoading := isLoading w;
                        secure_store := None |})
  else throw (JsError (js "SecureStore failed")).

(** The effect run once when the provider mounts. *)
Definition load (resolves : bool) : M World unit :=
  try_catch
    (saved <- getItemAsync resolves ;;
     match saved with
     | Some (Encoded s) => setSession s
     | Some Corrupt => throw (JsError (js "JSON Parse error"))
     | None => ret tt
     end)
    (fun _ => ret tt) ;;
  setIsLoading false.

(** [username ?? dsUser?.value ?? null]; [None] is null or undefined. *)
Definition saveCookies (cookies : list InstagramCookie)
    (username : option jsstring) (resolves : bool) : M World unit :=
  let dsUser := find (fun c => str_eqb (name c) (js "ds_user_id")) cookies in
  let newSession :=
    {| cookies := cookies;
       username := match username with
                   | Some u => Some u
                   | None => match dsUser with
                             | Some c => Some (value c)
                             | None => None
                             end
                   end |} in
  setSession newSession ;;
  setItemAsync newSession resolves.

Definition clearSession (resolves : bool) : M World unit :=
  setSession {| cookies := []; username := None |} ;;
  deleteItemAsync resolves.

Definition bool_word (b : bool) : jsstring :=
  if b then js "TRUE" else js "FALSE".

Definition tab : jsstring := [9%N].
Definition newline : jsstring := [10%N].

Definition cookie_line (c : InstagramCookie) : jsstring :=
  let domain := or_default (domain c) (js ".instagram.com") in
  let subdomains := bool_word (startsWith domain (js ".")) in
  let path := or_default (path c) (js "/") in
  let secure := bool_word (secure c) in
  let expiry := js "0" in
  domain ++ tab ++ subdomains ++ tab ++ path ++ tab ++ secure ++ tab
    ++ expiry ++ tab ++ name c ++ tab ++ value c.

(** [None] is [undefined]. *)
Definition cookiesForApi (s : SessionState) : option jsstring :=
  if Nat.eqb (List.length (cookies s)) 0 then None
  else
    let lines := map cookie_line (cookies s) in
    Some (join newline lines).

Definition isLoggedIn (s : SessionState) : bool :=
  existsb (fun c => str_eqb (name c) (js "sessionid") && truthy (value c))
          (cookies s).

End Session.

(** ** The download history (history context) *)

Module History.

Definition STORAGE_KEY : jsstring := js "download_history".
Definition MAX_HISTORY : nat := 200.

Record DownloadRecord := {
  id : jsstring;
  url : jsstring;
  title : jsstring;
  uploader : jsstring;
  thumbnail : jsstring;
  duration : jsstring;
  downloadedAt : N
}.

(** [Omit<DownloadRecord, 'id' | 'downloadedAt'>]. *)
Record RecordInput := {
  in_url : jsstring;
  in_title : jsstring;
  in_uploader : jsstring;
  in_thumbnail : jsstring;
  in_duration : jsstring
}.

(** The item kept under [STORAGE_KEY], for a store that only this provider
    writes: the text [persist] wrote stands for the list it encodes;
    [Corrupt] is a text that [JSON.parse] refuses.  A text that parses to
    something else is the subject of [RawHistory]. *)
Inductive Stored :=
| Corrupt
| Encoded (records : list DownloadRecord).

Record World := {
  history : list DownloadRecord;
  isLoading : bool;
  async_storage : option Stored
}.

Definition initial (store : option Stored) : World :=
  {| history := []; isLoading := true; async_storage := store |}.

Definition setHistory (h : list DownloadRecord) : M World unit :=
  modify (fun w => {| history := h; isLoading := isLoading w;
                      async_storage := async_storage w |}).

Definition setIsLoading (b : bool) : M World unit :=
  modify (fun w => {| history := history w; isLoading := b;
                      async_storage := async_storage w |}).

Definition getItem (resolves : bool) : M World (option Stored) :=
  if resolves then (w <- get ;; ret (async_storage w))
  else throw (JsError (js "AsyncStorage failed")).

Definition setItem (records : list DownloadRecord) (resolves : bool)
  : M World unit :=
  if resolves then
    modify (fun w => {| history := history w; isLoading := isLoading w;
                        async_storage := Some (Encoded records) |})
  else throw (JsError (js "AsyncStorage failed")).

Definition removeItem (resolves : bool) : M World unit :=
  if resolves then
    modify (fun w => {| history := history w; isLoading := isLoading w;
                        async_storage := None |})
  else throw (JsError (js "AsyncStorage failed")).

Definition load (resolves : bool) : M World unit :=
  try_catch
    (saved <- getItem resolves ;;
     match saved with
     | Some (Encoded records) => setHistory records
     | Some Corrupt => throw (JsError (js "JSON Parse error"))
     | None => ret tt
     end)
    (fun _ => ret tt) ;;
  setIsLoading false.

Definition persist (records : list DownloadRecord) (resolves : bool)
  : M World unit :=
  setItem records resolves.

(** What one call of [addRecord] reads from its environment: the two
    readings of [Date.now()], the text of [Math.random().toString(36)], and
    whether the storage write resolves. *)
Record Clock := {
  now_id : N;
  random36 : jsstring;
  now_at : N;
  write_resolves : bool
}.

Definition new_record (record : RecordInput) (c : Clock) : DownloadRecord :=
  {| url := in_url record;
     title := in_title record;
     uploader := in_uploader record;
     thumbnail := in_thumbnail record;
     duration := in_duration record;
     id := decimal (now_id c) ++ js "_" ++ substring 2 8 (random36 c);
     downloadedAt := now_at c |}.

(** The function [addRecord] of one render.  [useCallback] builds it over
    the history [shown] by that render, and [setHistory] is given a list,
    not an updater: every call through this function starts from [shown],
    whatever the state has become in the meantime. *)
Definition addRecord_of (shown : list DownloadRecord) (record : RecordInput)
    (c : Clock) : M World unit :=
  let newRecord := new_record record c in
  let updated := firstn MAX_HISTORY (newRecord :: shown) in
  setHistory updated ;;
  persist updated (write_resolves c).

(** A call of [addRecord] as the current render hands it out. *)
Definition addRecord (record : RecordInput) (c : Clock) : M World unit :=
  w <- get ;;
  addRecord_of (history w) record c.

(** A call of [removeRecord] as the current render hands it out. *)
Definition removeRecord (rid : jsstring) (resolves : bool) : M World unit :=
  w <- get ;;
  let updated := filter (fun r => negb (str_eqb (id r) rid)) (history w) in
  setHistory updated ;;
  persist updated resolves.

Definition clearHistory (resolves : bool) : M World unit :=
  setHistory [] ;;
  removeItem resolves.

(** Calls of [addRecord] one after another with the provider rendered again
    between them: each goes through the function of the render that shows
    what the previous call left. *)
Fixpoint add_all (inputs : list (RecordInput * Clock)) (w : World) : World :=
  match inputs with
  | [] => w
  | (r, c) :: rest => add_all rest (snd (addRecord r c w))
  end.

(** Calls one after another through one and the same function, the one of
    the render that shows [shown], as when a caller awaits them in a row. *)
Fixpoint add_all_through (shown : list DownloadRecord)
    (inputs : list (RecordInput * Clock)) (w : World) : World :=
  match inputs with
  | [] => w
  | (r, c) :: rest =>
      add_all_through shown rest (snd (addRecord_of shown r c w))
  end.

End History.

(** ** The home screen: the download orchestrator *)

Module Home.

Import Api.

Inductive AppStatus :=
| idle
| checking_server
| fetching_info
| preview
| downloading
| saving
| success
| error.

Inductive Button := searchScale | downloadScale.

(** What the screen does to the device and the network, in the order it
    happens. *)
Inductive Effect :=
| KeyboardDismiss
| AnimateButton (b : Button)
| FocusInput
| ClipboardRead
| AlertShown (title message : jsstring)
| Http (r : Request)
| RequestPermissions
| DownloadFile (from_url fileName : jsstring)
| WriteFile (fileName : jsstring) (bytes : Blob)
| SaveToLibrary (uri : jsstring)
| FileExists (uri : jsstring)
| DeleteFile (uri : jsstring).

(** The component's state, with the effects it has produced. *)
Record World := {
  url : jsstring;
  status : AppStatus;
  reelInfo : option ReelInfo;
  errorMessage : jsstring;
  serverOnline : option bool;
  is403 : bool;
  effects : list Effect
}.

Definition initial : World :=
  {| url := []; status := idle; reelInfo := None; errorMessage := [];
     serverOnline := None; is403 := false; effects := [] |}.

Definition setUrl (v : jsstring) : M World unit :=
  modify (fun w => {| url := v; status := status w; reelInfo := reelInfo w;
                      errorMessage := errorMessage w;
                      serverOnline := serverOnline w; is403 := is403 w;
                      effects := effects w |}).
Definition setStatus (v : AppStatus) : M World unit :=
  modify (fun w => {| url := url w; status := v; reelInfo := reelInfo w;
                      errorMessage := errorMessage w;
                      serverOnline := serverOnline w; is403 := is403 w;
                      effects := effects w |}).
Definition setReelInfo (v : option ReelInfo) : M World unit :=
  modify (fun w => {| url := url w; status := status w; reelInfo := v;
                      errorMessage := errorMessage w;
                      serverOnline := serverOnline w; is403 := is403 w;
                      effects := effects w |}).
Definition setErrorMessage (v : jsstring) : M World unit :=
  modify (fun w => {| url := url w; status := status w; reelInfo := reelInfo w;
                      errorMessage := v;
                      serverOnline := serverOnline w; is403 := is403 w;
                      effects := effects w |}).
Definition setServerOnline (v : option bool) : M World unit :=
  modify (fun w => {| url := url w; status := status w; reelInfo := reelInfo w;
                      errorMessage := errorMessage w;
                      serverOnline := v; is403 := is403 w;
                      effects := effects w |}).
Definition setIs403 (v : bool) : M World unit :=
  modify (fun w => {| url := url w; status := status w; reelInfo := reelInfo w;
                      errorMessage := errorMessage w;
                      serverOnline := serverOnline w; is403 := v;
                      effects := effects w |}).
Definition perform (es : list Effect) : M World unit :=
  modify (fun w => {| url := url w; status := status w; reelInfo := reelInfo w;
                      errorMessage := errorMessage w;
                      serverOnline := serverOnline w; is403 := is403 w;
                      effects := effects w ++ es |}).

(** A call into the API client: its requests become effects of the screen. *)
Definition call {A} (c : Net A) : M World A :=
  fun w => let (r, log) := c [] in
           match perform (map Http log) w with
           | (_, w') => (r, w')
           end.

(** A call that passes one argument more than the callee declares: the
    surplus argument is evaluated and never reaches the callee. *)
Definition surplus_argument {A B X} (f : A -> B) (a : A) (extra : X) : B := f a.

Definition INSTAGRAM_URL_REGEX : regex :=
  Seq Bol
   (Seq (Lit (js "http"))
    (Seq (Opt (Lit (js "s")))
     (Seq (Lit (js "://"))
      (Seq (Opt (Group 1 (Lit (js "www."))))
       (Seq (Lit (js "instagram.com/"))
        (Seq (Group 2 (Alt (Lit (js "reel"))
                        (Alt (Lit (js "reels")) (Lit (js "p")))))
         (Seq (Lit (js "/")) (Plus is_word_or_dash)))))))).

(** The effect run once on mount: [checkServerHealth().then(setServerOnline)]. *)
Definition on_mount (outcome : Fetched json) : M World unit :=
  online <- call (checkServerHealth outcome) ;;
  setServerOnline (Some online).

Definition animateButton (b : Button) : M World unit :=
  perform [AnimateButton b].

Definition handlePaste (clipboard : Res jsstring) : M World unit :=
  try_catch
    (perform [ClipboardRead] ;;
     clipboardContent <- of_res clipboard ;;
     if truthy clipboardContent then
       setUrl (trim clipboardContent) ;;
       setErrorMessage []
     else ret tt)
    (fun _ =>
       perform [AlertShown (js "Error")
                  (js "No se pudo acceder al portapapeles.")]).

Definition handleClear : M World unit :=
  setUrl [] ;;
  setStatus idle ;;
  setReelInfo None ;;
  setErrorMessage [] ;;
  setIs403 false ;;
  perform [FocusInput].

(** [sess] is the session the screen reads through [useSession]; [outcome]
    is what the network does with the request, if one is made. *)
Definition handleFetchInfo (sess : Session.SessionState)
    (outcome : Fetched ReelInfo) : M World unit :=
  w <- get ;;
  perform [KeyboardDismiss] ;;
  animateButton searchScale ;;
  let trimmedUrl := trim (url w) in
  if negb (truthy trimmedUrl) then
    setErrorMessage (js "Por favor, ingresa una URL.")
  else if negb (test INSTAGRAM_URL_REGEX trimmedUrl) then
    setErrorMessage (js "URL no valida. Ingresa un enlace de Instagram Reel.")
  else
    setErrorMessage [] ;;
    setReelInfo None ;;
    setIs403 false ;;
    setStatus fetching_info ;;
    try_catch
      (let cookies := Session.cookiesForApi sess in
       info <- call (surplus_argument fetchReelInfo trimmedUrl cookies outcome) ;;
       setReelInfo (Some info) ;;
       setStatus preview)
      (fun err =>
         setStatus error ;;
         match err with
         | ApiError st message =>
             setErrorMessage message ;;
             setIs403 (st =? 403)%Z
         | _ =>
             setErrorMessage
               (js "No se pudo conectar al servidor. Verifica tu conexion.")
         end).

(** What one run of [handleDownload] meets in its environment. *)
Record DownloadEnv := {
  permission : Res jsstring;          (* the status of requestPermissionsAsync *)
  now : N;                            (* Date.now() for the file name *)
  native_download : Res jsstring;     (* the uri from downloadFileAsync *)
  fallback_now : N;                   (* Date.now() inside downloadReelBinary *)
  fallback : Fetched Blob;            (* the reply to POST /download *)
  buffer : Res unit;                  (* blob.arrayBuffer() *)
  cache_uri : jsstring -> jsstring;   (* the uri of a file of Paths.cache *)
  written : Res unit;                 (* fallbackDest.write *)
  saved : Res unit;                   (* saveToLibraryAsync *)
  temp_exists : Res bool;             (* tempFile.exists *)
  deleted : Res unit                  (* tempFile.delete() *)
}.

(** [/[^a-zA-Z0-9_\- ]/g]: what the first [replace] removes. *)
Definition is_name_char (c : cu) : bool :=
  (in_range 97 122 c || in_range 65 90 c || in_range 48 57 c
   || cu_eqb c 95 || cu_eqb c 45 || cu_eqb c 32)%N.

(** [.replace(/\s+/g, "_")]. *)
Fixpoint replace_space_runs (in_run : bool) (s : jsstring) : jsstring :=
  match s with
  | [] => []
  | c :: s' =>
      if is_space c then
        if in_run then replace_space_runs true s'
        else 95%N :: replace_space_runs true s'
      else c :: replace_space_runs false s'
  end.

Definition safeName (info : ReelInfo) : jsstring :=
  substring 0 60
    (replace_space_runs false
       (trim (filter is_name_char (or_default (title info) (js "reel"))))).

Definition handleDownload (sess : Session.SessionState) (env : DownloadEnv)
  : M World unit :=
  w <- get ;;
  match reelInfo w with
  | None => ret tt
  | Some info =>
      animateButton downloadScale ;;
      setStatus downloading ;;
      setErrorMessage [] ;;
      try_catch
        (perform [RequestPermissions] ;;
         permStatus <- of_res (permission env) ;;
         if negb (str_eqb permStatus (js "granted")) then
           throw (JsError (js "Se necesitan permisos para guardar el video."))
         else
           let videoUrl := video_url info in
           let fileName :=
             safeName info ++ js "_" ++ decimal (now env) ++ js ".mp4" in
           fileUri <- try_catch
                        (perform [DownloadFile videoUrl fileName] ;;
                         of_res (native_download env))
                        (fun _ =>
                           let cookies := Session.cookiesForApi sess in
                           bf <- call (surplus_argument
                                         (fun u => downloadReelBinary u
                                                     (fallback_now env)
                                                     (fallback env))
                                         (trim (url w)) cookies) ;;
                           of_res (buffer env) ;;
                           perform [WriteFile (snd bf) (fst bf)] ;;
                           of_res (written env) ;;
                           ret (cache_uri env (snd bf))) ;;
           if negb (truthy fileUri) then
             throw (JsError (js "La descarga fallo."))
           else
             setStatus saving ;;
             perform [SaveToLibrary fileUri] ;;
             of_res (saved env) ;;
             try_catch
               (perform [FileExists fileUri] ;;
                present <- of_res (temp_exists env) ;;
                if present then
                  perform [DeleteFile fileUri] ;;
                  of_res (deleted env)
                else ret tt)
               (fun _ => ret tt) ;;
             setStatus success)
        (fun err =>
           setStatus error ;;
           match err with
           | ApiError _ message => setErrorMessage message
           | JsError message => setErrorMessage message
           | NonError => setErrorMessage (js "Error inesperado al descargar.")
           end)
  end.

Definition handleRetry (sess : Session.SessionState)
    (outcome : Fetched ReelInfo) (env : DownloadEnv) : M World unit :=
  w <- get ;;
  match reelInfo w with
  | Some _ => handleDownload sess env
  | None => handleFetchInfo sess outcome
  end.

Definition handleNewDownload : M World unit :=
  setUrl [] ;;
  setStatus idle ;;
  setReelInfo None ;;
  setErrorMessage [] ;;
  setIs403 false ;;
  perform [FocusInput].

Definition isLoading (w : World) : bool :=
  match status w with
  | checking_server | fetching_info | downloading | saving => true
  | _ => false
  end.

Definition showPreview (w : World) : bool :=
  match reelInfo w with
  | Some _ =>
      match status w with
      | preview | downloading | saving | success => true
      | _ => false
      end
  | None => false
  end.

(** The [onChangeText] of the input; [status] is the one of the render the
    handler was created in. *)
Definition onChangeText (text : jsstring) : M World unit :=
  w <- get ;;
  setUrl text ;;
  setErrorMessage [] ;;
  (match status w with
   | error => setStatus idle
   | _ => ret tt
   end) ;;
  (match status w with
   | preview | success => setStatus idle ;; setReelInfo None
   | _ => ret tt
   end).

End Home.

(** ** The session screen: manual cookie import

    Both variants of the screen carry the same [handleManualSave]. *)

Module SessionScreen.

Import Session.

Record World := {
  manualCookies : jsstring;
  showManualInput : bool;
  provider : Session.World;               (* what useSession() gives access to *)
  alerts : list (jsstring * jsstring)     (* Alert.alert(title, message) *)
}.

Definition setManualCookies (v : jsstring) : M World unit :=
  modify (fun w => {| manualCookies := v; showManualInput := showManualInput w;
                      provider := provider w; alerts := alerts w |}).
Definition setShowManualInput (v : bool) : M World unit :=
  modify (fun w => {| manualCookies := manualCookies w; showManualInput := v;
                      provider := provider w; alerts := alerts w |}).
Definition alert (title message : jsstring) : M World unit :=
  modify (fun w => {| manualCookies := manualCookies w;
                      showManualInput := showManualInput w;
                      provider := provider w;
                      alerts := alerts w ++ [(title, message)] |}).

(** A call into the session provider. *)
Definition in_provider {A} (c : M Session.World A) : M World A :=
  fun w => match c (provider w) with
           | (r, p) => (r, {| manualCookies := manualCookies w;
                              showManualInput := showManualInput w;
                              provider := p; alerts := alerts w |})
           end.

Definition part (i : nat) (parts : list jsstring) : jsstring := nth i parts [].

(** The first loop: one cookie for every line of seven or more
    tab-separated fields. *)
Definition netscape_line (line : jsstring) : list InstagramCookie :=
  let parts := split 9%N line in
  if Nat.leb 7 (List.length parts) then
    [{| name := trim (part 5 parts);
        value := trim (part 6 parts);
        domain := trim (part 0 parts);
        path := trim (part 2 parts);
        secure := str_eqb (toUpperCase (trim (part 3 parts))) (js "TRUE");
        httpOnly := str_eqb (trim (part 5 parts)) (js "sessionid");
        expires := None |}]
  else [].

(** The second loop: one cookie for every [name=value] pair whose [=] is
    not its first unit. *)
Definition pair_cookie (pair : jsstring) : list InstagramCookie :=
  let eqIdx := indexOf 61%N pair in
  if (0 <? eqIdx)%Z then
    [{| name := trim (substring 0 eqIdx pair);
        value := trim (substring_from (eqIdx + 1) pair);
        domain := js ".instagram.com";
        path := js "/";
        secure := true;
        httpOnly := str_eqb (trim (substring 0 eqIdx pair)) (js "sessionid");
        expires := None |}]
  else [].

(** The cookies [handleManualSave] has collected when it reaches its checks;
    [text] is the trimmed input. *)
Definition parse_cookies (text : jsstring) : list InstagramCookie :=
  let lines :=
    filter (fun l => truthy (trim l) && negb (startsWith l (js "#")))
           (split 10%N text) in
  let cookies := flat_map netscape_line lines in
  if Nat.eqb (List.length cookies) 0 then
    let pairs := filter truthy (map trim (split 59%N text)) in
    cookies ++ flat_map pair_cookie pairs
  else cookies.

Definition handleManualSave (store_resolves : bool) : M World unit :=
  w <- get ;;
  let text := trim (manualCookies w) in
  if negb (truthy text) then
    alert (js "Error") (js "Pega tus cookies primero.")
  else
    try_catch
      (let cookies := parse_cookies text in
       if Nat.eqb (List.length cookies) 0 then
         alert (js "Error")
           (js "No se pudieron parsear las cookies. Verifica el formato.")
       else
         let hasSession :=
           existsb (fun c => str_eqb (name c) (js "sessionid")
                             && truthy (value c)) cookies in
         if negb hasSession then
           alert (js "Error")
             (js "No se encontro la cookie " ++ [34%N] ++ js "sessionid"
                ++ [34%N] ++ js ". Asegurate de incluirla.")
         else
           let dsUser :=
             find (fun c => str_eqb (name c) (js "ds_user_id")) cookies in
           in_provider
             (saveCookies cookies
                (match dsUser with Some c => Some (value c) | None => None end)
                store_resolves) ;;
           setManualCookies [] ;;
           setShowManualInput false ;;
           alert (js "Listo!") (js "Cookies guardadas correctamente."))
      (fun _ => alert (js "Error") (js "Formato de cookies no valido.")).

End SessionScreen.

(** ** The specification's wording, kept apart from the sources *)

Module Spec.

(** An Instagram Reel or post URL: scheme http or https, an optional
    [www.], the host [instagram.com], a path that starts with [/reel/],
    [/reels/] or [/p/], then at least one unit of an identifier made of
    letters, digits, [-] and [_]. *)
Definition reel_shaped (s : jsstring) : Prop :=
  exists scheme www segment c rest,
    In scheme [js "http"; js "https"] /\
    In www [[]; js "www."] /\
    In segment [js "reel"; js "reels"; js "p"] /\
    is_word_or_dash c = true /\
    s = scheme ++ js "://" ++ www ++ js "instagram.com/" ++ segment
          ++ js "/" ++ c :: rest.

(** One line of the transport format as the specification words it: the
    cookie's own domain and path, with no default. *)
Definition transport_line (c : Session.InstagramCookie) : jsstring :=
  Session.domain c ++ Session.tab
    ++ Session.bool_word (startsWith (Session.domain c) (js "."))
    ++ Session.tab ++ Session.path c ++ Session.tab
    ++ Session.bool_word (Session.secure c) ++ Session.tab
    ++ js "0" ++ Session.tab ++ Session.name c ++ Session.tab
    ++ Session.value c.

End Spec.

(** ** Summaries of control flow, proved equal to the functions *)

Module Summary.
Import Api.

(** What [checkServerHealth] returns, case by case. *)
Definition health_verdict (outcome : Fetched json) : bool :=
  match outcome with
  | Rejected => false
  | Resolved r =>
      ok r &&
      match payload r with
      | Some data =>
          match get_prop data (js "status") with
          | Ok v => strict_eq_string v (js "ok")
          | Throw _ => false
          end
      | None => false
      end
  end.

(** The detail an error response contributes: the [detail] property of its
    JSON body, [undefined] when the body has none, or the generic fallback
    when the body is not JSON or is [null]. *)
Definition server_detail {A} (r : Response A) : jsvalue :=
  match error_json r with
  | Some (JObj fields) => lookup_field (js "detail") fields
  | Some JNull | None => Value (JStr (js "Error desconocido."))
  | Some _ => Undefined
  end.

(** What the two POST calls do with a response that is not ok. *)
Definition http_error {A} (r : Response A) : Thrown :=
  ApiError (status r)
    (message_of (getErrorMessage (status r) (server_detail r))).

(** The request of a POST call. *)
Definition post_request (endpoint url : jsstring) (timeoutMs : N) : Request :=
  {| req_method := POST;
     req_url := API_BASE_URL ++ endpoint;
     req_headers := [(js "Content-Type", js "application/json")];
     req_body := Some (JSON_stringify_url url);
     req_timeout := timeoutMs |}.

(** The screen after [handleFetchInfo] has let the input through and the
    call of the client has ended with [result]. *)
Definition fetched_world (w : Home.World) (result : Res ReelInfo)
  : Home.World :=
  {| Home.url := Home.url w;
     Home.status :=
       match result with Ok _ => Home.preview | Throw _ => Home.error end;
     Home.reelInfo :=
       match result with Ok info => Some info | Throw _ => None end;
     Home.errorMessage :=
       match result with
       | Ok _ => []
       | Throw (ApiError _ message) => message
       | Throw _ => js "No se pudo conectar al servidor. Verifica tu conexion."
       end;
     Home.serverOnline := Home.serverOnline w;
     Home.is403 :=
       match result with
       | Throw (ApiError st _) => (st =? 403)%Z
       | _ => false
       end;
     Home.effects :=
       Home.effects w
         ++ [Home.KeyboardDismiss; Home.AnimateButton Home.searchScale;
             Home.Http (post_request (js "/info") (trim (Home.url w))
                          INFO_TIMEOUT_MS)] |}.

(** The screen after [handleFetchInfo] has turned the input down. *)
Definition refused_world (w : Home.World) : Home.World :=
  {| Home.url := Home.url w;
     Home.status := Home.status w;
     Home.reelInfo := Home.reelInfo w;
     Home.errorMessage :=
       if truthy (trim (Home.url w))
       then js "URL no valida. Ingresa un enlace de Instagram Reel."
       else js "Por favor, ingresa una URL.";
     Home.serverOnline := Home.serverOnline w;
     Home.is403 := Home.is403 w;
     Home.effects :=
       Home.effects w
         ++ [Home.KeyboardDismiss; Home.AnimateButton Home.searchScale] |}.


(** The requests among the effects of the screen. *)
Fixpoint requests_of (es : list Home.Effect) : list Request :=
  match es with
  | [] => []
  | Home.Http r :: rest => r :: requests_of rest
  | _ :: rest => requests_of rest
  end.

(** The test [handleManualSave] makes before it saves. *)
Definition hasSession (cookies : list Session.InstagramCookie) : bool :=
  existsb (fun c => str_eqb (Session.name c) (js "sessionid")
                    && truthy (Session.value c)) cookies.

(** The session [handleManualSave] saves for the cookies it has parsed. *)
Definition imported (cookies : list Session.InstagramCookie)
  : Session.SessionState :=
  {| Session.cookies := cookies;
     Session.username :=
       match find (fun c => str_eqb (Session.name c) (js "ds_user_id")) cookies
       with
       | Some c => Some (Session.value c)
       | None => None
       end |}.

(** The records a run of [add_all] creates, in the order of the calls. *)
Definition records_of (inputs : list (History.RecordInput * History.Clock))
  : list History.DownloadRecord :=
  map (fun rc => History.new_record (fst rc) (snd rc)) inputs.

(** The fields of one line of [cookiesForApi]: the domain and the path a
    line carries are the cookie's own, or the default when it has none. *)
Definition line_domain (c : Session.InstagramCookie) : jsstring :=
  match Session.domain c with
  | [] => js ".instagram.com"
  | _ :: _ => Session.domain c
  end.
Definition line_path (c : Session.InstagramCookie) : jsstring :=
  match Session.path c with
  | [] => js "/"
  | _ :: _ => Session.path c
  end.
Definition line_fields (c : Session.InstagramCookie) : list jsstring :=
  [line_domain c;
   if startsWith (line_domain c) (js ".") then js "TRUE" else js "FALSE";
   line_path c;
   if Session.secure c then js "TRUE" else js "FALSE";
   js "0"; Session.name c; Session.value c].

End Summary.

(** ** Proof search for the comparison of the URL pattern with its wording *)

(** The two directions of the comparison are searches over the twelve
    combinations of scheme, [www.] and path segment. *)
Ltac shape_of scheme www segment :=
  solve [ eexists scheme, www, segment, _, _;
          cbn [In]; repeat apply conj;
          [ tauto | tauto | tauto | eassumption
          | cbn [js app]; reflexivity ] ].

Ltac shape_found :=
  let seg s w :=
    first [ shape_of s w (js "reel") | shape_of s w (js "reels")
          | shape_of s w (js "p") ] in
  let www s := first [ seg s (@nil cu) | seg s (js "www.") ] in
  first [ www (js "http") | www (js "https") ].

Ltac walk_shape :=
  lazymatch goal with
  | |- exists c rest, _ = c :: rest /\ _ =>
      do 2 eexists; split; [reflexivity|assumption]
  | |- exists s', _ = _ /\ _ =>
      eexists; split; [reflexivity|]; walk_shape
  | |- _ \/ _ => solve [left; walk_shape] || (right; walk_shape)
  end.

(** ** Sample data used by the closed examples *)

Module Sample.

Definition reel_url : jsstring := js "https://www.instagram.com/reel/ABC123".

Definition info : Api.ReelInfo :=
  {| Api.title := js "Un reel"; Api.thumbnail := js "https://cdn/t.jpg";
     Api.duration := js "12"; Api.video_url := js "https://cdn/v.mp4";
     Api.uploader := js "alguien" |}.

Definition other_info : Api.ReelInfo :=
  {| Api.title := js "Otro reel"; Api.thumbnail := js "https://cdn/t2.jpg";
     Api.duration := js "7"; Api.video_url := js "https://cdn/v2.mp4";
     Api.uploader := js "otra" |}.

Definition session_cookie : Session.InstagramCookie :=
  {| Session.name := js "sessionid"; Session.value := js "X";
     Session.domain := js ".instagram.com"; Session.path := js "/";
     Session.secure := true; Session.httpOnly := true;
     Session.expires := None |}.

Definition logged_in : Session.SessionState :=
  {| Session.cookies := [session_cookie]; Session.username := None |}.

Definition logged_out : Session.SessionState :=
  {| Session.cookies := []; Session.username := None |}.

(** An import text whose second line has an empty domain and an empty path. *)
Definition bare_text : jsstring :=
  js ".instagram.com" ++ [9%N] ++ js "TRUE" ++ [9%N] ++ js "/" ++ [9%N]
    ++ js "TRUE" ++ [9%N] ++ js "0" ++ [9%N] ++ js "csrftoken" ++ [9%N]
    ++ js "T" ++ [10%N]
    ++ [9%N] ++ js "FALSE" ++ [9%N] ++ [9%N] ++ js "TRUE" ++ [9%N] ++ js "0"
    ++ [9%N] ++ js "sessionid" ++ [9%N] ++ js "X".

(** The cookie that line gives: no domain and no path. *)
Definition bare_cookie : Session.InstagramCookie :=
  {| Session.name := js "sessionid"; Session.value := js "X";
     Session.domain := []; Session.path := [];
     Session.secure := true; Session.httpOnly := true;
     Session.expires := None |}.

Definition response {A} (code : Z) (err : option json)
    (body : option A) : Api.Response A :=
  {| Api.status := code; Api.content_disposition := None;
     Api.error_json := err; Api.payload := body |}.

(** An environment in which the permission prompt is refused. *)
Definition denied : Home.DownloadEnv :=
  {| Home.permission := Ok (js "denied"); Home.now := 0;
     Home.native_download := Throw NonError; Home.fallback_now := 0;
     Home.fallback := Api.Rejected; Home.buffer := Ok tt;
     Home.cache_uri := fun n => n; Home.written := Ok tt;
     Home.saved := Ok tt; Home.temp_exists := Ok false;
     Home.deleted := Ok tt |}.

(** An environment in which the direct download fails and the client's
    download succeeds. *)
Definition proxied : Home.DownloadEnv :=
  {| Home.permission := Ok (js "granted"); Home.now := 1700000000000;
     Home.native_download := Throw (JsError (js "blocked"));
     Home.fallback_now := 1700000000001;
     Home.fallback := Api.Resolved (response 200 None (Some [1; 2; 3]%N));
     Home.buffer := Ok tt;
     Home.cache_uri := fun n => js "file:///cache/" ++ n;
     Home.written := Ok tt; Home.saved := Ok tt;
     Home.temp_exists := Ok true; Home.deleted := Ok tt |}.

Definition typed (text : jsstring) : Home.World :=
  snd (Home.onChangeText text Home.initial).

(** The screen after a fetch that succeeded and a download that was refused
    the permission: [error], with the fetched ReelInfo still held. *)
Definition after_failed_download : Home.World :=
  snd (Home.handleDownload logged_out denied
         (snd (Home.handleFetchInfo logged_out
                 (Api.Resolved (response 200 None (Some info)))
                 (typed reel_url)))).

Definition history_input (n : N) : History.RecordInput * History.Clock :=
  ({| History.in_url := reel_url; History.in_title := decimal n;
      History.in_uploader := js "alguien"; History.in_thumbnail := [];
      History.in_duration := js "12" |},
   {| History.now_id := n; History.random36 := js "0.4fzyo82mvyr";
      History.now_at := n; History.write_resolves := true |}).

(** The session screen with a text in the import field, over an empty
    provider. *)
Definition pasted (text : jsstring) : SessionScreen.World :=
  {| SessionScreen.manualCookies := text;
     SessionScreen.showManualInput := true;
     SessionScreen.provider := Session.initial None;
     SessionScreen.alerts := [] |}.

Definition pair_text : jsstring := js "sessionid=ABC123; ds_user_id=42".


(** 201 inputs, numbered from 1 in the order they are added. *)
Definition many_inputs : list (History.RecordInput * History.Clock) :=
  map (fun n => history_input (N.of_nat n)) (seq 1 201).

End Sample.

(** ** Restarts and runs of store operations

    A restart builds a fresh provider over the store the previous one left
    and runs its mount effect. *)

Module Restart.

Definition session (w : Session.World) : Session.World :=
  snd (Session.load true (Session.initial (Session.secure_store w))).

Definition history (w : History.World) : History.World :=
  snd (History.load true (History.initial (History.async_storage w))).

End Restart.

Module HistoryOps.

Inductive Op :=
| Add (record : History.RecordInput) (c : History.Clock)
| Remove (rid : jsstring) (resolves : bool)
| Clear (resolves : bool).

Definition perform (op : Op) : M History.World unit :=
  match op with
  | Add record c => History.addRecord record c
  | Remove rid resolves => History.removeRecord rid resolves
  | Clear resolves => History.clearHistory resolves
  end.

(** Whether the storage call of the operation resolves. *)
Definition resolves (op : Op) : bool :=
  match op with
  | Add _ c => History.write_resolves c
  | Remove _ b => b
  | Clear b => b
  end.

Definition run (ops : list Op) (w : History.World) : History.World :=
  fold_left (fun w op => snd (perform op w)) ops w.

End HistoryOps.

(** ** Further summaries, proved equal to the functions *)

Module More.

(** The session [saveCookies] builds from a cookie set and an optional user
    name. *)
Definition saved_session (cs : list Session.InstagramCookie)
    (u : option jsstring) : Session.SessionState :=
  {| Session.cookies := cs;
     Session.username :=
       match u with
       | Some given => Some given
       | None =>
           match find (fun c => str_eqb (Session.name c) (js "ds_user_id")) cs
           with
           | Some c => Some (Session.value c)
           | None => None
           end
       end |}.

(** The file name [downloadReelBinary] derives from the Content-Disposition
    header of an ok response. *)
Definition filename_of (now : N) (disposition : option jsstring) : jsstring :=
  match match disposition with
        | Some d => exec Api.FILENAME_REGEX d
        | None => None
        end
  with
  | Some caps =>
      match capture 1 caps with
      | Some name => or_default name (js "reel_" ++ decimal now ++ js ".mp4")
      | None => js "reel_" ++ decimal now ++ js ".mp4"
      end
  | None => js "reel_" ++ decimal now ++ js ".mp4"
  end.

(** A text with no white space at either end; the empty text counts. *)
Definition tidy (f : jsstring) : bool :=
  match f with
  | [] => true
  | c :: _ => negb (is_space c) && negb (is_space (last f 0%N))
  end.

(** A field that a Netscape line can carry unharmed: no tab, no newline,
    no white space at either end. *)
Definition clean_field (f : jsstring) : Prop :=
  ~ In 9%N f /\ ~ In 10%N f /\ tidy f = true.

(** A cookie whose export can be read back: clean fields, a value that is
    not empty and a domain that does not start with the comment sign. *)
Definition portable (c : Session.InstagramCookie) : Prop :=
  clean_field (Session.name c) /\ clean_field (Session.value c) /\
  clean_field (Session.domain c) /\ clean_field (Session.path c) /\
  Session.value c <> [] /\
  startsWith (Session.domain c) (js "#") = false.

(** What the manual import makes of the exported line of a cookie. *)
Definition reimported (c : Session.InstagramCookie) : Session.InstagramCookie :=
  {| Session.name := Session.name c;
     Session.value := Session.value c;
     Session.domain := Summary.line_domain c;
     Session.path := Summary.line_path c;
     Session.secure := Session.secure c;
     Session.httpOnly := str_eqb (Session.name c) (js "sessionid");
     Session.expires := None |}.

End More.

(** ** The run of [handleDownload], stage by stage *)

Module Flow.
Import Api Home.

Definition fileName (info : ReelInfo) (env : DownloadEnv) : jsstring :=
  safeName info ++ js "_" ++ decimal (now env) ++ js ".mp4".

(** The request of the proxied download. *)
Definition proxy_request (w : World) : Request :=
  Summary.post_request (js "/download") (trim (url w)) DOWNLOAD_TIMEOUT_MS.

(** The message the [catch] of [handleDownload] shows for a thrown value. *)
Definition shown_message (e : Thrown) : jsstring :=
  match e with
  | ApiError _ message => message
  | JsError message => message
  | NonError => js "Error inesperado al descargar."
  end.

(** The transfer: the direct download, then the proxied one if the direct
    one throws.  The result is the uri of the temporary file. *)
Definition transfer (w : World) (info : ReelInfo) (env : DownloadEnv)
  : Res jsstring * list Effect :=
  let direct := DownloadFile (video_url info) (fileName info env) in
  match native_download env with
  | Ok uri => (Ok uri, [direct])
  | Throw _ =>
      match fst (downloadReelBinary (trim (url w)) (fallback_now env)
                   (fallback env) []) with
      | Throw e => (Throw e, [direct; Http (proxy_request w)])
      | Ok (blob, filename) =>
          match buffer env with
          | Throw e => (Throw e, [direct; Http (proxy_request w)])
          | Ok _ =>
              match written env with
              | Throw e =>
                  (Throw e, [direct; Http (proxy_request w);
                             WriteFile filename blob])
              | Ok _ =>
                  (Ok (cache_uri env filename),
                   [direct; Http (proxy_request w); WriteFile filename blob])
              end
          end
      end
  end.

(** The clean-up after a save: its failures are swallowed. *)
Definition cleanup (uri : jsstring) (env : DownloadEnv) : list Effect :=
  match temp_exists env with
  | Ok true => [FileExists uri; DeleteFile uri]
  | _ => [FileExists uri]
  end.

(** The whole attempt: how it ends and the effects it has, in order. *)
Definition attempt (w : World) (info : ReelInfo) (env : DownloadEnv)
  : Res unit * list Effect :=
  match permission env with
  | Throw e => (Throw e, [RequestPermissions])
  | Ok permStatus =>
      if negb (str_eqb permStatus (js "granted")) then
        (Throw (JsError (js "Se necesitan permisos para guardar el video.")),
         [RequestPermissions])
      else
        match transfer w info env with
        | (Throw e, es) => (Throw e, RequestPermissions :: es)
        | (Ok uri, es) =>
            if negb (truthy uri) then
              (Throw (JsError (js "La descarga fallo.")),
               RequestPermissions :: es)
            else
              match saved env with
              | Throw e =>
                  (Throw e, RequestPermissions :: es ++ [SaveToLibrary uri])
              | Ok _ =>
                  (Ok tt,
                   RequestPermissions :: es ++ [SaveToLibrary uri]
                     ++ cleanup uri env)
              end
        end
  end.

(** The screen after [handleDownload] has run on a held ReelInfo. *)
Definition downloaded_world (w : World) (info : ReelInfo) (env : DownloadEnv)
  : World :=
  {| url := url w;
     status := match fst (attempt w info env) with
               | Ok _ => success
               | Throw _ => error
               end;
     reelInfo := reelInfo w;
     errorMessage := match fst (attempt w info env) with
                     | Ok _ => []
                     | Throw e => shown_message e
                     end;
     serverOnline := serverOnline w;
     is403 := is403 w;
     effects := effects w
                  ++ AnimateButton downloadScale :: snd (attempt w info env) |}.

(** The two full sequences of device and network effects of an attempt:
    the direct download, and the proxied one after the direct one failed. *)
Definition direct_sequence (info : ReelInfo) (env : DownloadEnv)
    (uri : jsstring) : list Effect :=
  [RequestPermissions; DownloadFile (video_url info) (fileName info env);
   SaveToLibrary uri; FileExists uri; DeleteFile uri].

Definition proxied_sequence (w : World) (info : ReelInfo) (env : DownloadEnv)
    (name : jsstring) (blob : Blob) (uri : jsstring) : list Effect :=
  [RequestPermissions; DownloadFile (video_url info) (fileName info env);
   Http (proxy_request w); WriteFile name blob;
   SaveToLibrary uri; FileExists uri; DeleteFile uri].

Definition prefix_of {A} (a b : list A) : Prop := exists t, a ++ t = b.

End Flow.

(** ** The home screen as a machine: user actions and their handlers *)

Module Machine.
Import Api Home.

(** The body of an ok reply to /info as the screen holds it.
    [fetchReelInfo] returns whatever [response.json()] gives and the handler
    stores it unchecked; every later test of it is a test of truthiness.
    [Some info] is a body that is a ReelInfo, [None] a falsy body such as
    [null]. *)
Definition Body := option ReelInfo.

(** [handleFetchInfo] over such a reply: [Home.handleFetchInfo] is the case
    of a body that is a ReelInfo. *)
Definition handleFetchInfo (sess : Session.SessionState)
    (outcome : Fetched Body) : M World unit :=
  w <- get ;;
  perform [KeyboardDismiss] ;;
  animateButton searchScale ;;
  let trimmedUrl := trim (url w) in
  if negb (truthy trimmedUrl) then
    setErrorMessage (js "Por favor, ingresa una URL.")
  else if negb (test INSTAGRAM_URL_REGEX trimmedUrl) then
    setErrorMessage (js "URL no valida. Ingresa un enlace de Instagram Reel.")
  else
    setErrorMessage [] ;;
    setReelInfo None ;;
    setIs403 false ;;
    setStatus fetching_info ;;
    try_catch
      (let cookies := Session.cookiesForApi sess in
       info <- call (surplus_argument fetchReelInfo trimmedUrl cookies outcome) ;;
       setReelInfo info ;;
       setStatus preview)
      (fun err =>
         setStatus error ;;
         match err with
         | ApiError st message =>
             setErrorMessage message ;;
             setIs403 (st =? 403)%Z
         | _ =>
             setErrorMessage
               (js "No se pudo conectar al servidor. Verifica tu conexion.")
         end).

Definition handleRetry (sess : Session.SessionState)
    (outcome : Fetched Body) (env : DownloadEnv) : M World unit :=
  w <- get ;;
  match reelInfo w with
  | Some _ => handleDownload sess env
  | None => handleFetchInfo sess outcome
  end.

(** A reply whose body, if it can be read, is a ReelInfo. *)
Definition typed (outcome : Fetched ReelInfo) : Fetched Body :=
  match outcome with
  | Rejected => Rejected
  | Resolved r =>
      Resolved {| Api.status := Api.status r;
                  Api.content_disposition := content_disposition r;
                  Api.error_json := error_json r;
                  Api.payload := option_map Some (payload r) |}
  end.

(** One action on the screen, with what its handler meets in the
    environment. *)
Inductive Event :=
| Mount (outcome : Fetched json)
| Paste (clipboard : Res jsstring)
| Clear
| ChangeText (text : jsstring)
| FetchInfo (sess : Session.SessionState) (outcome : Fetched Body)
| Download (sess : Session.SessionState) (env : DownloadEnv)
| Retry (sess : Session.SessionState) (outcome : Fetched Body)
        (env : DownloadEnv)
| NewDownload.

Definition handler (e : Event) : M World unit :=
  match e with
  | Mount outcome => on_mount outcome
  | Paste clipboard => handlePaste clipboard
  | Clear => handleClear
  | ChangeText text => onChangeText text
  | FetchInfo sess outcome => handleFetchInfo sess outcome
  | Download sess env => handleDownload sess env
  | Retry sess outcome env => handleRetry sess outcome env
  | NewDownload => handleNewDownload
  end.

(** Handlers run one after another, each to its end: while one is pending
    the screen is loading, and its field and buttons are disabled. *)
Definition run (events : list Event) (w : World) : World :=
  fold_left (fun w e => snd (handler e w)) events w.

(** What holds of the screen between two handlers. *)
Definition settled (w : World) : Prop :=
  (status w = idle \/ status w = preview \/ status w = success
   \/ status w = error) /\
  (status w = success -> reelInfo w <> None) /\
  (is403 w = true ->
   reelInfo w = None /\ (status w = idle \/ status w = error)).

(** The screen after a fetch that the input passed and that ended with
    [result]. *)
Definition fetched_world (w : World) (result : Res Body) : World :=
  {| url := url w;
     status := match result with Ok _ => preview | Throw _ => error end;
     reelInfo := match result with Ok body => body | Throw _ => None end;
     errorMessage :=
       match result with
       | Ok _ => []
       | Throw (ApiError _ message) => message
       | Throw _ => js "No se pudo conectar al servidor. Verifica tu conexion."
       end;
     serverOnline := serverOnline w;
     is403 :=
       match result with
       | Throw (ApiError st _) => (st =? 403)%Z
       | _ => false
       end;
     effects :=
       effects w
         ++ [KeyboardDismiss; AnimateButton searchScale;
             Http (Summary.post_request (js "/info") (trim (url w))
                     INFO_TIMEOUT_MS)] |}.

End Machine.

(** ** The session screen with the in-app login *)

(** [s.includes(p)]. *)
Fixpoint includes (s p : jsstring) : bool :=
  startsWith s p
  || match s with
     | [] => false
     | _ :: s' => includes s' p
     end.

Module WebLogin.
Import Session.

Definition INSTAGRAM_LOGIN_URL : jsstring :=
  js "https://www.instagram.com/accounts/login/".
Definition INSTAGRAM_BASE : jsstring := js "https://www.instagram.com".

(** One value of the object [CookieManager.get] resolves with; [None] is a
    property that is absent. *)
Record RawCookie := {
  raw_value : jsstring;
  raw_domain : option jsstring;
  raw_path : option jsstring
}.

(** The native cookie module: what [get] gives for a url, [None] for a
    rejected promise, and whether [clearAll] resolves. *)
Record CookieManager := {
  get_cookies : jsstring -> option (list (jsstring * RawCookie));
  clearAll : bool
}.

(** The screen of the manual import together with the state of the login
    view, the timers set with [setTimeout] and the calls of [clearAll]. *)
Record World := {
  screen : SessionScreen.World;
  showWebView : bool;
  webViewLoading : bool;
  timers : list N;
  clearAll_calls : nat
}.

Definition initial (p : Session.World) : World :=
  {| screen := {| SessionScreen.manualCookies := [];
                  SessionScreen.showManualInput := false;
                  SessionScreen.provider := p;
                  SessionScreen.alerts := [] |};
     showWebView := false;
     webViewLoading := true;
     timers := [];
     clearAll_calls := 0 |}.

Definition in_screen {A} (c : M SessionScreen.World A) : M World A :=
  fun w => match c (screen w) with
           | (r, s) => (r, {| screen := s; showWebView := showWebView w;
                              webViewLoading := webViewLoading w;
                              timers := timers w;
                              clearAll_calls := clearAll_calls w |})
           end.

Definition setShowWebView (v : bool) : M World unit :=
  modify (fun w => {| screen := screen w; showWebView := v;
                      webViewLoading := webViewLoading w;
                      timers := timers w;
                      clearAll_calls := clearAll_calls w |}).
Definition setWebViewLoading (v : bool) : M World unit :=
  modify (fun w => {| screen := screen w; showWebView := showWebView w;
                      webViewLoading := v;
                      timers := timers w;
                      clearAll_calls := clearAll_calls w |}).
Definition setTimeout (ms : N) : M World unit :=
  modify (fun w => {| screen := screen w; showWebView := showWebView w;
                      webViewLoading := webViewLoading w;
                      timers := timers w ++ [ms];
                      clearAll_calls := clearAll_calls w |}).
Definition alert (title message : jsstring) : M World unit :=
  in_screen (SessionScreen.alert title message).

(** [a || b] where [a] is an optional property. *)
Definition prop_or_default (a : option jsstring) (b : jsstring) : jsstring :=
  match a with
  | Some s => or_default s b
  | None => b
  end.

(** The cookie made of one entry of the object. *)
Definition cookie_of (entry : jsstring * RawCookie) : InstagramCookie :=
  {| name := fst entry;
     value := raw_value (snd entry);
     domain := prop_or_default (raw_domain (snd entry)) (js ".instagram.com");
     path := prop_or_default (raw_path (snd entry)) (js "/");
     secure := true;
     httpOnly := str_eqb (fst entry) (js "sessionid");
     expires := None |}.

Definition call_get (m : CookieManager) (url : jsstring)
  : M World (list (jsstring * RawCookie)) :=
  match get_cookies m url with
  | Some raw => ret raw
  | None => throw (JsError (js "CookieManager failed"))
  end.

Definition call_clearAll (m : CookieManager) : M World unit :=
  modify (fun w => {| screen := screen w; showWebView := showWebView w;
                      webViewLoading := webViewLoading w;
                      timers := timers w;
                      clearAll_calls := S (clearAll_calls w) |}) ;;
  if clearAll m then ret tt
  else throw (JsError (js "CookieManager failed")).

Definition extractCookies (manager : option CookieManager)
    (store_resolves : bool) : M World unit :=
  match manager with
  | None => ret tt
  | Some m =>
      try_catch
        (raw <- call_get m INSTAGRAM_BASE ;;
         let cookies := map cookie_of raw in
         let sessionCookie :=
           find (fun c => str_eqb (name c) (js "sessionid")) cookies in
         if negb (match sessionCookie with
                  | Some c => truthy (value c)
                  | None => false
                  end) then
           alert (js "Sesion incompleta")
             (js "No se detectaron cookies de sesion. Asegurate de iniciar sesion completamente y presiona "
                ++ [34%N] ++ js "Listo" ++ [34%N] ++ js ".")
         else
           let dsUser :=
             find (fun c => str_eqb (name c) (js "ds_user_id")) cookies in
           in_screen
             (SessionScreen.in_provider
                (saveCookies cookies
                   (match dsUser with
                    | Some c => Some (value c)
                    | None => None
                    end)
                   store_resolves)) ;;
           setShowWebView false ;;
           alert (js "Listo!") (js "Sesion de Instagram guardada correctamente."))
        (fun _ =>
           alert (js "Error")
             (js "No se pudieron extraer las cookies. Intenta de nuevo."))
  end.

Definition isLoggedInNow (url : jsstring) : bool :=
  str_eqb url (INSTAGRAM_BASE ++ js "/")
  || str_eqb url INSTAGRAM_BASE
  || (startsWith url INSTAGRAM_BASE
      && negb (includes url (js "/accounts/login"))
      && negb (includes url (js "/challenge"))).

Definition handleNavigationChange (url : jsstring) : M World unit :=
  if isLoggedInNow url && negb (includes url (js "/accounts/")) then
    setTimeout 1500
  else ret tt.

(** [try { await CookieManager.clearAll(); } catch { }] behind its guard. *)
Definition clear_jar (manager : option CookieManager) : M World unit :=
  match manager with
  | Some m => try_catch (call_clearAll m) (fun _ => ret tt)
  | None => ret tt
  end.

(** The destructive button of the alert [handleLogout] shows. *)
Definition handleLogout_onPress (manager : option CookieManager)
    (store_resolves : bool) : M World unit :=
  clear_jar manager ;;
  in_screen (SessionScreen.in_provider (clearSession store_resolves)).

Definition handleOpenLogin (manager : option CookieManager) : M World unit :=
  clear_jar manager ;;
  setWebViewLoading true ;;
  setShowWebView true.

(** One action on the screen. *)
Inductive Event :=
| TypeCookies (text : jsstring)
| ManualSave (store_resolves : bool)
| OpenLogin (manager : option CookieManager)
| Navigate (url : jsstring)
| LoadEnd
| Close
| Done (manager : option CookieManager) (store_resolves : bool)
| Logout (manager : option CookieManager) (store_resolves : bool).

Definition handler (e : Event) : M World unit :=
  match e with
  | TypeCookies text => in_screen (SessionScreen.setManualCookies text)
  | ManualSave r => in_screen (SessionScreen.handleManualSave r)
  | OpenLogin m => handleOpenLogin m
  | Navigate url => handleNavigationChange url
  | LoadEnd => setWebViewLoading false
  | Close => setShowWebView false
  | Done m r => extractCookies m r
  | Logout m r => handleLogout_onPress m r
  end.

Definition run (events : list Event) (w : World) : World :=
  fold_left (fun w e => snd (handler e w)) events w.

(** A session that is empty or logged in. *)
Definition usable (s : SessionState) : Prop :=
  cookies s = [] \/ isLoggedIn s = true.

(** A provider that neither holds nor stores a session that is not
    usable. *)
Definition guarded (p : Session.World) : Prop :=
  usable (session p) /\
  forall s, secure_store p = Some (Encoded s) -> usable s.

(** Whether the first cookie named sessionid exists and has a value. *)
Definition session_found (cs : list InstagramCookie) : bool :=
  match find (fun c => str_eqb (name c) (js "sessionid")) cs with
  | Some c => truthy (value c)
  | None => false
  end.

(** The screen with one more alert and nothing else changed. *)
Definition alerted (w : World) (title message : jsstring) : World :=
  {| screen := {| SessionScreen.manualCookies :=
                    SessionScreen.manualCookies (screen w);
                  SessionScreen.showManualInput :=
                    SessionScreen.showManualInput (screen w);
                  SessionScreen.provider := SessionScreen.provider (screen w);
                  SessionScreen.alerts :=
                    SessionScreen.alerts (screen w) ++ [(title, message)] |};
     showWebView := showWebView w;
     webViewLoading := webViewLoading w;
     timers := timers w;
     clearAll_calls := clearAll_calls w |}.

(** The trigger of [handleNavigationChange] without its redundant tests. *)
Definition triggers (url : jsstring) : bool :=
  startsWith url INSTAGRAM_BASE
  && negb (includes url (js "/accounts/"))
  && negb (includes url (js "/challenge")).

End WebLogin.

(** ** The mount effects over a store written by anything

    [Session.Stored] and [History.Stored] describe the items the providers
    write themselves.  The mount effects check nothing of what they read:
    the state they set is whatever [JSON.parse] returns.  Here the item is
    any text and the state any JSON value. *)

(** A stored text, by what the mount effect makes of it. *)
Inductive Item :=
| EmptyText               (* the empty string, which is falsy *)
| Unparsable              (* a text [JSON.parse] refuses *)
| Parsed (v : json).      (* a text [JSON.parse] turns into [v] *)

(** Truthiness of a value: [undefined], [null], [false], zero and the empty
    string are falsy. *)
Definition truthy_value (v : jsvalue) : bool :=
  match v with
  | Undefined => false
  | Value JNull => false
  | Value (JBool b) => b
  | Value (JNum digits) => negb (str_eqb digits (js "0"))
  | Value (JStr s) => truthy s
  | Value (JArr _) => true
  | Value (JObj _) => true
  end.

Module RawSession.

Record World := {
  session : json;
  isLoading : bool;
  secure_store : option Item
}.

Definition initial (store : option Item) : World :=
  {| session := JObj [(js "cookies", JArr []); (js "username", JNull)];
     isLoading := true;
     secure_store := store |}.

Definition setSession (v : json) : M World unit :=
  modify (fun w => {| session := v; isLoading := isLoading w;
                      secure_store := secure_store w |}).

Definition setIsLoading (b : bool) : M World unit :=
  modify (fun w => {| session := session w; isLoading := b;
                      secure_store := secure_store w |}).

Definition getItemAsync (resolves : bool) : M World (option Item) :=
  if resolves then (w <- get ;; ret (secure_store w))
  else throw (JsError (js "SecureStore failed")).

(** The effect run once when the provider mounts. *)
Definition load (resolves : bool) : M World unit :=
  try_catch
    (saved <- getItemAsync resolves ;;
     match saved with
     | Some (Parsed v) => setSession v
     | Some Unparsable => throw (JsError (js "JSON Parse error"))
     | Some EmptyText => ret tt
     | None => ret tt
     end)
    (fun _ => ret tt) ;;
  setIsLoading false.

(** [cookies.some((c) => c.name === "sessionid" && c.value)]: the elements
    are visited in order up to the first one that passes. *)
Fixpoint some_sessionid (items : list json) : Res bool :=
  match items with
  | [] => Ok false
  | c :: rest =>
      match get_prop c (js "name") with
      | Throw e => Throw e
      | Ok n =>
          if strict_eq_string n (js "sessionid") then
            match get_prop c (js "value") with
            | Throw e => Throw e
            | Ok v => if truthy_value v then Ok true else some_sessionid rest
            end
          else some_sessionid rest
      end
  end.

(** What the body of the provider computes at every render; only an array
    has a method [some]. *)
Definition isLoggedIn (session : json) : Res bool :=
  match get_prop session (js "cookies") with
  | Throw e => Throw e
  | Ok (Value (JArr items)) => some_sessionid items
  | Ok _ => Throw (JsError (js "session.cookies.some is not a function"))
  end.

(** What [JSON.parse] gives back for the text [JSON.stringify] makes of a
    cookie and of a session: a property that is [undefined] is left out. *)
Definition cookie_json (c : Session.InstagramCookie) : json :=
  JObj ([(js "name", JStr (Session.name c));
         (js "value", JStr (Session.value c));
         (js "domain", JStr (Session.domain c));
         (js "path", JStr (Session.path c));
         (js "secure", JBool (Session.secure c));
         (js "httpOnly", JBool (Session.httpOnly c))]
          ++ match Session.expires c with
             | Some e => [(js "expires", JStr e)]
             | None => []
             end).

Definition session_json (s : Session.SessionState) : json :=
  JObj [(js "cookies", JArr (map cookie_json (Session.cookies s)));
        (js "username",
         match Session.username s with
         | Some u => JStr u
         | None => JNull
         end)].

(** The provider and its store as [Session.World] describes them. *)
Definition item_of (st : Session.Stored) : Item :=
  match st with
  | Session.Corrupt => Unparsable
  | Session.Encoded s => Parsed (session_json s)
  end.

Definition world_of (w : Session.World) : World :=
  {| session := session_json (Session.session w);
     isLoading := Session.isLoading w;
     secure_store := option_map item_of (Session.secure_store w) |}.

End RawSession.

Module RawHistory.

Record World := {
  history : json;
  isLoading : bool;
  async_storage : option Item
}.

Definition initial (store : option Item) : World :=
  {| history := JArr []; isLoading := true; async_storage := store |}.

Definition setHistory (v : json) : M World unit :=
  modify (fun w => {| history := v; isLoading := isLoading w;
                      async_storage := async_storage w |}).

Definition setIsLoading (b : bool) : M World unit :=
  modify (fun w => {| history := history w; isLoading := b;
                      async_storage := async_storage w |}).

Definition getItem (resolves : bool) : M World (option Item) :=
  if resolves then (w <- get ;; ret (async_storage w))
  else throw (JsError (js "AsyncStorage failed")).

(** The effect run once when the provider mounts. *)
Definition load (resolves : bool) : M World unit :=
  try_catch
    (saved <- getItem resolves ;;
     match saved with
     | Some (Parsed v) => setHistory v
     | Some Unparsable => throw (JsError (js "JSON Parse error"))
     | Some EmptyText => ret tt
     | None => ret tt
     end)
    (fun _ => ret tt) ;;
  setIsLoading false.

(** What [JSON.parse] gives back for the text [persist] writes. *)
Definition record_json (r : History.DownloadRecord) : json :=
  JObj [(js "url", JStr (History.url r));
        (js "title", JStr (History.title r));
        (js "uploader", JStr (History.uploader r));
        (js "thumbnail", JStr (History.thumbnail r));
        (js "duration", JNum (History.duration r));
        (js "id", JStr (History.id r));
        (js "downloadedAt", JNum (decimal (History.downloadedAt r)))].

Definition history_json (records : list History.DownloadRecord) : json :=
  JArr (map record_json records).

(** The provider and its store as [History.World] describes them. *)
Definition item_of (st : History.Stored) : Item :=
  match st with
  | History.Corrupt => Unparsable
  | History.Encoded records => Parsed (history_json records)
  end.

Definition world_of (w : History.World) : World :=
  {| history := history_json (History.history w);
     isLoading := History.isLoading w;
     async_storage := option_map item_of (History.async_storage w) |}.

End RawHistory.

(** ** The history screen *)

Module HistoryScreen.

(** The largest time value a [Date] holds; [new Date(t)] beyond it is an
    invalid date, whose time value is NaN. *)
Definition MAX_TIME : N := 8640000000000000.

Definition time_clip (t : N) : option N :=
  if (t <=? MAX_TIME)%N then Some t else None.

Section FormatDate.

(** [date.toLocaleDateString('es', { day: 'numeric', month: 'short' })] of
    a valid date with a given time value; it depends on the locale data of
    the device. *)
Variable toLocaleDateString : N -> jsstring.

(** [now] is the time value of [new Date()], [timestamp] an integral time
    value.  With an invalid date the difference is NaN, every comparison is
    false, and the text is the one every invalid date has.  The quotients
    are printed only where they are at least 1. *)
Definition formatDate (now timestamp : N) : jsstring :=
  match time_clip timestamp with
  | None => js "Invalid Date"
  | Some t =>
      let diff := (Z.of_N now - Z.of_N t)%Z in
      let mins := (diff / 60000)%Z in
      let hours := (diff / 3600000)%Z in
      let days := (diff / 86400000)%Z in
      if (mins <? 1)%Z then js "Ahora"
      else if (mins <? 60)%Z then
        js "Hace " ++ decimal (Z.to_N mins) ++ js " min"
      else if (hours <? 24)%Z then
        js "Hace " ++ decimal (Z.to_N hours) ++ js "h"
      else if (days <? 7)%Z then
        js "Hace " ++ decimal (Z.to_N days) ++ js "d"
      else toLocaleDateString t
  end.

End FormatDate.

End HistoryScreen.

(** Closes a case of the run of a handler of the home screen: projections
    of the intermediate states are computed and the effects re-bracketed. *)
Ltac close_case :=
  repeat match goal with
         | e : Thrown |- _ => destruct e
         end;
  cbn [Home.url Home.status Home.reelInfo Home.errorMessage Home.serverOnline
       Home.is403 Home.effects fst snd negb Flow.shown_message];
  repeat match goal with
         | H : Home.reelInfo _ = _ |- _ => rewrite H
         end;
  rewrite <- ?app_assoc; cbn [app]; reflexivity.

(** ** Further sample data *)

Module Sample2.

(** The cookie the manual import makes of the pair [n=v]. *)
Definition pair (n v : jsstring) : Session.InstagramCookie :=
  {| Session.name := n; Session.value := v;
     Session.domain := js ".instagram.com"; Session.path := js "/";
     Session.secure := true;
     Session.httpOnly := str_eqb n (js "sessionid");
     Session.expires := None |}.

(** An environment in which the direct download succeeds. *)
Definition direct : Home.DownloadEnv :=
  {| Home.permission := Ok (js "granted"); Home.now := 1700000000000;
     Home.native_download := Ok (js "file:///cache/v.mp4");
     Home.fallback_now := 1700000000001;
     Home.fallback := Api.Rejected;
     Home.buffer := Ok tt;
     Home.cache_uri := fun n => js "file:///cache/" ++ n;
     Home.written := Ok tt; Home.saved := Ok tt;
     Home.temp_exists := Ok true; Home.deleted := Throw NonError |}.

(** A reply to the proxied download that names its attachment. *)
Definition named_download : Api.Response Api.Blob :=
  {| Api.status := 200;
     Api.content_disposition :=
       Some (js "attachment; filename=" ++ [34%N] ++ js "clip 1.mp4" ++ [34%N]);
     Api.error_json := None;
     Api.payload := Some [1; 2; 3]%N |}.



(** What the cookie module gives after a completed login. *)
Definition jar : WebLogin.CookieManager :=
  {| WebLogin.get_cookies := fun _ =>
       Some [(js "sessionid",
              {| WebLogin.raw_value := js "ABC123";
                 WebLogin.raw_domain := Some (js ".instagram.com");
                 WebLogin.raw_path := None |});
             (js "ds_user_id",
              {| WebLogin.raw_value := js "42";
                 WebLogin.raw_domain := None;
                 WebLogin.raw_path := Some [] |})];
     WebLogin.clearAll := false |}.

Definition fresh_screen : WebLogin.World :=
  WebLogin.initial (Session.initial None).

End Sample2.

(** * Properties *)

Unset Implicit Arguments.

(** ** Strings *)

Lemma cu_eqb_eq (a b : cu) : cu_eqb a b = true <-> a = b.
Proof. unfold cu_eqb. apply N.eqb_eq. Qed.

Lemma cu_eqb_refl (a : cu) : cu_eqb a a = true.
Proof. apply cu_eqb_eq. reflexivity. Qed.

Lemma str_eqb_eq (a b : jsstring) : str_eqb a b = true <-> a = b.
Proof.
  revert b. induction a as [|x a IH]; intros [|y b]; simpl; split;
    try congruence; try reflexivity.
  - intros H. apply andb_true_iff in H as [Hx Hr].
    apply cu_eqb_eq in Hx. apply IH in Hr. congruence.
  - intros H. injection H as -> ->. rewrite cu_eqb_refl. simpl.
    apply IH. reflexivity.
Qed.

Lemma truthy_false (s : jsstring) : truthy s = false <-> s = [].
Proof. destruct s; simpl; split; congruence. Qed.

Lemma truthy_true (s : jsstring) : truthy s = true <-> s <> [].
Proof. destruct s; simpl; split; congruence. Qed.

Lemma strip_prefix_app (p s r : jsstring) :
  strip_prefix p s = Some r <-> s = p ++ r.
Proof.
  revert s. induction p as [|a p IH]; intros s; simpl.
  - split; congruence.
  - destruct s as [|b s].
    + split; discriminate.
    + destruct (cu_eqb a b) eqn:E.
      * apply cu_eqb_eq in E. subst b. rewrite IH. split; congruence.
      * split; [discriminate|]. intros H. injection H as -> _.
        rewrite cu_eqb_refl in E. discriminate.
Qed.

(** ** The API client *)

Section ApiFacts.
Import Api Summary.

Lemma ok_range {A} (r : Response A) :
  ok r = true <-> (200 <= status r <= 299)%Z.
Proof. unfold ok. rewrite andb_true_iff, !Z.leb_le. tauto. Qed.

Lemma checkServerHealth_result (outcome : Fetched json) (log : list Request) :
  fst (checkServerHealth outcome log) = Ok (health_verdict outcome).
Proof.
  unfold checkServerHealth, try_catch, bind, fetchWithTimeout, modify.
  destruct outcome as [|r]; simpl; [reflexivity|].
  destruct (ok r); simpl; [|reflexivity].
  destruct (payload r) as [data|]; simpl; [|reflexivity].
  destruct data; reflexivity.
Qed.

Lemma strict_eq_string_true (v : jsvalue) (t : jsstring) :
  strict_eq_string v t = true <-> v = Value (JStr t).
Proof.
  destruct v as [|j]; simpl; [split; discriminate|].
  destruct j; simpl; try (split; discriminate).
  rewrite str_eqb_eq. split; congruence.
Qed.

Lemma health_verdict_true (outcome : Fetched json) :
  health_verdict outcome = true <->
  exists r data,
    outcome = Resolved r /\ (200 <= status r <= 299)%Z /\
    payload r = Some data /\
    get_prop data (js "status") = Ok (Value (JStr (js "ok"))).
Proof.
  destruct outcome as [|r]; unfold health_verdict.
  - split; [discriminate|]. intros (r & d & H & _). discriminate.
  - rewrite andb_true_iff, ok_range. split.
    + intros [Hr H]. destruct (payload r) as [data|] eqn:Hp; [|discriminate].
      exists r, data. repeat split; try tauto.
      destruct (get_prop data (js "status")) as [v|]; [|discriminate].
      apply strict_eq_string_true in H. congruence.
    + intros (r' & data & Hr & Hrange & Hp & Hg). injection Hr as <-.
      split; [exact Hrange|]. rewrite Hp, Hg. apply strict_eq_string_true.
      reflexivity.
Qed.

(** C8. [checkServerHealth] never throws: whatever the network does it
    returns a boolean, and that boolean is [true] exactly when the response
    has a 2xx status and its body is JSON whose [status] property is the
    string ok; a rejected request, a non-2xx status, a body that is not
    JSON and a body without that property all give [false]. *)
Theorem checkServerHealth_total_and_exact (outcome : Fetched json)
    (log : list Request) :
  (exists b, fst (checkServerHealth outcome log) = Ok b) /\
  (fst (checkServerHealth outcome log) = Ok true <->
   exists r data,
     outcome = Resolved r /\ (200 <= status r <= 299)%Z /\
     payload r = Some data /\
     get_prop data (js "status") = Ok (Value (JStr (js "ok")))) /\
  (fst (checkServerHealth outcome log) = Ok false <->
   ~ exists r data,
     outcome = Resolved r /\ (200 <= status r <= 299)%Z /\
     payload r = Some data /\
     get_prop data (js "status") = Ok (Value (JStr (js "ok")))).
Proof.
  rewrite checkServerHealth_result, <- health_verdict_true.
  split; [eauto|]. split.
  - split; congruence.
  - destruct (health_verdict outcome); split; congruence.
Qed.

End ApiFacts.

(** ** The download history *)

Section HistoryFacts.
Import History Summary.

Lemma firstn_app_firstn {A} (n : nat) (a b : list A) :
  firstn n (a ++ firstn n b) = firstn n (a ++ b).
Proof.
  rewrite !firstn_app, firstn_firstn. f_equal. f_equal. lia.
Qed.

Lemma addRecord_history (record : RecordInput) (c : Clock) (w : World) :
  history (snd (addRecord record c w))
  = firstn MAX_HISTORY (new_record record c :: history w).
Proof.
  unfold addRecord, addRecord_of, bind, get, setHistory, persist, setItem, modify, throw.
  cbn [fst snd]. destruct (write_resolves c); reflexivity.
Qed.

Lemma addRecord_storage (record : RecordInput) (c : Clock) (w : World) :
  write_resolves c = true ->
  async_storage (snd (addRecord record c w))
  = Some (Encoded (firstn MAX_HISTORY (new_record record c :: history w))).
Proof.
  intros H.
  unfold addRecord, addRecord_of, bind, get, setHistory, persist, setItem, modify, throw.
  cbn [fst snd]. rewrite H. reflexivity.
Qed.

Lemma add_all_history (x : RecordInput * Clock)
    (rest : list (RecordInput * Clock)) (w : World) :
  history (add_all (x :: rest) w)
  = firstn MAX_HISTORY (rev (records_of (x :: rest)) ++ history w).
Proof.
  revert x w. induction rest as [|y rest IH]; intros [r c] w.
  - cbn [add_all records_of map rev app fst snd]. apply addRecord_history.
  - change (add_all ((r, c) :: y :: rest) w)
      with (add_all (y :: rest) (snd (addRecord r c w))).
    rewrite IH, addRecord_history, firstn_app_firstn.
    change (records_of ((r, c) :: y :: rest))
      with (new_record r c :: records_of (y :: rest)).
    cbn [rev]. rewrite <- app_assoc. reflexivity.
Qed.

Lemma addRecord_of_run (shown : list DownloadRecord) (record : RecordInput)
    (c : Clock) (w : World) :
  addRecord_of shown record c w
  = ((if write_resolves c then Ok tt
      else Throw (JsError (js "AsyncStorage failed"))),
     {| history := firstn MAX_HISTORY (new_record record c :: shown);
        isLoading := isLoading w;
        async_storage :=
          if write_resolves c
          then Some (Encoded (firstn MAX_HISTORY (new_record record c :: shown)))
          else async_storage w |}).
Proof.
  unfold addRecord_of, bind, setHistory, persist, setItem, modify, throw.
  cbn [fst snd]. destruct (write_resolves c); reflexivity.
Qed.

Lemma add_all_through_last (shown : list DownloadRecord)
    (inputs : list (RecordInput * Clock)) (last : RecordInput * Clock)
    (w : World) :
  history (add_all_through shown (inputs ++ [last]) w)
  = firstn MAX_HISTORY (new_record (fst last) (snd last) :: shown).
Proof.
  revert w. induction inputs as [|[r c] inputs IH]; intros w.
  - destruct last as [r c]. cbn [app add_all_through fst snd].
    rewrite addRecord_of_run. reflexivity.
  - cbn [app add_all_through]. apply IH.
Qed.

(** C4, as amended. The function [addRecord] of a render puts the new
    record, which carries the fields of the entry, the id and the time stamp,
    in front of the history that render shows and keeps the first 200
    entries of the result, so the entries it drops are the oldest; what it
    persists is that same list.  A call through the function of the current
    render starts from the current history.  After 201 calls in a row, each
    through the function of the render that shows what the previous call
    left, exactly 200 records are left: those of the last 200 calls, newest
    first, the first one added being the one evicted.  Calls in a row
    through one and the same function all start from the list of its render,
    so what is left is that list with the record of the last call in front,
    cut to 200. *)
Theorem addRecord_prepends_and_caps :
  (forall (shown : list DownloadRecord) (record : RecordInput) (c : Clock)
          (w : World),
     let w' := snd (addRecord_of shown record c w) in
     history w' = firstn 200 (new_record record c :: shown) /\
     List.length (history w') = Nat.min 200 (S (List.length shown)) /\
     hd_error (history w') = Some (new_record record c) /\
     (write_resolves c = true ->
      async_storage w' = Some (Encoded (history w')))) /\
  (forall (record : RecordInput) (c : Clock),
     id (new_record record c)
       = decimal (now_id c) ++ js "_" ++ substring 2 8 (random36 c) /\
     downloadedAt (new_record record c) = now_at c /\
     url (new_record record c) = in_url record /\
     title (new_record record c) = in_title record /\
     uploader (new_record record c) = in_uploader record /\
     thumbnail (new_record record c) = in_thumbnail record /\
     duration (new_record record c) = in_duration record) /\
  (forall (record : RecordInput) (c : Clock) (w : World),
     addRecord record c w = addRecord_of (history w) record c w) /\
  (forall (first : RecordInput * Clock) (rest : list (RecordInput * Clock))
          (w : World),
     List.length rest = 200 ->
     history (add_all (first :: rest) w) = rev (records_of rest) /\
     List.length (history (add_all (first :: rest) w)) = 200) /\
  (forall (shown : list DownloadRecord) (inputs : list (RecordInput * Clock))
          (last : RecordInput * Clock) (w : World),
     history (add_all_through shown (inputs ++ [last]) w)
     = firstn 200 (new_record (fst last) (snd last) :: shown)).
Proof.
  split.
  { intros shown record c w w'. subst w'.
    rewrite addRecord_of_run. cbn [snd history async_storage].
    change MAX_HISTORY with 200.
    split; [reflexivity|]. split; [rewrite length_firstn; reflexivity|].
    split; [reflexivity|]. intros H. rewrite H. reflexivity. }
  split.
  { intros record c. repeat split. }
  split; [reflexivity|].
  split; [|exact add_all_through_last].
  intros first rest w Hlen.
  assert (E : history (add_all (first :: rest) w) = rev (records_of rest)).
  { rewrite add_all_history.
    change (records_of (first :: rest))
      with (new_record (fst first) (snd first) :: records_of rest).
    cbn [rev]. rewrite <- app_assoc, firstn_app.
    assert (L : List.length (rev (records_of rest)) = MAX_HISTORY).
    { rewrite length_rev. unfold records_of. rewrite length_map. exact Hlen. }
    rewrite L, Nat.sub_diag, firstn_O, app_nil_r.
    rewrite <- L. apply firstn_all. }
  split; [exact E|].
  rewrite E, length_rev. unfold records_of. rewrite length_map. exact Hlen.
Qed.

(** C4 at 201 numbered inputs added to an empty history, the provider
    rendered again after each. *)
Lemma addRecord_prepends_and_caps_witness :
  List.length (tl Sample.many_inputs) = 200 /\
  history (add_all Sample.many_inputs (initial None))
    = rev (records_of (tl Sample.many_inputs)) /\
  List.length (history (add_all Sample.many_inputs (initial None))) = 200.
Proof.
  split; [reflexivity|].
  exact (proj1 (proj2 (proj2 (proj2 addRecord_prepends_and_caps)))
           (Sample.history_input 1) (tl Sample.many_inputs) (initial None)
           eq_refl).
Defined.

(** C4, counterexample. The same 201 inputs added in a row through the
    function of the first render, which shows the empty history: every call
    starts from the empty list, and one record is left, not 200. *)
Lemma addRecord_one_function_counterexample :
  List.length Sample.many_inputs = 201 /\
  List.length
    (history (add_all_through (history (initial None)) Sample.many_inputs
                (initial None))) = 1 /\
  List.length
    (history (add_all_through (history (initial None)) Sample.many_inputs
                (initial None))) <> 200.
Proof.
  assert (E : List.length
                (history (add_all_through (history (initial None))
                            Sample.many_inputs (initial None))) = 1).
  { vm_compute. reflexivity. }
  split; [reflexivity|]. split; [exact E|]. rewrite E. discriminate.
Qed.

End HistoryFacts.

(** ** The cookie session *)

Section SessionFacts.
Import Session.

Lemma isLoggedIn_spec (s : SessionState) :
  isLoggedIn s = true <->
  exists c, In c (cookies s) /\ name c = js "sessionid" /\ value c <> [].
Proof.
  unfold isLoggedIn. rewrite existsb_exists. split.
  - intros (c & Hin & H). apply andb_true_iff in H as [Hn Hv].
    exists c. rewrite <- str_eqb_eq, <- truthy_true. auto.
  - intros (c & Hin & Hn & Hv). exists c. split; [exact Hin|].
    apply andb_true_iff. rewrite str_eqb_eq, truthy_true. auto.
Qed.

Lemma saveCookies_session (cs : list InstagramCookie) (u : option jsstring)
    (resolves : bool) (w : World) :
  cookies (session (snd (saveCookies cs u resolves w))) = cs.
Proof.
  unfold saveCookies, bind, setSession, setItemAsync, modify, throw.
  cbn [fst snd]. destruct resolves; reflexivity.
Qed.

Lemma clearSession_session (resolves : bool) (w : World) :
  session (snd (clearSession resolves w))
  = {| cookies := []; username := None |}.
Proof.
  unfold clearSession, bind, setSession, deleteItemAsync, modify, throw.
  cbn [fst snd]. destruct resolves; reflexivity.
Qed.

(** C5. A session is logged in exactly when one of its cookies is named
    sessionid and has a non-empty value.  Saving a cookie set that contains
    such a cookie (for instance sessionid with the value X) makes the session
    logged in; [clearSession] empties the cookie set, removes the persisted
    item, and leaves the session logged out. *)
Theorem isLoggedIn_iff_sessionid_cookie :
  (forall s : SessionState,
     isLoggedIn s = true <->
     exists c, In c (cookies s) /\ name c = js "sessionid" /\ value c <> []) /\
  (forall (cs : list InstagramCookie) (u : option jsstring) (resolves : bool)
          (w : World) (c : InstagramCookie),
     In c cs -> name c = js "sessionid" -> value c <> [] ->
     isLoggedIn (session (snd (saveCookies cs u resolves w))) = true) /\
  (forall (resolves : bool) (w : World),
     let w' := snd (clearSession resolves w) in
     cookies (session w') = [] /\
     isLoggedIn (session w') = false /\
     (resolves = true -> secure_store w' = None)).
Proof.
  split; [exact isLoggedIn_spec|]. split.
  - intros cs u resolves w c Hin Hn Hv. apply isLoggedIn_spec.
    exists c. rewrite saveCookies_session. auto.
  - intros resolves w w'. subst w'. rewrite clearSession_session.
    repeat apply conj; try reflexivity.
    intros ->. reflexivity.
Qed.

(** C5 at the cookie set that holds sessionid with the value X. *)
Lemma isLoggedIn_iff_sessionid_cookie_witness :
  isLoggedIn
    (session (snd (saveCookies [Sample.session_cookie] None true
                     (initial None)))) = true.
Proof.
  apply (proj1 (proj2 isLoggedIn_iff_sessionid_cookie)
           [Sample.session_cookie] None true (initial None)
           Sample.session_cookie).
  - simpl. left. reflexivity.
  - reflexivity.
  - discriminate.
Defined.

End SessionFacts.

(** ** The home screen *)

Section HomeFacts.
Import Api Home.

(** C10. A download asked for while no ReelInfo is held does nothing: the
    handler returns at once, the whole state of the screen (status, error
    message and 403 flag included) is what it was, and no effect is
    produced, so neither the permission prompt nor any request or file
    operation takes place. *)
Theorem handleDownload_without_info_is_noop (sess : Session.SessionState)
    (env : DownloadEnv) (w : World) :
  reelInfo w = None ->
  handleDownload sess env w = (Ok tt, w).
Proof.
  intros H. unfold handleDownload, bind, get. rewrite H. reflexivity.
Qed.

(** C10 at a screen on which a URL has been typed and nothing fetched. *)
Lemma handleDownload_without_info_is_noop_witness :
  handleDownload Sample.logged_in Sample.denied (Sample.typed Sample.reel_url)
  = (Ok tt, Sample.typed Sample.reel_url).
Proof.
  apply handleDownload_without_info_is_noop. reflexivity.
Defined.

End HomeFacts.

(** ** Splitting and joining *)

Lemma split_without (sep : cu) (a : jsstring) :
  ~ In sep a -> split sep a = [a].
Proof.
  induction a as [|c a IH]; intros H; [reflexivity|].
  cbn [split]. destruct (cu_eqb c sep) eqn:E.
  - apply cu_eqb_eq in E. subst c. exfalso. apply H. left. reflexivity.
  - rewrite IH; [reflexivity|]. intros Hin. apply H. right. exact Hin.
Qed.

Lemma split_app (sep : cu) (a b : jsstring) :
  ~ In sep a -> split sep (a ++ sep :: b) = a :: split sep b.
Proof.
  induction a as [|c a IH]; intros H.
  - cbn [app split]. rewrite cu_eqb_refl. reflexivity.
  - cbn [app split]. destruct (cu_eqb c sep) eqn:E.
    + apply cu_eqb_eq in E. subst c. exfalso. apply H. left. reflexivity.
    + rewrite IH; [reflexivity|]. intros Hin. apply H. right. exact Hin.
Qed.

Lemma split_join (sep : cu) (lines : list jsstring) :
  lines <> [] ->
  (forall l, In l lines -> ~ In sep l) ->
  split sep (join [sep] lines) = lines.
Proof.
  induction lines as [|x rest IH]; intros Hne Hall; [congruence|].
  destruct rest as [|y rest].
  - cbn [join]. apply split_without. apply Hall. left. reflexivity.
  - change (join [sep] (x :: y :: rest))
      with (x ++ [sep] ++ join [sep] (y :: rest)).
    cbn [app]. rewrite split_app by (apply Hall; left; reflexivity).
    f_equal. apply IH; [discriminate|].
    intros l Hl. apply Hall. right. exact Hl.
Qed.

Section TransportFacts.
Import Session Summary.

Lemma or_default_match (a b : jsstring) :
  or_default a b = match a with [] => b | _ :: _ => a end.
Proof. destruct a; reflexivity. Qed.

Lemma cookie_line_join (c : InstagramCookie) :
  cookie_line c = join tab (line_fields c).
Proof.
  unfold cookie_line, line_fields, line_domain, line_path, bool_word.
  rewrite !or_default_match. cbn [join]. reflexivity.
Qed.

Lemma in_join (x : cu) (sep : jsstring) (l : list jsstring) :
  In x (join sep l) -> In x sep \/ exists f, In f l /\ In x f.
Proof.
  induction l as [|a rest IH]; [intros []|].
  destruct rest as [|b rest].
  - cbn [join]. intros H. right. exists a. split; [left; reflexivity|exact H].
  - change (join sep (a :: b :: rest)) with (a ++ sep ++ join sep (b :: rest)).
    rewrite !in_app_iff. intros [H|[H|H]].
    + right. exists a. split; [left; reflexivity|exact H].
    + left. exact H.
    + destruct (IH H) as [H'|(f & Hf & Hx)]; [left; exact H'|].
      right. exists f. split; [right; exact Hf|exact Hx].
Qed.

Lemma split_cookie_line (c : InstagramCookie) :
  (forall f, In f (line_fields c) -> ~ In 9%N f) ->
  split 9%N (cookie_line c) = line_fields c.
Proof.
  intros H. rewrite cookie_line_join. apply split_join; [discriminate|exact H].
Qed.

Lemma cookiesForApi_nonempty (s : SessionState) :
  cookies s <> [] ->
  cookiesForApi s = Some (join newline (map cookie_line (cookies s))).
Proof.
  unfold cookiesForApi. destruct (cookies s); [congruence|reflexivity].
Qed.

(** C6, as amended. [cookiesForApi] returns [undefined] when the session has
    no cookie.  Otherwise it returns the lines of the cookies joined by
    newlines, one line per cookie, each line being seven fields joined by
    tabs: the domain (the cookie's, or .instagram.com when the cookie has
    none), TRUE or FALSE as that domain starts with a dot, the path (the
    cookie's, or / when it has none), TRUE or FALSE for secure, 0, the name
    and the value.  For a cookie that has a domain and a path this is the
    line the specification describes. *)
Theorem cookiesForApi_format (s : SessionState) :
  (cookies s = [] -> cookiesForApi s = None) /\
  (cookies s <> [] ->
   cookiesForApi s
   = Some (join newline (map (fun c => join tab (line_fields c)) (cookies s)))) /\
  (cookies s <> [] ->
   (forall c f, In c (cookies s) -> In f (line_fields c) -> ~ In 10%N f) ->
   exists out, cookiesForApi s = Some out /\
               split 10%N out = map cookie_line (cookies s)) /\
  (forall c, (forall f, In f (line_fields c) -> ~ In 9%N f) ->
             split 9%N (cookie_line c) = line_fields c) /\
  (forall c, domain c <> [] -> path c <> [] ->
             cookie_line c = Spec.transport_line c).
Proof.
  repeat apply conj.
  - intros H. unfold cookiesForApi. rewrite H. reflexivity.
  - intros H. rewrite (cookiesForApi_nonempty s H). do 2 f_equal.
    apply map_ext. exact cookie_line_join.
  - intros H Hnl. rewrite (cookiesForApi_nonempty s H).
    eexists. split; [reflexivity|]. apply split_join.
    + destruct (cookies s); [congruence|discriminate].
    + intros l Hl. apply in_map_iff in Hl as (c & <- & Hc).
      rewrite cookie_line_join. intros Hin.
      apply in_join in Hin as [Hin|(f & Hf & Hin)].
      * destruct Hin as [Hin|[]]. discriminate.
      * exact (Hnl c f Hc Hf Hin).
  - exact split_cookie_line.
  - intros c Hd Hp. unfold cookie_line, Spec.transport_line.
    rewrite !or_default_match.
    destruct (domain c); [congruence|]. destruct (path c); [congruence|].
    reflexivity.
Qed.

(** C6 at the empty session and at a session with one cookie. *)
Lemma cookiesForApi_format_witness :
  cookiesForApi Sample.logged_out = None /\
  cookiesForApi Sample.logged_in
  = Some (js ".instagram.com" ++ tab ++ js "TRUE" ++ tab ++ js "/" ++ tab
            ++ js "TRUE" ++ tab ++ js "0" ++ tab ++ js "sessionid" ++ tab
            ++ js "X") /\
  cookie_line Sample.session_cookie
  = Spec.transport_line Sample.session_cookie.
Proof.
  repeat apply conj.
  - apply (proj1 (cookiesForApi_format Sample.logged_out)). reflexivity.
  - apply (proj1 (proj2 (cookiesForApi_format Sample.logged_in))). discriminate.
  - apply (proj2 (proj2 (proj2 (proj2 (cookiesForApi_format Sample.logged_in)))));
      discriminate.
Defined.

(** C6, counterexample. A cookie with no domain and no path, as the manual
    import gives for a line whose first and third fields are empty: its line
    starts with .instagram.com, says TRUE for the sub-domain flag and carries
    the path /, where the specification's line would start with an empty
    field, say FALSE and carry an empty path. *)
Lemma cookiesForApi_defaults_counterexample :
  nth_error (SessionScreen.parse_cookies (trim Sample.bare_text)) 1
  = Some Sample.bare_cookie /\
  cookiesForApi {| cookies := [Sample.bare_cookie]; username := None |}
  <> Some (join newline (map Spec.transport_line [Sample.bare_cookie])) /\
  startsWith (domain Sample.bare_cookie) (js ".") = false /\
  split 9%N (cookie_line Sample.bare_cookie)
  = [js ".instagram.com"; js "TRUE"; js "/"; js "TRUE"; js "0";
     js "sessionid"; js "X"].
Proof.
  repeat apply conj; [reflexivity| |reflexivity|reflexivity].
  vm_compute. discriminate.
Qed.

End TransportFacts.

(** ** Requests and failures of the two POST calls *)

Section PostFacts.
Import Api Summary.

Lemma fetchReelInfo_run {A} (url : jsstring) (outcome : Fetched A)
    (log : list Request) :
  fetchReelInfo url outcome log
  = (match outcome with
     | Rejected => Throw (ApiError 0 unreachable_message)
     | Resolved r =>
         if ok r then
           match payload r with
           | Some info => Ok info
           | None => Throw (JsError (js "body could not be read"))
           end
         else Throw (http_error r)
     end,
     log ++ [post_request (js "/info") url INFO_TIMEOUT_MS]).
Proof.
  unfold http_error, server_detail, post_request.
  destruct outcome as [|r];
    cbv beta iota zeta delta [fetchReelInfo bind try_catch fetchWithTimeout
                                modify throw ret read_body of_res
                                new_ApiError];
    [reflexivity|].
  destruct (ok r); cbv beta iota delta [negb].
  - destruct (payload r); reflexivity.
  - destruct (error_json r) as [[]|]; reflexivity.
Qed.

Lemma downloadReelBinary_run (url : jsstring) (now : N)
    (outcome : Fetched Blob) (log : list Request) :
  exists name : Response Blob -> jsstring,
  downloadReelBinary url now outcome log
  = (match outcome with
     | Rejected => Throw (ApiError 0 unreachable_message)
     | Resolved r =>
         if ok r then
           match payload r with
           | Some blob => Ok (blob, name r)
           | None => Throw (JsError (js "body could not be read"))
           end
         else Throw (http_error r)
     end,
     log ++ [post_request (js "/download") url DOWNLOAD_TIMEOUT_MS]).
Proof.
  eexists (fun r => _).
  unfold http_error, server_detail, post_request.
  destruct outcome as [|r];
    cbv beta iota zeta delta [downloadReelBinary bind try_catch
                                fetchWithTimeout modify throw ret read_body
                                of_res new_ApiError];
    [reflexivity|].
  destruct (ok r); cbv beta iota delta [negb].
  - destruct (payload r); reflexivity.
  - destruct (error_json r) as [[]|]; reflexivity.
Qed.

End PostFacts.

(** ** The matcher on the URL pattern *)

Section RegexFacts.

Lemma or_else_some {A} (a b : option A) :
  or_else a b <> None <-> a <> None \/ b <> None.
Proof.
  destruct a; simpl; split.
  - intros _. left. discriminate.
  - intros _. discriminate.
  - intros H. right. exact H.
  - intros [H|H]; [congruence|exact H].
Qed.

Lemma rmatch_lit (l : jsstring) (r : regex) pos s caps k :
  rmatch (Seq (Lit l) r) pos s caps k <> None <->
  exists s', s = l ++ s' /\ rmatch r (pos + List.length l) s' caps k <> None.
Proof.
  cbn [rmatch]. destruct (strip_prefix l s) as [s'|] eqn:E.
  - apply strip_prefix_app in E. subst s. split.
    + intros H. exists s'. auto.
    + intros (s2 & Heq & H). apply app_inv_head in Heq. subst s2. exact H.
  - split; [congruence|]. intros (s' & Heq & _).
    apply strip_prefix_app in Heq. congruence.
Qed.

Lemma plus_greedy_accept (p : cu -> bool) pos s caps :
  plus_greedy p pos s caps accept <> None <->
  exists c rest, s = c :: rest /\ p c = true.
Proof.
  destruct s as [|c rest]; cbn [plus_greedy].
  - split; [congruence|]. intros (c & rest & H & _). discriminate.
  - destruct (p c) eqn:E.
    + split; [intros _; eauto|]. intros _. apply or_else_some. right.
      discriminate.
    + split; [congruence|]. intros (c' & rest' & H & Hp).
      injection H as <- <-. congruence.
Qed.

Lemma exec_from_anchored (r : regex) (pos : nat) (s : jsstring) :
  pos <> 0 -> exec_from (Seq Bol r) pos s = None.
Proof.
  revert pos. induction s as [|c s IH]; intros pos Hpos;
    cbn [exec_from rmatch]; destruct (Nat.eqb_spec pos 0); try congruence;
    cbn [or_else]; [reflexivity|]. apply IH. discriminate.
Qed.

Lemma test_anchored (r : regex) (s : jsstring) :
  test (Seq Bol r) s = true <-> rmatch r 0 s [] accept <> None.
Proof.
  unfold test, exec.
  assert (E : exec_from (Seq Bol r) 0 s = rmatch r 0 s [] accept).
  { destruct s as [|c s]; cbn [exec_from rmatch Nat.eqb].
    - destruct (rmatch r 0 [] [] accept); reflexivity.
    - rewrite exec_from_anchored by discriminate.
      destruct (rmatch r 0 (c :: s) [] accept); reflexivity. }
  rewrite E. destruct (rmatch r 0 s [] accept); split; congruence.
Qed.

Lemma accepts_plus (p : cu -> bool) :
  accepts (Plus p) accept (fun s => exists c rest, s = c :: rest /\ p c = true).
Proof. intros pos s caps. apply plus_greedy_accept. Qed.

Lemma accepts_lit (l : jsstring) (r : regex) (k : kont) P :
  accepts r k P ->
  accepts (Seq (Lit l) r) k (fun s => exists s', s = l ++ s' /\ P s').
Proof.
  intros Hr pos s caps. rewrite rmatch_lit. split.
  - intros (s' & E & H). exists s'. split; [exact E|].
    exact (proj1 (Hr _ _ _) H).
  - intros (s' & E & H). exists s'. split; [exact E|].
    exact (proj2 (Hr _ _ _) H).
Qed.

Lemma accepts_opt (r1 r : regex) (k : kont) P1 P :
  accepts (Seq r1 r) k P1 -> accepts r k P ->
  accepts (Seq (Opt r1) r) k (fun s => P1 s \/ P s).
Proof.
  intros H1 H pos s caps. cbn [rmatch]. rewrite or_else_some.
  rewrite <- (H1 pos s caps), <- (H pos s caps). reflexivity.
Qed.

Lemma accepts_group_lit (i : nat) (l : jsstring) (r : regex) (k : kont) P :
  accepts r k P ->
  accepts (Seq (Group i (Lit l)) r) k
    (fun s => exists s', s = l ++ s' /\ P s').
Proof.
  intros Hr pos s caps. cbn [rmatch].
  destruct (strip_prefix l s) as [s'|] eqn:E.
  - apply strip_prefix_app in E. subst s. rewrite (Hr _ _ _). split.
    + intros H. eauto.
    + intros (s2 & Heq & H). apply app_inv_head in Heq. subst s2. exact H.
  - split; [congruence|]. intros (s' & Heq & _).
    apply strip_prefix_app in Heq. congruence.
Qed.

Lemma accepts_group_alt (i : nat) (r1 r2 r : regex) (k : kont) P1 P2 :
  accepts (Seq (Group i r1) r) k P1 ->
  accepts (Seq (Group i r2) r) k P2 ->
  accepts (Seq (Group i (Alt r1 r2)) r) k (fun s => P1 s \/ P2 s).
Proof.
  intros H1 H2 pos s caps. cbn [rmatch]. rewrite or_else_some.
  rewrite <- (H1 pos s caps), <- (H2 pos s caps). reflexivity.
Qed.

Lemma instagram_url_regex_spec (s : jsstring) :
  test Home.INSTAGRAM_URL_REGEX s = true <-> Spec.reel_shaped s.
Proof.
  unfold Home.INSTAGRAM_URL_REGEX. rewrite test_anchored.
  pose proof (accepts_lit (js "/") _ _ _ (accepts_plus is_word_or_dash)) as T4.
  pose proof (accepts_group_alt 2 _ _ _ _ _ _
                (accepts_group_lit 2 (js "reel") _ _ _ T4)
                (accepts_group_alt 2 _ _ _ _ _ _
                   (accepts_group_lit 2 (js "reels") _ _ _ T4)
                   (accepts_group_lit 2 (js "p") _ _ _ T4))) as T3.
  pose proof (accepts_lit (js "instagram.com/") _ _ _ T3) as T2.
  pose proof (accepts_opt _ _ _ _ _
                (accepts_group_lit 1 (js "www.") _ _ _ T2) T2) as T1.
  pose proof (accepts_lit (js "://") _ _ _ T1) as T0.
  pose proof (accepts_lit (js "http") _ _ _
                (accepts_opt _ _ _ _ _
                   (accepts_lit (js "s") _ _ _ T0) T0)) as T.
  rewrite (T 0 s []). clear. unfold Spec.reel_shaped. split.
  - intros H.
    repeat match type of H with
           | exists _, _ => destruct H as [? H]
           | _ /\ _ => let E := fresh "E" in destruct H as [E H]
           | _ \/ _ => destruct H as [H|H]
           end; subst; shape_found.
  - intros (scheme & www & segment & c & rest & Hs & Hw & Hg & Hc & ->).
    cbn [In] in Hs, Hw, Hg.
    repeat match goal with
           | H : _ \/ _ |- _ => destruct H as [H|H]
           | H : False |- _ => destruct H
           end; subst; cbn [js app]; walk_shape.
Qed.

End RegexFacts.

(** ** The fetch of the home screen *)

Section FetchFacts.
Import Api Home Summary.

Lemma handleFetchInfo_refused (sess : Session.SessionState)
    (outcome : Fetched ReelInfo) (w : World) :
  truthy (trim (url w)) = false \/
  test INSTAGRAM_URL_REGEX (trim (url w)) = false ->
  handleFetchInfo sess outcome w = (Ok tt, refused_world w).
Proof.
  intros H. unfold refused_world.
  cbv beta iota zeta delta [handleFetchInfo bind get perform animateButton
                              modify setErrorMessage].
  cbn [url status reelInfo errorMessage serverOnline is403 effects].
  rewrite <- app_assoc. cbn [app].
  destruct (truthy (trim (url w))) eqn:Ht; cbn [negb]; [|reflexivity].
  destruct H as [H|H]; [discriminate|]. rewrite H. reflexivity.
Qed.

Lemma handleFetchInfo_accepted (sess : Session.SessionState)
    (outcome : Fetched ReelInfo) (w : World) :
  truthy (trim (url w)) = true ->
  test INSTAGRAM_URL_REGEX (trim (url w)) = true ->
  handleFetchInfo sess outcome w
  = (Ok tt, fetched_world w (fst (fetchReelInfo (trim (url w)) outcome []))).
Proof.
  intros Ht Hr. unfold fetched_world.
  cbv beta iota zeta delta [handleFetchInfo bind get perform animateButton
                              modify setErrorMessage setReelInfo setIs403
                              setStatus try_catch call surplus_argument].
  cbn [url status reelInfo errorMessage serverOnline is403 effects].
  rewrite Ht, Hr. cbn [negb].
  rewrite fetchReelInfo_run.
  assert (E : forall l : list Effect,
             ((l ++ [KeyboardDismiss]) ++ [AnimateButton searchScale])
               ++ map Http ([] ++ [post_request (js "/info") (trim (url w))
                                     INFO_TIMEOUT_MS])
             = l ++ [KeyboardDismiss; AnimateButton searchScale;
                     Http (post_request (js "/info") (trim (url w))
                             INFO_TIMEOUT_MS)]).
  { intros l. rewrite <- !app_assoc. reflexivity. }
  destruct outcome as [|r]; [|destruct (ok r); [destruct (payload r)|]];
    cbn [url status reelInfo errorMessage serverOnline is403 effects fst snd
         http_error];
    rewrite E; reflexivity.
Qed.

End FetchFacts.

(** ** Claims about the fetch *)

Section FetchClaims.
Import Api Home Summary.

Lemma reel_shaped_truthy (s : jsstring) : Spec.reel_shaped s -> truthy s = true.
Proof.
  intros (scheme & www & segment & c & rest & Hs & _ & _ & _ & ->).
  cbn [In] in Hs. destruct Hs as [<-|[<-|[]]]; reflexivity.
Qed.

(** C3. When the trimmed input is empty, or is not an Instagram Reel or post
    URL, asking for the fetch makes no request: the only effects are the
    dismissal of the keyboard and the animation of the button; the status is
    left as it was (so an idle screen stays idle), the held ReelInfo and the
    403 flag are untouched, and the error message becomes one of the two
    validation messages. *)
Theorem invalid_input_never_fetches (sess : Session.SessionState)
    (outcome : Fetched ReelInfo) (w : World) :
  trim (url w) = [] \/ ~ Spec.reel_shaped (trim (url w)) ->
  let w' := snd (handleFetchInfo sess outcome w) in
  fst (handleFetchInfo sess outcome w) = Ok tt /\
  status w' = status w /\
  (status w = idle -> status w' = idle) /\
  reelInfo w' = reelInfo w /\
  is403 w' = is403 w /\
  effects w' = effects w ++ [KeyboardDismiss; AnimateButton searchScale] /\
  (forall r, In (Http r) (effects w') -> In (Http r) (effects w)) /\
  (errorMessage w' = js "Por favor, ingresa una URL." \/
   errorMessage w' = js "URL no valida. Ingresa un enlace de Instagram Reel.") /\
  errorMessage w' <> [].
Proof.
  intros H w'. subst w'.
  rewrite handleFetchInfo_refused.
  - cbn [fst snd refused_world url status reelInfo errorMessage serverOnline
         is403 effects].
    repeat apply conj; try reflexivity.
    + auto.
    + intros r Hin. apply in_app_iff in Hin as [Hin|Hin]; [exact Hin|].
      cbn [In] in Hin. destruct Hin as [Hin|[Hin|[]]]; discriminate.
    + destruct (truthy (trim (url w))); auto.
    + destruct (truthy (trim (url w))); discriminate.
  - destruct H as [H|H].
    + left. apply truthy_false. exact H.
    + right. destruct (test INSTAGRAM_URL_REGEX (trim (url w))) eqn:E;
        [|reflexivity].
      exfalso. apply H. apply instagram_url_regex_spec. exact E.
Qed.

(** C3 at a blank input and at a URL of another host. *)
Lemma invalid_input_never_fetches_witness :
  effects (snd (handleFetchInfo Sample.logged_in Rejected
                  (Sample.typed (js "  "))))
  = [KeyboardDismiss; AnimateButton searchScale] /\
  status (snd (handleFetchInfo Sample.logged_in Rejected
                 (Sample.typed (js "https://example.com/reel/ABC123"))))
  = idle.
Proof.
  split.
  - apply (invalid_input_never_fetches Sample.logged_in Rejected
             (Sample.typed (js "  "))).
    left. reflexivity.
  - apply (invalid_input_never_fetches Sample.logged_in Rejected
             (Sample.typed (js "https://example.com/reel/ABC123"))).
    + right. intros H. apply instagram_url_regex_spec in H.
      vm_compute in H. discriminate.
    + reflexivity.
Defined.

End FetchClaims.

(** ** The requests of the client *)

Section RequestClaims.
Import Api Home Summary.

(** C1, as the code stands. The two POST calls send the JSON body
    [{"url": ...}] with no header but Content-Type: the client's functions
    declare the URL as their only parameter, so the cookie text the screen
    passes as a second argument never reaches the request, whatever the
    session holds.  With a session that exports a cookie line, the request
    of the fetch and the request of the proxied download carry no header
    with that text. *)
Theorem post_requests_carry_no_cookie :
  (forall u (outcome : Fetched ReelInfo) log,
     snd (fetchReelInfo u outcome log)
     = log ++ [post_request (js "/info") u INFO_TIMEOUT_MS]) /\
  (forall u now outcome log,
     snd (downloadReelBinary u now outcome log)
     = log ++ [post_request (js "/download") u DOWNLOAD_TIMEOUT_MS]) /\
  (forall endpoint u t,
     req_method (post_request endpoint u t) = POST /\
     req_body (post_request endpoint u t) = Some (JSON_stringify_url u) /\
     req_headers (post_request endpoint u t)
     = [(js "Content-Type", js "application/json")]) /\
  (forall sess sess' outcome,
     handleFetchInfo sess outcome = handleFetchInfo sess' outcome) /\
  (forall sess sess' env,
     handleDownload sess env = handleDownload sess' env) /\
  Session.cookiesForApi Sample.logged_in
  = Some (js ".instagram.com" ++ [9%N] ++ js "TRUE" ++ [9%N] ++ js "/"
            ++ [9%N] ++ js "TRUE" ++ [9%N] ++ js "0" ++ [9%N]
            ++ js "sessionid" ++ [9%N] ++ js "X") /\
  requests_of
    (effects (snd (handleDownload Sample.logged_in Sample.proxied
                     (snd (handleFetchInfo Sample.logged_in
                             (Resolved (Sample.response 200 None
                                          (Some Sample.info)))
                             (Sample.typed Sample.reel_url))))))
  = [ {| req_method := POST;
         req_url := js "http://192.168.1.10:8000/info";
         req_headers := [(js "Content-Type", js "application/json")];
         req_body := Some (JSON_stringify_url Sample.reel_url);
         req_timeout := 15000 |};
      {| req_method := POST;
         req_url := js "http://192.168.1.10:8000/download";
         req_headers := [(js "Content-Type", js "application/json")];
         req_body := Some (JSON_stringify_url Sample.reel_url);
         req_timeout := 120000 |} ].
Proof.
  split; [intros; rewrite fetchReelInfo_run; reflexivity|].
  split.
  { intros u now outcome log.
    destruct (downloadReelBinary_run u now outcome log) as [name E].
    rewrite E. reflexivity. }
  split; [intros; repeat apply conj; reflexivity|].
  split; [reflexivity|]. split; [reflexivity|].
  split; vm_compute; reflexivity.
Qed.

End RequestClaims.

(** ** Editing the input *)

Section EditClaims.
Import Api Home Summary.

Lemma onChangeText_run (text : jsstring) (w : World) :
  onChangeText text w
  = (Ok tt,
     {| url := text;
        status := match status w with
                  | error | preview | success => idle
                  | st => st
                  end;
        reelInfo := match status w with
                    | preview | success => None
                    | _ => reelInfo w
                    end;
        errorMessage := [];
        serverOnline := serverOnline w;
        is403 := is403 w;
        effects := effects w |}).
Proof.
  cbv beta iota zeta delta [onChangeText bind get modify setUrl
                              setErrorMessage setStatus setReelInfo ret].
  destruct (status w); reflexivity.
Qed.

(** C2, as amended. Editing the input in [preview], [success] or [error]
    stores the new text, clears the error message and puts the screen back
    in [idle], where no preview is shown.  In [preview] and [success] the
    held ReelInfo is discarded at once; in [error] it is left in place until
    the next fetch, which discards it before it makes its request.  So after
    a fetch, an edit and a second fetch, a preview is shown only when the
    second fetch succeeded, and it holds the ReelInfo of that second fetch. *)
Theorem edit_resets_to_idle (text : jsstring) (w : World) :
  status w = preview \/ status w = success \/ status w = error ->
  let w' := snd (onChangeText text w) in
  url w' = text /\
  errorMessage w' = [] /\
  status w' = idle /\
  showPreview w' = false /\
  (status w = preview \/ status w = success -> reelInfo w' = None) /\
  (status w = error -> reelInfo w' = reelInfo w) /\
  (forall sess outcome,
     let w'' := snd (handleFetchInfo sess outcome w') in
     (Spec.reel_shaped (trim text) ->
      reelInfo w''
      = match fst (fetchReelInfo (trim text) outcome []) with
        | Ok info => Some info
        | Throw _ => None
        end) /\
     (showPreview w'' = true ->
      exists info,
        fst (fetchReelInfo (trim text) outcome []) = Ok info /\
        reelInfo w'' = Some info /\ status w'' = preview)).
Proof.
  intros Hst w'. subst w'. rewrite onChangeText_run. cbn [snd].
  set (w' := {| url := text; status := _ |}).
  assert (Hidle : status w' = idle).
  { subst w'. cbn [status]. destruct Hst as [->|[->| ->]]; reflexivity. }
  split; [|split; [|split; [|split; [|split; [|split]]]]].
  - reflexivity.
  - reflexivity.
  - exact Hidle.
  - unfold showPreview. rewrite Hidle. destruct (reelInfo w'); reflexivity.
  - subst w'. cbn [reelInfo]. intros [->| ->]; reflexivity.
  - subst w'. cbn [reelInfo]. intros ->. reflexivity.
  - intros sess outcome. split.
    + intros Hshape.
      rewrite handleFetchInfo_accepted;
        [|apply reel_shaped_truthy; exact Hshape
         |apply instagram_url_regex_spec; exact Hshape].
      cbn [snd fetched_world reelInfo]. reflexivity.
    + destruct (truthy (trim (url w'))) eqn:Ht;
        [destruct (test INSTAGRAM_URL_REGEX (trim (url w'))) eqn:Hr|].
      * rewrite (handleFetchInfo_accepted sess outcome w' Ht Hr).
        cbn [snd]. unfold showPreview, fetched_world.
        cbn [reelInfo status url]. 
        change (url w') with text.
        destruct (fst (fetchReelInfo (trim text) outcome [])) as [info|e].
        -- intros _. exists info. auto.
        -- discriminate.
      * rewrite (handleFetchInfo_refused sess outcome w' (or_intror Hr)).
        cbn [snd]. unfold showPreview, refused_world. cbn [reelInfo status].
        rewrite Hidle. destruct (reelInfo w'); discriminate.
      * rewrite (handleFetchInfo_refused sess outcome w' (or_introl Ht)).
        cbn [snd]. unfold showPreview, refused_world. cbn [reelInfo status].
        rewrite Hidle. destruct (reelInfo w'); discriminate.
Qed.

(** C2 at an edit made after a failed download, followed by a fetch. *)
Lemma edit_resets_to_idle_witness :
  status (snd (onChangeText Sample.reel_url Sample.after_failed_download))
  = idle /\
  reelInfo
    (snd (handleFetchInfo Sample.logged_out
            (Resolved (Sample.response 200 None (Some Sample.other_info)))
            (snd (onChangeText Sample.reel_url Sample.after_failed_download))))
  = Some Sample.other_info.
Proof.
  pose proof (edit_resets_to_idle Sample.reel_url Sample.after_failed_download
                (or_intror (or_intror eq_refl))) as H.
  split.
  - apply H.
  - apply (proj1 (proj2 (proj2 (proj2 (proj2 (proj2 (proj2 H)))))
                   Sample.logged_out
                   (Resolved (Sample.response 200 None
                                (Some Sample.other_info))))).
    apply instagram_url_regex_spec. reflexivity.
Defined.

(** C2, counterexample. After a fetch that succeeded and a download that
    was refused the permission the screen is in [error] and still holds the
    fetched ReelInfo; editing the input then gives [idle] with that ReelInfo
    still held. *)
Lemma edit_in_error_keeps_info_counterexample :
  status Sample.after_failed_download = error /\
  reelInfo Sample.after_failed_download = Some Sample.info /\
  status (snd (onChangeText (js "x") Sample.after_failed_download)) = idle /\
  reelInfo (snd (onChangeText (js "x") Sample.after_failed_download))
  = Some Sample.info.
Proof. repeat apply conj; vm_compute; reflexivity. Qed.

End EditClaims.

(** ** Manual cookie import *)

Section ImportClaims.
Import Session SessionScreen Summary.





Lemma handleManualSave_rejects (resolves : bool) (w : World) :
  hasSession (parse_cookies (trim (manualCookies w))) = false ->
  provider (snd (handleManualSave resolves w)) = provider w /\
  exists message,
    alerts (snd (handleManualSave resolves w))
    = alerts w ++ [(js "Error", message)].
Proof.
  intros H.
  cbv beta iota zeta delta [handleManualSave bind get try_catch alert modify].
  destruct (truthy (trim (manualCookies w))); cbn [negb].
  - fold (hasSession (parse_cookies (trim (manualCookies w)))). rewrite H.
    destruct (Nat.eqb (List.length (parse_cookies (trim (manualCookies w)))) 0);
      cbn [negb snd provider alerts]; eauto.
  - cbn [snd provider alerts]. eauto.
Qed.

Lemma hasSession_nonempty (text : jsstring) :
  hasSession (parse_cookies text) = true ->
  truthy text = true /\
  Nat.eqb (List.length (parse_cookies text)) 0 = false.
Proof.
  intros H. split.
  - destruct text; [vm_compute in H; discriminate|reflexivity].
  - destruct (parse_cookies text); [discriminate|reflexivity].
Qed.




End ImportClaims.

(** * Further properties of the stores *)

Section HistoryStore.
Import History HistoryOps.

Lemma removeRecord_history (rid : jsstring) (resolves : bool) (w : World) :
  history (snd (removeRecord rid resolves w))
  = filter (fun r => negb (str_eqb (id r) rid)) (history w).
Proof.
  unfold removeRecord, bind, get, setHistory, persist, setItem, modify, throw.
  cbn [fst snd]. destruct resolves; reflexivity.
Qed.

Lemma clearHistory_history (resolves : bool) (w : World) :
  history (snd (clearHistory resolves w)) = [].
Proof.
  unfold clearHistory, bind, setHistory, removeItem, modify, throw.
  cbn [fst snd]. destruct resolves; reflexivity.
Qed.

Lemma filter_all {A} (p : A -> bool) (l : list A) :
  (forall x, In x l -> p x = true) -> filter p l = l.
Proof.
  induction l as [|x l IH]; intros H; [reflexivity|].
  cbn [filter]. rewrite (H x (or_introl eq_refl)). f_equal.
  apply IH. intros y Hy. apply H. right. exact Hy.
Qed.

(** [removeRecord] drops exactly the records that carry the given id and
    keeps the others in their order; when no record carries the id the
    history is what it was, and no error is raised as long as the storage
    write resolves.  The list it persists is the list it shows. *)
Theorem removeRecord_removes_exactly (rid : jsstring) (w : World) :
  let w' := snd (removeRecord rid true w) in
  fst (removeRecord rid true w) = Ok tt /\
  history w' = filter (fun r => negb (str_eqb (id r) rid)) (history w) /\
  (forall r, In r (history w') <-> In r (history w) /\ id r <> rid) /\
  List.length (history w') <= List.length (history w) /\
  ((forall r, In r (history w) -> id r <> rid) -> history w' = history w) /\
  async_storage w' = Some (Encoded (history w')).
Proof.
  intros w'. subst w'. rewrite removeRecord_history.
  split; [reflexivity|]. split; [reflexivity|]. split.
  { intros r. rewrite filter_In, negb_true_iff.
    split; intros [Hin H]; (split; [exact Hin|]).
    - intros E. apply str_eqb_eq in E. congruence.
    - destruct (str_eqb (id r) rid) eqn:E; [|reflexivity].
      apply str_eqb_eq in E. contradiction. }
  split; [apply filter_length_le|]. split; [|reflexivity].
  intros H. apply filter_all. intros r Hr. apply negb_true_iff.
  destruct (str_eqb (id r) rid) eqn:E; [|reflexivity].
  apply str_eqb_eq in E. exfalso. exact (H r Hr E).
Qed.

(** [removeRecord] at an id no record of the sample history carries. *)
Lemma removeRecord_removes_exactly_witness :
  history (snd (removeRecord (js "absent") true
                  (add_all Sample.many_inputs (initial None))))
  = history (add_all Sample.many_inputs (initial None)).
Proof.
  apply (proj1 (proj2 (proj2 (proj2 (proj2
           (removeRecord_removes_exactly (js "absent")
              (add_all Sample.many_inputs (initial None)))))))).
  intros r Hr E.
  assert (F : forallb (fun r => negb (str_eqb (id r) (js "absent")))
                (history (add_all Sample.many_inputs (initial None))) = true)
    by (vm_compute; reflexivity).
  rewrite forallb_forall in F. specialize (F r Hr).
  rewrite E in F. vm_compute in F. discriminate.
Defined.

Lemma perform_history_length (op : Op) (w : World) :
  List.length (history w) <= MAX_HISTORY ->
  List.length (history (snd (perform op w))) <= MAX_HISTORY.
Proof.
  intros H. destruct op as [record c|rid b|b]; cbn [perform].
  - rewrite addRecord_history, length_firstn. apply Nat.le_min_l.
  - rewrite removeRecord_history.
    eapply Nat.le_trans; [apply filter_length_le|exact H].
  - rewrite clearHistory_history. apply Nat.le_0_l.
Qed.

(** The cap is an invariant of the store: a history of at most 200 records
    stays within 200 records under any sequence of additions, removals and
    clears, whether or not the storage calls resolve. *)
Theorem history_never_exceeds_cap (ops : list Op) (w : World) :
  List.length (history w) <= 200 ->
  List.length (history (run ops w)) <= 200.
Proof.
  revert w. induction ops as [|op ops IH]; intros w H; [exact H|].
  cbn [run fold_left]. apply IH. apply (perform_history_length op w H).
Qed.

(** The cap after the 201 sample additions followed by a removal and a
    further addition. *)
Lemma history_never_exceeds_cap_witness :
  List.length
    (history (run (map (fun rc => Add (fst rc) (snd rc)) Sample.many_inputs
                     ++ [Remove (js "absent") true;
                         Add (fst (Sample.history_input 7))
                             (snd (Sample.history_input 7))])
                (initial None))) <= 200.
Proof.
  apply history_never_exceeds_cap. cbn [initial history List.length]. lia.
Defined.




(** When the storage call rejects, the operation throws after it has already
    changed the history in memory, and the store keeps what it held: the
    change is lost at the next restart, which shows the stored history
    again. *)
Theorem history_write_failure_is_not_durable (op : Op) (w : World) :
  resolves op = false ->
  (exists e, fst (perform op w) = Throw e) /\
  async_storage (snd (perform op w)) = async_storage w /\
  history (snd (perform op w))
  = match op with
    | Add record c => firstn 200 (new_record record c :: history w)
    | Remove rid _ => filter (fun r => negb (str_eqb (id r) rid)) (history w)
    | Clear _ => []
    end /\
  Restart.history (snd (perform op w)) = Restart.history w.
Proof.
  destruct op as [record c|rid b|b]; cbn [resolves perform]; intros H.
  - unfold Restart.history, addRecord, addRecord_of, bind, get, setHistory, persist,
      setItem, modify, throw. cbn [fst snd]. rewrite H.
    cbn [fst snd history async_storage]. eauto.
  - subst b. unfold Restart.history. cbn. eauto.
  - subst b. unfold Restart.history. cbn. eauto.
Qed.

(** A clear whose storage call rejects, on the stored sample history. *)
Lemma history_write_failure_is_not_durable_witness :
  history (snd (clearHistory false
                  (add_all [Sample.history_input 1] (initial None)))) = [] /\
  history (Restart.history
             (snd (clearHistory false
                     (add_all [Sample.history_input 1] (initial None)))))
  = history (add_all [Sample.history_input 1] (initial None)).
Proof.
  pose proof (history_write_failure_is_not_durable (Clear false)
                (add_all [Sample.history_input 1] (initial None)) eq_refl)
    as (_ & _ & Hm & Hr).
  split; [exact Hm|].
  cbn [perform] in Hr. rewrite Hr. reflexivity.
Defined.

End HistoryStore.

Section SessionStore.
Import Session.

Lemma load_cases (resolves : bool) (w : World) :
  load resolves w
  = (Ok tt,
     {| session := match resolves, secure_store w with
                   | true, Some (Encoded s) => s
                   | _, _ => session w
                   end;
        isLoading := false;
        secure_store := secure_store w |}).
Proof.
  destruct resolves;
    cbv beta iota zeta delta [load bind try_catch getItemAsync setSession
                                setIsLoading modify get ret throw];
    [|reflexivity].
  destruct w as [s0 l0 st]. cbn [session isLoading secure_store].
  destruct st as [[|s]|]; reflexivity.
Qed.

Lemma raw_session_load_cases (resolves : bool) (w : RawSession.World) :
  RawSession.load resolves w
  = (Ok tt,
     {| RawSession.session :=
          match resolves, RawSession.secure_store w with
          | true, Some (Parsed v) => v
          | _, _ => RawSession.session w
          end;
        RawSession.isLoading := false;
        RawSession.secure_store := RawSession.secure_store w |}).
Proof.
  destruct resolves;
    cbv beta iota zeta delta [RawSession.load bind try_catch
                                RawSession.getItemAsync RawSession.setSession
                                RawSession.setIsLoading modify get ret throw];
    [|reflexivity].
  destruct w as [s0 l0 st]. cbn [RawSession.secure_store].
  destruct st as [[| |v]|]; reflexivity.
Qed.

Lemma some_sessionid_typed (cs : list InstagramCookie) :
  RawSession.some_sessionid (map RawSession.cookie_json cs)
  = Ok (existsb (fun c => str_eqb (name c) (js "sessionid")
                          && truthy (value c)) cs).
Proof.
  induction cs as [|c cs IH]; [reflexivity|].
  cbn [map RawSession.some_sessionid existsb].
  unfold RawSession.cookie_json at 1 2.
  cbn [app get_prop lookup_field].
  change (str_eqb (js "name") (js "name")) with true.
  change (str_eqb (js "name") (js "value")) with false.
  change (str_eqb (js "value") (js "value")) with true.
  cbv beta iota. cbn [strict_eq_string truthy_value].
  destruct (str_eqb (name c) (js "sessionid")); cbn [andb]; [|exact IH].
  destruct (truthy (value c)); cbn [orb]; [reflexivity|exact IH].
Qed.

Lemma raw_isLoggedIn_typed (s : SessionState) :
  RawSession.isLoggedIn (RawSession.session_json s) = Ok (isLoggedIn s).
Proof.
  unfold RawSession.isLoggedIn, RawSession.session_json, isLoggedIn.
  cbn [get_prop lookup_field].
  change (str_eqb (js "cookies") (js "cookies")) with true. cbv beta iota.
  apply some_sessionid_typed.
Qed.

(** The mount effect of the session provider checks nothing of what it
    reads.  It never throws, always ends the loading phase and leaves the
    store untouched.  When the store answers with a text that parses, the
    parsed value becomes the session whatever it is; when the store fails,
    is empty, or holds an empty or unparsable text, the session stays as it
    was, so a fresh provider stays logged out.  On a session the provider
    wrote itself the render computes the login state of that session; on a
    value whose [cookies] is not an array, [null] and the empty object among
    them, the render throws.  On stores the provider wrote, the effect is
    the one described by [Session.load]. *)
Theorem session_load_is_fail_safe (resolves : bool) (store : option Item) :
  let w' := snd (RawSession.load resolves (RawSession.initial store)) in
  fst (RawSession.load resolves (RawSession.initial store)) = Ok tt /\
  RawSession.isLoading w' = false /\
  RawSession.secure_store w' = store /\
  (forall v, resolves = true -> store = Some (Parsed v) ->
             RawSession.session w' = v) /\
  (resolves = false \/ store = None \/ store = Some EmptyText
   \/ store = Some Unparsable ->
   RawSession.session w' = RawSession.session (RawSession.initial store) /\
   RawSession.isLoggedIn (RawSession.session w') = Ok false) /\
  (forall s : SessionState,
     RawSession.isLoggedIn (RawSession.session_json s) = Ok (isLoggedIn s)) /\
  (forall v,
     (forall items, get_prop v (js "cookies") <> Ok (Value (JArr items))) ->
     exists e, RawSession.isLoggedIn v = Throw e) /\
  (forall (r : bool) (w : World),
     RawSession.load r (RawSession.world_of w)
     = (Ok tt, RawSession.world_of (snd (load r w)))).
Proof.
  intros w'. subst w'. rewrite raw_session_load_cases.
  cbn [fst snd RawSession.initial RawSession.session RawSession.isLoading
       RawSession.secure_store].
  split; [reflexivity|]. split; [reflexivity|]. split; [reflexivity|]. split.
  { intros v -> ->. reflexivity. }
  split.
  { intros [->|[->|[->| ->]]]; [destruct store as [[| |v]|]|destruct resolves
                               |destruct resolves|destruct resolves];
      split; reflexivity. }
  split; [exact raw_isLoggedIn_typed|]. split.
  { intros v H. unfold RawSession.isLoggedIn.
    destruct (get_prop v (js "cookies")) as [[|[]]|e]; eauto.
    exfalso. exact (H _ eq_refl). }
  intros r w. rewrite raw_session_load_cases, load_cases.
  unfold RawSession.world_of.
  cbn [snd session isLoading secure_store RawSession.session
       RawSession.secure_store].
  destruct r, (secure_store w) as [[|s]|]; reflexivity.
Qed.

(** The mount effect over a store that holds the text of the empty object:
    the object becomes the session and the render throws. *)
Lemma session_load_is_fail_safe_witness :
  RawSession.session
    (snd (RawSession.load true (RawSession.initial (Some (Parsed (JObj []))))))
  = JObj [] /\
  exists e, RawSession.isLoggedIn (JObj []) = Throw e.
Proof.
  pose proof (session_load_is_fail_safe true (Some (Parsed (JObj []))))
    as (_ & _ & _ & A & _ & _ & T & _).
  split; [exact (A (JObj []) eq_refl eq_refl)|].
  apply T. intros items H. discriminate H.
Defined.

Lemma saveCookies_cases (cs : list InstagramCookie) (u : option jsstring)
    (resolves : bool) (w : World) :
  saveCookies cs u resolves w
  = ((if resolves then Ok tt else Throw (JsError (js "SecureStore failed"))),
     {| session := More.saved_session cs u;
        isLoading := isLoading w;
        secure_store := if resolves
                        then Some (Encoded (More.saved_session cs u))
                        else secure_store w |}).
Proof.
  unfold More.saved_session.
  destruct resolves;
    cbv beta iota zeta delta [saveCookies bind setSession setItemAsync modify
                                throw];
    reflexivity.
Qed.

(** A saved session survives a restart: after [saveCookies] with a store
    that accepts the write, a fresh provider that loads the store holds the
    same cookies and user name, and is logged in exactly when the saving
    provider is.  The user name is the one given, or else the value of the
    first cookie named ds_user_id, or else null. *)
Theorem session_survives_restart (cs : list InstagramCookie)
    (u : option jsstring) (w : World) :
  let w' := snd (saveCookies cs u true w) in
  fst (saveCookies cs u true w) = Ok tt /\
  session (Restart.session w') = session w' /\
  isLoggedIn (session (Restart.session w')) = isLoggedIn (session w') /\
  cookies (session w') = cs /\
  (forall name', u = Some name' -> username (session w') = Some name') /\
  (u = None ->
   (forall c, In c cs -> name c <> js "ds_user_id") ->
   username (session w') = None) /\
  (forall pre c post,
     u = None -> cs = pre ++ c :: post -> name c = js "ds_user_id" ->
     (forall c', In c' pre -> name c' <> js "ds_user_id") ->
     username (session w') = Some (value c)).
Proof.
  intros w'. subst w'. rewrite saveCookies_cases. cbn [fst snd].
  unfold Restart.session. rewrite load_cases.
  cbn [fst snd initial session secure_store More.saved_session cookies
       username].
  split; [reflexivity|]. split; [reflexivity|]. split; [reflexivity|].
  split; [reflexivity|]. split; [intros n ->; reflexivity|]. split.
  - intros -> H.
    destruct (find (fun c => str_eqb (name c) (js "ds_user_id")) cs) eqn:E;
      [|reflexivity].
    apply find_some in E as [Hin Hn]. apply str_eqb_eq in Hn.
    exfalso. exact (H _ Hin Hn).
  - intros pre c post -> -> Hn Hpre.
    assert (F : find (fun c => str_eqb (name c) (js "ds_user_id"))
                  (pre ++ c :: post) = Some c).
    { induction pre as [|x pre IH]; cbn [app find].
      - rewrite (proj2 (str_eqb_eq _ _) Hn). reflexivity.
      - destruct (str_eqb (name x) (js "ds_user_id")) eqn:E.
        + apply str_eqb_eq in E. exfalso.
          exact (Hpre x (or_introl eq_refl) E).
        + apply IH. intros c' Hc'. apply Hpre. right. exact Hc'. }
    rewrite F. reflexivity.
Qed.

(** The session of the example import, saved and loaded again. *)
Lemma session_survives_restart_witness :
  username
    (session (snd (saveCookies
                     (SessionScreen.parse_cookies (trim Sample.pair_text))
                     None true (initial None))))
  = Some (js "42").
Proof.
  pose proof (session_survives_restart
                (SessionScreen.parse_cookies (trim Sample.pair_text))
                None (initial None)) as (_ & _ & _ & _ & _ & _ & H).
  apply (H [Sample2.pair (js "sessionid") (js "ABC123")]
           (Sample2.pair (js "ds_user_id") (js "42")) []).
  - reflexivity.
  - reflexivity.
  - reflexivity.
  - intros c' [<-|[]]. discriminate.
Defined.

Lemma clearSession_cases (resolves : bool) (w : World) :
  clearSession resolves w
  = ((if resolves then Ok tt else Throw (JsError (js "SecureStore failed"))),
     {| session := {| cookies := []; username := None |};
        isLoading := isLoading w;
        secure_store := if resolves then None else secure_store w |}).
Proof.
  destruct resolves;
    cbv beta iota zeta delta [clearSession bind setSession deleteItemAsync
                                modify throw];
    reflexivity.
Qed.

(** A logout whose delete resolves is durable: the provider is logged out
    and so is every provider started later.  When the secure store rejects
    the call, [saveCookies] and [clearSession] throw after they have changed
    the session in memory, and the store keeps its item: a rejected logout
    leaves the provider logged out until the next restart, which brings back
    the stored session. *)
Theorem session_store_failure_is_not_durable (w : World) :
  (isLoggedIn (session (snd (clearSession true w))) = false /\
   isLoggedIn (session (Restart.session (snd (clearSession true w)))) = false) /\
  ((exists e, fst (clearSession false w) = Throw e) /\
   isLoggedIn (session (snd (clearSession false w))) = false /\
   secure_store (snd (clearSession false w)) = secure_store w /\
   forall s, secure_store w = Some (Encoded s) ->
             session (Restart.session (snd (clearSession false w))) = s) /\
  (forall cs u,
     (exists e, fst (saveCookies cs u false w) = Throw e) /\
     cookies (session (snd (saveCookies cs u false w))) = cs /\
     secure_store (snd (saveCookies cs u false w)) = secure_store w).
Proof.
  rewrite !clearSession_cases. cbn [fst snd session secure_store].
  split; [split; reflexivity|]. split.
  - split; [eauto|]. split; [reflexivity|]. split; [reflexivity|].
    intros s E. unfold Restart.session. rewrite load_cases.
    cbn [snd initial session secure_store]. rewrite E. reflexivity.
  - intros cs u. rewrite saveCookies_cases. cbn [fst snd session secure_store].
    split; [eauto|]. split; reflexivity.
Qed.

(** A rejected logout over a store that holds the sample session. *)
Lemma session_store_failure_is_not_durable_witness :
  isLoggedIn
    (session (Restart.session
                (snd (clearSession false
                        (snd (saveCookies [Sample.session_cookie] None true
                                (initial None))))))) = true.
Proof.
  pose proof (session_store_failure_is_not_durable
                (snd (saveCookies [Sample.session_cookie] None true
                        (initial None)))) as (_ & (_ & _ & _ & H) & _).
  rewrite (H (More.saved_session [Sample.session_cookie] None) eq_refl).
  reflexivity.
Defined.

End SessionStore.

(** * Export and import of cookies *)

Section CookieRoundTrip.
Import Session SessionScreen Summary More.

Lemma last_cons_cons {A} (x y : A) (l : list A) (d : A) :
  last (x :: y :: l) d = last (y :: l) d.
Proof. reflexivity. Qed.

Lemma last_app_nonempty {A} (a b : list A) (d : A) :
  b <> [] -> last (a ++ b) d = last b d.
Proof.
  intros Hb. induction a as [|x a IH]; [reflexivity|].
  cbn [app]. destruct (a ++ b) eqn:E.
  - destruct a; [cbn in E; congruence|discriminate].
  - cbn [last]. exact IH.
Qed.

Lemma trimEnd_snoc (l : jsstring) (x : cu) :
  is_space x = false -> trimEnd (l ++ [x]) = l ++ [x].
Proof.
  intros Hx. unfold trimEnd. rewrite rev_app_distr.
  cbn [rev app drop_while]. rewrite Hx.
  change (x :: rev l) with (rev [x] ++ rev l).
  rewrite <- rev_app_distr. apply rev_involutive.
Qed.

Lemma trimEnd_nonspace (s : jsstring) :
  s <> [] -> is_space (last s 0%N) = false -> trimEnd s = s.
Proof.
  intros Hne Hl. pose proof (app_removelast_last 0%N Hne) as E.
  rewrite E. apply trimEnd_snoc. exact Hl.
Qed.

Lemma trim_tidy (f : jsstring) : tidy f = true -> trim f = f.
Proof.
  destruct f as [|c r]; [reflexivity|]. cbn [tidy]. intros H.
  apply andb_true_iff in H as [Hc Hl]. apply negb_true_iff in Hc, Hl.
  unfold trim, trimStart. cbn [drop_while]. rewrite Hc.
  apply trimEnd_nonspace; [discriminate|exact Hl].
Qed.

Lemma line_domain_clean (c : InstagramCookie) :
  clean_field (domain c) -> clean_field (line_domain c) /\ line_domain c <> [].
Proof.
  intros H. unfold line_domain. destruct (domain c) eqn:E.
  - split; [|discriminate]. repeat split; try reflexivity;
      cbn; intuition discriminate.
  - split; [exact H|discriminate].
Qed.

Lemma line_path_clean (c : InstagramCookie) :
  clean_field (path c) -> clean_field (line_path c) /\ line_path c <> [].
Proof.
  intros H. unfold line_path. destruct (path c) eqn:E.
  - split; [|discriminate]. repeat split; try reflexivity;
      cbn; intuition discriminate.
  - split; [exact H|discriminate].
Qed.

Lemma line_fields_lack (x : cu) (c : InstagramCookie) :
  x = 9%N \/ x = 10%N -> portable c ->
  forall f, In f (line_fields c) -> ~ In x f.
Proof.
  intros Hx (Hn & Hv & Hd & Hp & _ & _) f Hf.
  destruct (line_domain_clean c Hd) as [(Hd9 & Hd10 & _) _].
  destruct (line_path_clean c Hp) as [(Hp9 & Hp10 & _) _].
  destruct Hn as (Hn9 & Hn10 & _). destruct Hv as (Hv9 & Hv10 & _).
  unfold line_fields in Hf. cbn [In] in Hf.
  destruct Hf as [<-|[<-|[<-|[<-|[<-|[<-|[<-|[]]]]]]]];
    destruct Hx as [-> | ->]; try assumption.
  all: try (destruct (startsWith (line_domain c) (js ".")); cbn;
            intuition discriminate).
  all: try (destruct (secure c); cbn; intuition discriminate).
  all: cbn; intuition discriminate.
Qed.

Lemma netscape_line_of_cookie_line (c : InstagramCookie) :
  portable c -> netscape_line (cookie_line c) = [reimported c].
Proof.
  intros Hc. pose proof Hc as (Hn & Hv & Hd & Hp & _ & _).
  unfold netscape_line.
  rewrite (split_cookie_line c (line_fields_lack 9%N c (or_introl eq_refl) Hc)).
  cbn [line_fields List.length Nat.leb part nth]. unfold reimported.
  destruct (line_domain_clean c Hd) as [(_ & _ & Td) _].
  destruct (line_path_clean c Hp) as [(_ & _ & Tp) _].
  destruct Hn as (_ & _ & Tn). destruct Hv as (_ & _ & Tv).
  rewrite (trim_tidy _ Tn), (trim_tidy _ Tv), (trim_tidy _ Td),
    (trim_tidy _ Tp).
  destruct (secure c); reflexivity.
Qed.

Lemma tidy_app (a m b : jsstring) :
  a <> [] -> b <> [] -> tidy a = true -> tidy b = true ->
  tidy (a ++ m ++ b) = true.
Proof.
  intros Ha Hb Ta Tb. destruct a as [|c a]; [congruence|].
  destruct b as [|d b]; [congruence|].
  cbn [tidy] in Ta, Tb. apply andb_true_iff in Ta as [Hc _].
  apply andb_true_iff in Tb as [_ Hl].
  change ((c :: a) ++ m ++ d :: b) with (c :: (a ++ m ++ d :: b)).
  cbn [tidy]. rewrite Hc. cbn [andb].
  change (c :: (a ++ m ++ d :: b)) with ((c :: a) ++ m ++ d :: b).
  rewrite app_assoc, last_app_nonempty by discriminate. exact Hl.
Qed.

Lemma cookie_line_tidy (c : InstagramCookie) :
  portable c -> tidy (cookie_line c) = true /\ cookie_line c <> [].
Proof.
  intros (Hn & Hv & Hd & Hp & Hne & _).
  destruct (line_domain_clean c Hd) as [(_ & _ & Td) Nd].
  assert (E : exists m, cookie_line c = line_domain c ++ m ++ value c).
  { rewrite cookie_line_join. unfold line_fields. cbn [join].
    exists (tab ++ (if startsWith (line_domain c) (js ".")
                    then js "TRUE" else js "FALSE")
              ++ tab ++ line_path c ++ tab
              ++ (if secure c then js "TRUE" else js "FALSE")
              ++ tab ++ js "0" ++ tab ++ name c ++ tab).
    rewrite <- !app_assoc. reflexivity. }
  destruct E as [m E]. rewrite E. split.
  - apply tidy_app; try assumption. apply Hv.
  - destruct (line_domain c); [congruence|discriminate].
Qed.

Lemma join_tidy (sep : jsstring) (lines : list jsstring) :
  lines <> [] ->
  (forall l, In l lines -> tidy l = true /\ l <> []) ->
  tidy (join sep lines) = true /\ join sep lines <> [].
Proof.
  induction lines as [|x rest IH]; intros Hne Hall; [congruence|].
  destruct rest as [|y rest].
  - cbn [join]. apply Hall. left. reflexivity.
  - change (join sep (x :: y :: rest)) with (x ++ sep ++ join sep (y :: rest)).
    destruct (Hall x (or_introl eq_refl)) as [Tx Nx].
    destruct IH as [Tr Nr]; [discriminate| |].
    { intros l Hl. apply Hall. right. exact Hl. }
    split.
    + apply tidy_app; assumption.
    + destruct x; [congruence|discriminate].
Qed.

Lemma cookie_line_not_comment (c : InstagramCookie) :
  portable c -> startsWith (cookie_line c) (js "#") = false.
Proof.
  intros (_ & _ & _ & _ & _ & Hs).
  rewrite cookie_line_join. unfold line_fields. cbn [join].
  unfold line_domain. destruct (domain c) as [|x d]; [reflexivity|].
  unfold startsWith in *. cbn [js strip_prefix app] in *.
  destruct (cu_eqb _ x); [discriminate|reflexivity].
Qed.

Lemma flat_map_netscape (cs : list InstagramCookie) :
  (forall c, In c cs -> portable c) ->
  flat_map netscape_line (map cookie_line cs) = map reimported cs.
Proof.
  induction cs as [|c cs IH]; intros H; [reflexivity|].
  cbn [map flat_map].
  rewrite (netscape_line_of_cookie_line c (H c (or_introl eq_refl))).
  rewrite IH by (intros c' Hc'; apply H; right; exact Hc'). reflexivity.
Qed.

Lemma existsb_through_map {A B} (p : B -> bool) (f : A -> B) (l : list A) :
  existsb p (map f l) = existsb (fun x => p (f x)) l.
Proof.
  induction l as [|x l IH]; [reflexivity|]. cbn [map existsb].
  rewrite IH. reflexivity.
Qed.

Lemma reimported_twice (c : InstagramCookie) :
  cookie_line (reimported c) = cookie_line c.
Proof.
  rewrite !cookie_line_join. unfold line_fields, line_domain, line_path,
    reimported. cbn [domain path name value secure].
  unfold line_domain, line_path.
  destruct (domain c); destruct (path c); reflexivity.
Qed.

(** Export and import are inverse on well-formed sessions.  When every
    cookie of a non-empty session has fields free of tabs, newlines and
    outer white space, a value that is not empty and a domain that does not
    start with the comment sign, the text [cookiesForApi] gives is read back
    by the manual import as the same cookies, in the same order, with the
    default domain and path filled in and the httpOnly mark recomputed; the
    session read back is logged in exactly when the exported one is, and
    exports to the same text. *)
Theorem exported_cookies_import_back (s : SessionState) :
  cookies s <> [] ->
  (forall c, In c (cookies s) -> portable c) ->
  exists text,
    cookiesForApi s = Some text /\
    parse_cookies (trim text) = map reimported (cookies s) /\
    map (fun c => (name c, value c, secure c)) (parse_cookies (trim text))
    = map (fun c => (name c, value c, secure c)) (cookies s) /\
    hasSession (parse_cookies (trim text)) = isLoggedIn s /\
    cookiesForApi {| cookies := parse_cookies (trim text); username := None |}
    = Some text.
Proof.
  intros Hne Hall. rewrite (cookiesForApi_nonempty s Hne).
  eexists. split; [reflexivity|].
  set (lines := map cookie_line (cookies s)).
  assert (Hl : lines <> []).
  { subst lines. destruct (cookies s); [congruence|discriminate]. }
  assert (Hlines : forall l, In l lines -> exists c,
                     In c (cookies s) /\ l = cookie_line c).
  { intros l Hin. subst lines. apply in_map_iff in Hin as (c & <- & Hc).
    eauto. }
  assert (T : trim (join newline lines) = join newline lines).
  { apply trim_tidy. apply join_tidy; [exact Hl|].
    intros l Hin. destruct (Hlines l Hin) as (c & Hc & ->).
    apply cookie_line_tidy. apply Hall. exact Hc. }
  assert (P : parse_cookies (join newline lines) = map reimported (cookies s)).
  { unfold parse_cookies. change newline with [10%N].
    rewrite split_join; [|exact Hl|].
    2:{ intros l Hin. destruct (Hlines l Hin) as (c & Hc & ->).
        rewrite cookie_line_join. intros H10.
        apply in_join in H10 as [H10|(f & Hf & H10)].
        - destruct H10 as [H10|[]]. discriminate.
        - exact (line_fields_lack 10%N c (or_intror eq_refl)
                   (Hall c Hc) f Hf H10). }
    rewrite filter_all.
    2:{ intros l Hin. destruct (Hlines l Hin) as (c & Hc & ->).
        destruct (cookie_line_tidy c (Hall c Hc)) as [Tc Nc].
        rewrite (trim_tidy _ Tc), (cookie_line_not_comment c (Hall c Hc)).
        destruct (cookie_line c); [congruence|reflexivity]. }
    subst lines. rewrite (flat_map_netscape (cookies s) Hall).
    destruct (cookies s); [congruence|reflexivity]. }
  rewrite T, P. split; [reflexivity|]. split; [|split].
  - rewrite map_map. reflexivity.
  - unfold hasSession, isLoggedIn. rewrite existsb_through_map. reflexivity.
  - rewrite cookiesForApi_nonempty.
    + cbn [cookies]. rewrite map_map. f_equal. f_equal.
      apply map_ext. exact reimported_twice.
    + cbn [cookies]. destruct (cookies s); [congruence|discriminate].
Qed.

(** The export of the sample session read back. *)
Lemma exported_cookies_import_back_witness :
  exists text,
    cookiesForApi Sample.logged_in = Some text /\
    parse_cookies (trim text) = [Sample.session_cookie].
Proof.
  destruct (exported_cookies_import_back Sample.logged_in) as (text & E & P & _).
  - discriminate.
  - intros c [<-|[]]. unfold portable, clean_field. cbn.
    intuition discriminate.
  - exists text. split; [exact E|]. rewrite P. reflexivity.
Defined.

End CookieRoundTrip.

(** * The file name of a proxied download *)

Section FileName.
Import Api.

Lemma plus_lazy_whole (p : cu -> bool) (k : kont) (rest : jsstring)
    (caps r : captures) (name : jsstring) :
  forall pos,
  name <> [] -> forallb p name = true ->
  (forall a b, name = a ++ b -> a <> [] -> b <> [] ->
               k (pos + List.length a) (b ++ rest) caps = None) ->
  k (pos + List.length name) rest caps = Some r ->
  plus_lazy p pos (name ++ rest) caps k = Some r.
Proof.
  induction name as [|c name IH]; intros pos Hne Hp Hmid Hend; [congruence|].
  cbn [forallb] in Hp. apply andb_true_iff in Hp as [Hc Hp].
  cbn [app plus_lazy]. rewrite Hc.
  destruct name as [|d name].
  - cbn [app List.length] in *. replace (pos + 1) with (S pos) in Hend by lia.
    rewrite Hend. reflexivity.
  - pose proof (Hmid [c] (d :: name) eq_refl) as H1.
    cbn [List.length] in H1. replace (pos + 1) with (S pos) in H1 by lia.
    rewrite H1 by discriminate. cbn [or_else].
    apply IH; [discriminate|exact Hp| |].
    + intros a b E Ha Hb.
      replace (S pos + List.length a) with (pos + List.length (c :: a))
        by (cbn [List.length]; lia).
      apply Hmid; [cbn [app]; rewrite E; reflexivity|discriminate|exact Hb].
    + replace (S pos + List.length (d :: name))
        with (pos + List.length (c :: d :: name))
        by (cbn [List.length]; lia).
      exact Hend.
Qed.

Lemma filename_tail (pos : nat) (s : jsstring) (caps : captures) :
  rmatch (Seq (Opt (Lit [34%N])) Eol) pos s caps accept
  = match s with
    | [] => Some caps
    | [c] => if cu_eqb 34%N c then Some caps else None
    | _ :: _ :: _ => None
    end.
Proof.
  cbn [rmatch strip_prefix].
  destruct s as [|c [|d s]]; try reflexivity;
    destruct (cu_eqb 34%N c); reflexivity.
Qed.

Lemma filename_match (pos : nat) (q1 q2 name : jsstring) :
  (q1 = [] \/ q1 = [34%N]) -> (q2 = [] \/ q2 = [34%N]) ->
  name <> [] -> forallb is_dot name = true -> ~ In 34%N name ->
  rmatch FILENAME_REGEX pos (js "filename=" ++ q1 ++ name ++ q2) [] accept
  = Some [(1, name)].
Proof.
  intros Hq1 Hq2 Hne Hdot Hq.
  unfold FILENAME_REGEX.
  change (rmatch (Seq (Lit (js "filename=")) ?r) pos ?s [] accept)
    with (match strip_prefix (js "filename=") s with
          | Some s' => rmatch r (pos + List.length (js "filename=")) s' []
                         accept
          | None => None
          end).
  rewrite (proj2 (strip_prefix_app (js "filename=") _ (q1 ++ name ++ q2))
             eq_refl).
  set (P := pos + List.length (js "filename=")).
  assert (Body : forall start,
            rmatch (Seq (Group 1 (LazyPlus is_dot))
                      (Seq (Opt (Lit [34%N])) Eol))
              start (name ++ q2) [] accept = Some [(1, name)]).
  { intros start. cbn [rmatch].
    apply plus_lazy_whole; [exact Hne|exact Hdot| |].
    - intros a b E Ha Hb.
      change (rmatch (Seq (Opt (Lit [34%N])) Eol) (start + List.length a)
                (b ++ q2)
                [(1, firstn (start + List.length a - start) (name ++ q2))]
                accept = None).
      rewrite filename_tail.
      destruct b as [|d b]; [congruence|].
      assert (Hd : cu_eqb 34%N d = false).
      { destruct (cu_eqb 34%N d) eqn:Ed; [|reflexivity].
        apply cu_eqb_eq in Ed. subst d. exfalso. apply Hq. rewrite E.
        apply in_or_app. right. left. reflexivity. }
      cbn [app]. destruct (b ++ q2); [rewrite Hd|]; reflexivity.
    - change (rmatch (Seq (Opt (Lit [34%N])) Eol) (start + List.length name)
                q2
                [(1, firstn (start + List.length name - start) (name ++ q2))]
                accept = Some [(1, name)]).
      rewrite filename_tail.
      replace (start + List.length name - start) with (List.length name)
        by lia.
      rewrite firstn_app, Nat.sub_diag, firstn_all. cbn [firstn].
      rewrite app_nil_r.
      destruct Hq2 as [-> | ->]; reflexivity. }
  destruct Hq1 as [-> | ->].
  - cbn [app]. destruct name as [|c name]; [congruence|].
    assert (Hc : cu_eqb 34%N c = false).
    { destruct (cu_eqb 34%N c) eqn:Ec; [|reflexivity].
      apply cu_eqb_eq in Ec. subst c. exfalso. apply Hq. left. reflexivity. }
    change (rmatch (Seq (Opt (Lit [34%N])) ?r) P ?s [] accept)
      with (or_else (rmatch (Seq (Lit [34%N]) r) P s [] accept)
                    (rmatch r P s [] accept)).
    change (rmatch (Seq (Lit [34%N]) ?r) P ?s [] accept)
      with (match strip_prefix [34%N] s with
            | Some s' => rmatch r (P + 1) s' [] accept
            | None => None
            end).
    cbn [app strip_prefix]. rewrite Hc. cbn [or_else].
    apply (Body P).
  - change (rmatch (Seq (Opt (Lit [34%N])) ?r) P ?s [] accept)
      with (or_else (rmatch (Seq (Lit [34%N]) r) P s [] accept)
                    (rmatch r P s [] accept)).
    change (rmatch (Seq (Lit [34%N]) ?r) P ?s [] accept)
      with (match strip_prefix [34%N] s with
            | Some s' => rmatch r (P + 1) s' [] accept
            | None => None
            end).
    cbn [app strip_prefix cu_eqb N.eqb Pos.eqb]. rewrite (Body (P + 1)).
    reflexivity.
Qed.

Lemma exec_from_skip (prefix rest : jsstring) :
  ~ In 102%N prefix ->
  forall pos,
  exec_from FILENAME_REGEX pos (prefix ++ rest)
  = exec_from FILENAME_REGEX (pos + List.length prefix) rest.
Proof.
  induction prefix as [|c prefix IH]; intros Hf pos.
  - cbn [app List.length]. rewrite Nat.add_0_r. reflexivity.
  - assert (Hc : cu_eqb 102%N c = false).
    { destruct (cu_eqb 102%N c) eqn:E; [|reflexivity].
      apply cu_eqb_eq in E. subst c. exfalso. apply Hf. left. reflexivity. }
    cbn [app exec_from]. unfold FILENAME_REGEX at 1.
    change (js "filename=") with (102%N :: js "ilename=").
    cbn [rmatch strip_prefix]. rewrite Hc. cbn [or_else].
    rewrite IH by (intros H; apply Hf; right; exact H).
    f_equal. cbn [List.length]. lia.
Qed.

Lemma exec_from_hit (r : regex) (pos : nat) (s : jsstring) (c : captures) :
  rmatch r pos s [] accept = Some c -> exec_from r pos s = Some c.
Proof. intros H. destruct s; cbn [exec_from]; rewrite H; reflexivity. Qed.

Lemma exec_without_f (d : jsstring) :
  ~ In 102%N d -> exec FILENAME_REGEX d = None.
Proof.
  intros Hf. unfold exec.
  rewrite <- (app_nil_r d), (exec_from_skip d [] Hf). reflexivity.
Qed.

Lemma downloadReelBinary_ok (u : jsstring) (now : N) (r : Response Blob)
    (blob : Blob) (log : list Request) :
  ok r = true -> payload r = Some blob ->
  fst (downloadReelBinary u now (Resolved r) log)
  = Ok (blob, More.filename_of now (content_disposition r)).
Proof.
  intros Hok Hp.
  cbv beta iota zeta delta [downloadReelBinary bind try_catch fetchWithTimeout
                              modify throw ret read_body More.filename_of].
  rewrite Hok, Hp. reflexivity.
Qed.

(** The file name of a proxied download.  For an ok response whose body can
    be read, the name is the default reel_N.mp4, N being the current time,
    when there is no Content-Disposition header or the header has no letter
    f at all.  When the header is some text without an f followed by
    filename= and a name, the name being optionally opened and closed by a
    double quote, not empty, and free of double quotes and line terminators,
    the file name is that name. *)
Theorem download_file_name (u : jsstring) (now : N) (r : Response Blob)
    (blob : Blob) (log : list Request) :
  ok r = true -> payload r = Some blob ->
  (content_disposition r = None ->
   fst (downloadReelBinary u now (Resolved r) log)
   = Ok (blob, js "reel_" ++ decimal now ++ js ".mp4")) /\
  (forall d, content_disposition r = Some d -> ~ In 102%N d ->
   fst (downloadReelBinary u now (Resolved r) log)
   = Ok (blob, js "reel_" ++ decimal now ++ js ".mp4")) /\
  (forall prefix q1 q2 name,
     content_disposition r
     = Some (prefix ++ js "filename=" ++ q1 ++ name ++ q2) ->
     ~ In 102%N prefix ->
     (q1 = [] \/ q1 = [34%N]) -> (q2 = [] \/ q2 = [34%N]) ->
     name <> [] -> forallb is_dot name = true -> ~ In 34%N name ->
     fst (downloadReelBinary u now (Resolved r) log) = Ok (blob, name)).
Proof.
  intros Hok Hp. rewrite (downloadReelBinary_ok u now r blob log Hok Hp).
  split; [|split].
  - intros ->. reflexivity.
  - intros d -> Hf. unfold More.filename_of. rewrite (exec_without_f d Hf).
    reflexivity.
  - intros prefix q1 q2 name -> Hf Hq1 Hq2 Hne Hdot Hq.
    unfold More.filename_of, exec. rewrite (exec_from_skip prefix _ Hf).
    rewrite (exec_from_hit _ _ _ _
               (filename_match _ q1 q2 name Hq1 Hq2 Hne Hdot Hq)).
    cbn [capture Nat.eqb]. unfold or_default.
    destruct name; [congruence|reflexivity].
Qed.

(** The file name for the header attachment; filename="clip 1.mp4". *)
Lemma download_file_name_witness :
  fst (downloadReelBinary Sample.reel_url 5 (Resolved Sample2.named_download)
         [])
  = Ok ([1; 2; 3]%N, js "clip 1.mp4").
Proof.
  apply (proj2 (proj2 (download_file_name Sample.reel_url 5
                         Sample2.named_download [1; 2; 3]%N [] eq_refl
                         eq_refl))
           (js "attachment; ") [34%N] [34%N] (js "clip 1.mp4")).
  - reflexivity.
  - cbn. intuition discriminate.
  - right. reflexivity.
  - right. reflexivity.
  - discriminate.
  - reflexivity.
  - cbn. intuition discriminate.
Defined.

End FileName.

(** * The download of the home screen *)

Section SafeName.
Import Api Home.

Lemma in_drop_while (p : cu -> bool) (c : cu) (s : jsstring) :
  In c (drop_while p s) -> In c s.
Proof.
  induction s as [|x s IH]; [intros []|]. cbn [drop_while].
  destruct (p x); [intros H; right; exact (IH H)|intros H; exact H].
Qed.

Lemma in_trim (c : cu) (s : jsstring) : In c (trim s) -> In c s.
Proof.
  unfold trim, trimEnd, trimStart. intros H.
  apply <- in_rev in H. apply in_drop_while in H.
  apply <- in_rev in H. apply in_drop_while in H. exact H.
Qed.

Lemma in_replace_space_runs (c : cu) (s : jsstring) :
  forall in_run,
  In c (replace_space_runs in_run s) ->
  c = 95%N \/ (In c s /\ is_space c = false).
Proof.
  induction s as [|x s IH]; intros in_run; [intros []|].
  cbn [replace_space_runs]. destruct (is_space x) eqn:E.
  - destruct in_run.
    + intros H. destruct (IH _ H) as [->|[Hin Hs]]; [left; reflexivity|].
      right. split; [right; exact Hin|exact Hs].
    + intros [<-|H]; [left; reflexivity|].
      destruct (IH _ H) as [->|[Hin Hs]]; [left; reflexivity|].
      right. split; [right; exact Hin|exact Hs].
  - intros [<-|H].
    + right. split; [left; reflexivity|exact E].
    + destruct (IH _ H) as [->|[Hin Hs]]; [left; reflexivity|].
      right. split; [right; exact Hin|exact Hs].
Qed.

Lemma in_firstn_in {A} (x : A) (n : nat) (l : list A) :
  In x (firstn n l) -> In x l.
Proof.
  revert l. induction n as [|n IH]; intros [|y l]; cbn [firstn In];
    try contradiction.
  intros [<-|H]; [left; reflexivity|right; exact (IH _ H)].
Qed.

Lemma name_char_not_space (c : cu) :
  is_name_char c = true -> is_space c = false -> is_word_or_dash c = true.
Proof.
  unfold is_name_char, is_word_or_dash, is_word. intros H Hs.
  destruct (cu_eqb c 32%N) eqn:E32.
  - apply cu_eqb_eq in E32. subst c. discriminate.
  - destruct (in_range 97%N 122%N c), (in_range 65%N 90%N c),
      (in_range 48%N 57%N c), (cu_eqb c 95%N), (cu_eqb c 45%N);
      cbn in *; congruence.
Qed.

(** The base of the temporary file name is safe: at most 60 units, each a
    letter, a digit, an underscore or a hyphen, so it holds no path
    separator, no dot and no white space, whatever the title is.  An empty
    title gives the base reel. *)
Theorem safeName_is_sanitised (info : ReelInfo) :
  List.length (safeName info) <= 60 /\
  (forall c, In c (safeName info) -> is_word_or_dash c = true) /\
  ~ In 47%N (safeName info) /\ ~ In 46%N (safeName info) /\
  ~ In 92%N (safeName info) /\
  (title info = [] -> safeName info = js "reel").
Proof.
  assert (W : forall c, In c (safeName info) -> is_word_or_dash c = true).
  { intros c H. unfold safeName, substring in H.
    apply in_firstn_in in H. change (Z.to_nat 0) with 0 in H.
    cbn [skipn] in H.
    apply in_replace_space_runs in H as [->|[H Hs]]; [reflexivity|].
    apply in_trim in H. apply filter_In in H as [_ H].
    apply name_char_not_space; assumption. }
  split; [|split; [exact W|]].
  - unfold safeName, substring. rewrite length_firstn.
    change (Z.to_nat 60 - Z.to_nat 0) with 60. apply Nat.le_min_l.
  - repeat split.
    + intros H. apply W in H. discriminate.
    + intros H. apply W in H. discriminate.
    + intros H. apply W in H. discriminate.
    + intros E. unfold safeName. rewrite E. reflexivity.
Qed.

(** The base for an empty title. *)
Lemma safeName_is_sanitised_witness :
  safeName {| title := []; thumbnail := []; duration := []; video_url := [];
              uploader := [] |} = js "reel".
Proof.
  apply (proj2 (proj2 (proj2 (proj2 (proj2
           (safeName_is_sanitised
              {| title := []; thumbnail := []; duration := [];
                 video_url := []; uploader := [] |})))))).
  reflexivity.
Defined.

End SafeName.

Section DownloadFlow.
Import Api Home Flow.

Lemma downloadReelBinary_full (u : jsstring) (now : N) (outcome : Fetched Blob)
    (log : list Request) :
  downloadReelBinary u now outcome log
  = (match outcome with
     | Rejected => Throw (ApiError 0 unreachable_message)
     | Resolved r =>
         if ok r then
           match payload r with
           | Some blob =>
               Ok (blob, More.filename_of now (content_disposition r))
           | None => Throw (JsError (js "body could not be read"))
           end
         else Throw (Summary.http_error r)
     end,
     log ++ [Summary.post_request (js "/download") u DOWNLOAD_TIMEOUT_MS]).
Proof.
  unfold Summary.http_error, Summary.server_detail, Summary.post_request,
    More.filename_of.
  destruct outcome as [|r];
    cbv beta iota zeta delta [downloadReelBinary bind try_catch
                                fetchWithTimeout modify throw ret read_body
                                of_res new_ApiError];
    [reflexivity|].
  destruct (ok r); cbv beta iota delta [negb].
  - destruct (payload r); reflexivity.
  - destruct (error_json r) as [[]|]; reflexivity.
Qed.

Lemma handleDownload_run (sess : Session.SessionState) (env : DownloadEnv)
    (w : World) (info : ReelInfo) :
  reelInfo w = Some info ->
  handleDownload sess env w = (Ok tt, downloaded_world w info env).
Proof.
  intros Hinfo. unfold downloaded_world, attempt, transfer, cleanup.
  cbv beta iota zeta delta [handleDownload bind get try_catch perform
                              animateButton modify setStatus setErrorMessage
                              of_res throw ret call surplus_argument].
  rewrite Hinfo. rewrite downloadReelBinary_full.
  cbn [url status reelInfo errorMessage serverOnline is403 effects fst snd].
  fold (fileName info env). fold (proxy_request w).
  destruct (permission env) as [permStatus|e0];
    [destruct (str_eqb permStatus (js "granted"))|]; cbn [negb fst snd];
    try close_case.
  destruct (native_download env) as [uri|e1]; cbn [fst snd].
  - destruct (truthy uri); cbn [negb fst snd]; try close_case.
    destruct (saved env) as [[]|e2]; cbn [fst snd]; try close_case.
    destruct (temp_exists env) as [[|]|e3]; cbn [fst snd]; try close_case.
    destruct (deleted env) as [[]|e4]; close_case.
  - destruct (fallback env) as [|r]; cbn [fst snd]; try close_case.
    destruct (ok r); cbn [fst snd]; try close_case.
    destruct (payload r) as [blob|]; cbn [fst snd]; try close_case.
    destruct (buffer env) as [[]|e5]; cbn [fst snd]; try close_case.
    destruct (written env) as [[]|e6]; cbn [fst snd]; try close_case.
    destruct (truthy (cache_uri env
                        (More.filename_of (fallback_now env)
                           (content_disposition r))));
      cbn [negb fst snd]; try close_case.
    destruct (saved env) as [[]|e2]; cbn [fst snd]; try close_case.
    destruct (temp_exists env) as [[|]|e3]; cbn [fst snd]; try close_case.
    destruct (deleted env) as [[]|e4]; close_case.
Qed.

End DownloadFlow.

(** ** Failures of the client and what the screen makes of them *)

Section ClientFailures.
Import Api Home Summary Flow.









End ClientFailures.

Section DownloadClaims.
Import Api Home Flow.

(** A refused or failed permission prompt ends the attempt at once: the
    screen goes to [error] with the permission message (or the message of
    the error the prompt raised), the held ReelInfo stays, and the only
    effects are the button animation and the prompt itself, so nothing is
    requested, downloaded, written or saved. *)
Theorem refused_permission_stops_download (sess : Session.SessionState)
    (env : DownloadEnv) (w : World) (info : ReelInfo) :
  reelInfo w = Some info ->
  (forall st, permission env = Ok st -> st <> js "granted" ->
     let w' := snd (handleDownload sess env w) in
     status w' = error /\
     errorMessage w' = js "Se necesitan permisos para guardar el video." /\
     reelInfo w' = Some info /\
     effects w'
     = effects w ++ [AnimateButton downloadScale; RequestPermissions]) /\
  (forall e, permission env = Throw e ->
     let w' := snd (handleDownload sess env w) in
     status w' = error /\
     errorMessage w' = shown_message e /\
     reelInfo w' = Some info /\
     effects w'
     = effects w ++ [AnimateButton downloadScale; RequestPermissions]).
Proof.
  intros Hinfo. rewrite (handleDownload_run sess env w info Hinfo).
  cbn [snd]. unfold downloaded_world, attempt.
  cbn [status errorMessage reelInfo effects]. split.
  - intros st -> Hst.
    assert (E : str_eqb st (js "granted") = false).
    { destruct (str_eqb st (js "granted")) eqn:E; [|reflexivity].
      apply str_eqb_eq in E. contradiction. }
    rewrite E. cbn [negb fst snd]. repeat split; try reflexivity.
    exact Hinfo.
  - intros e ->. cbn [fst snd]. repeat split; try reflexivity. exact Hinfo.
Qed.

(** The refused prompt of the sample environment. *)
Lemma refused_permission_stops_download_witness :
  effects Sample.after_failed_download
  = [KeyboardDismiss; AnimateButton searchScale;
     Http (Summary.post_request (js "/info") Sample.reel_url INFO_TIMEOUT_MS);
     AnimateButton downloadScale; RequestPermissions].
Proof.
  apply (proj1 (refused_permission_stops_download Sample.logged_out
                  Sample.denied
                  (snd (handleFetchInfo Sample.logged_out
                          (Resolved (Sample.response 200 None
                                       (Some Sample.info)))
                          (Sample.typed Sample.reel_url)))
                  Sample.info eq_refl)
           (js "denied") eq_refl).
  discriminate.
Defined.

(** How an attempt ends.  With a ReelInfo held, [handleDownload] always
    leaves the screen in [success] or in [error], never in a loading state,
    and never touches the URL, the held ReelInfo, the 403 flag or the server
    flag.  It ends in [success] exactly when the permission is granted, the
    transfer yields a non-empty uri and the save to the gallery resolves;
    whether the temporary file exists and whether its deletion fails plays
    no part.  In [error] the message is the one of the thrown value. *)
Theorem download_outcome (sess : Session.SessionState) (env : DownloadEnv)
    (w : World) (info : ReelInfo) :
  reelInfo w = Some info ->
  let w' := snd (handleDownload sess env w) in
  fst (handleDownload sess env w) = Ok tt /\
  (status w' = success \/ status w' = error) /\
  url w' = url w /\ reelInfo w' = reelInfo w /\ is403 w' = is403 w /\
  serverOnline w' = serverOnline w /\
  (status w' = success <->
   permission env = Ok (js "granted") /\
   (exists uri, fst (transfer w info env) = Ok uri /\ uri <> []) /\
   (exists u, saved env = Ok u)) /\
  (status w' = success -> errorMessage w' = []) /\
  (forall e, fst (attempt w info env) = Throw e ->
             status w' = error /\ errorMessage w' = shown_message e).
Proof.
  intros Hinfo w'. subst w'. rewrite (handleDownload_run sess env w info Hinfo).
  cbn [fst snd]. unfold downloaded_world.
  cbn [url status reelInfo errorMessage serverOnline is403].
  split; [reflexivity|]. split.
  { destruct (fst (attempt w info env)); auto. }
  do 4 (split; [reflexivity|]). split; [|split].
  - unfold attempt.
    destruct (permission env) as [st|e].
    2:{ cbn [fst]. split; [discriminate|]. intros (H & _). discriminate. }
    destruct (str_eqb st (js "granted")) eqn:Eg; cbn [negb].
    2:{ cbn [fst]. split; [discriminate|]. intros (H & _).
        injection H as ->. vm_compute in Eg. discriminate. }
    apply str_eqb_eq in Eg. subst st.
    destruct (transfer w info env) as [[uri|e] es]; cbn [fst].
    2:{ split; [discriminate|]. intros (_ & (uri & H & _) & _).
        discriminate. }
    destruct (truthy uri) eqn:Et; cbn [negb].
    2:{ cbn [fst]. split; [discriminate|].
        intros (_ & (uri' & H & Hne) & _). injection H as <-.
        apply truthy_false in Et. contradiction. }
    destruct (saved env) as [[]|e]; cbn [fst].
    + split; [|reflexivity]. intros _. split; [reflexivity|]. split.
      * exists uri. split; [reflexivity|]. apply truthy_true. exact Et.
      * eauto.
    + split; [discriminate|]. intros (_ & _ & (u & H)). discriminate.
  - destruct (fst (attempt w info env)); [reflexivity|discriminate].
  - intros e ->. split; reflexivity.
Qed.

(** The outcome in the sample environment whose direct download fails. *)
Lemma download_outcome_witness :
  status (snd (handleDownload Sample.logged_out Sample.proxied
                 (snd (handleFetchInfo Sample.logged_out
                         (Resolved (Sample.response 200 None
                                      (Some Sample.info)))
                         (Sample.typed Sample.reel_url))))) = success.
Proof.
  apply (proj1 (proj2 (proj2 (proj2 (proj2 (proj2 (proj2
           (download_outcome Sample.logged_out Sample.proxied
              (snd (handleFetchInfo Sample.logged_out
                      (Resolved (Sample.response 200 None (Some Sample.info)))
                      (Sample.typed Sample.reel_url)))
              Sample.info eq_refl)))))))).
  split; [reflexivity|]. split; [|exists tt; reflexivity].
  eexists. split; [vm_compute; reflexivity|discriminate].
Defined.

Lemma attempt_in_order (w : World) (info : ReelInfo) (env : DownloadEnv) :
  match native_download env with
  | Ok _ => exists uri,
      prefix_of (snd (attempt w info env)) (direct_sequence info env uri)
  | Throw _ =>
      (exists uri,
         prefix_of (snd (attempt w info env)) (direct_sequence info env uri)) \/
      exists name blob uri,
        prefix_of (snd (attempt w info env))
          (proxied_sequence w info env name blob uri)
  end.
Proof.
  unfold attempt, transfer, cleanup, direct_sequence, proxied_sequence,
    prefix_of.
  destruct (permission env) as [st|e0].
  2:{ cbn [snd]. destruct (native_download env);
        [|left]; exists []; eexists; reflexivity. }
  destruct (str_eqb st (js "granted")); cbn [negb].
  2:{ cbn [snd]. destruct (native_download env);
        [|left]; exists []; eexists; reflexivity. }
  destruct (native_download env) as [uri|e1].
  - exists uri. destruct (truthy uri); cbn [negb snd].
    + destruct (saved env) as [[]|e2]; cbn [snd app].
      * destruct (temp_exists env) as [[|]|e3]; eexists; reflexivity.
      * eexists; reflexivity.
    + eexists; reflexivity.
  - destruct (fst (downloadReelBinary (trim (url w)) (fallback_now env)
                     (fallback env) [])) as [[blob name]|e2].
    2:{ right. exists [], [], []. eexists. reflexivity. }
    right. exists name, blob, (cache_uri env name).
    destruct (buffer env) as [[]|e3]; [|eexists; reflexivity].
    destruct (written env) as [[]|e4]; [|eexists; reflexivity].
    destruct (truthy (cache_uri env name)); cbn [negb snd];
      [|eexists; reflexivity].
    destruct (saved env) as [[]|e5]; cbn [snd app]; [|eexists; reflexivity].
    destruct (temp_exists env) as [[|]|e6]; eexists; reflexivity.
Qed.

(** The order of an attempt.  After the button animation, the effects of
    [handleDownload] are an initial part of one fixed sequence: permission
    prompt, direct download, save to the gallery, existence check and
    deletion of the temporary file; or, once the direct download has
    failed, permission prompt, direct download, POST to /download, write of
    the temporary file, save, existence check, deletion.  So the prompt
    comes before any transfer, the direct download before the proxied one,
    the save after the transfer and the clean-up after the save; when the
    direct download succeeds nothing is requested. *)
Theorem download_effects_in_order (sess : Session.SessionState)
    (env : DownloadEnv) (w : World) (info : ReelInfo) :
  reelInfo w = Some info ->
  exists es,
    effects (snd (handleDownload sess env w))
    = effects w ++ AnimateButton downloadScale :: es /\
    ((exists uri, prefix_of es (direct_sequence info env uri)) \/
     (exists name blob uri,
        prefix_of es (proxied_sequence w info env name blob uri))) /\
    ((exists uri, native_download env = Ok uri) ->
     (exists uri, prefix_of es (direct_sequence info env uri)) /\
     Summary.requests_of es = []).
Proof.
  intros Hinfo. rewrite (handleDownload_run sess env w info Hinfo).
  exists (snd (attempt w info env)). split; [reflexivity|].
  pose proof (attempt_in_order w info env) as H. split.
  - destruct (native_download env); [left; exact H|exact H].
  - intros (uri & E). rewrite E in H. split; [exact H|].
    destruct H as (uri' & t & Ht).
    assert (R : Summary.requests_of (snd (attempt w info env) ++ t) = [])
      by (rewrite Ht; reflexivity).
    revert R. generalize (snd (attempt w info env)). clear.
    intros l. induction l as [|x l IH]; [reflexivity|].
    destruct x; cbn [app Summary.requests_of]; try exact IH. discriminate.
Qed.

(** The order of the effects in the sample environment whose direct
    download succeeds at once. *)
Lemma download_effects_in_order_witness :
  exists es,
    effects (snd (handleDownload Sample.logged_out Sample2.direct
                    (snd (handleFetchInfo Sample.logged_out
                            (Resolved (Sample.response 200 None
                                         (Some Sample.info)))
                            (Sample.typed Sample.reel_url)))))
    = effects (snd (handleFetchInfo Sample.logged_out
                      (Resolved (Sample.response 200 None (Some Sample.info)))
                      (Sample.typed Sample.reel_url)))
        ++ AnimateButton downloadScale :: es /\
    Summary.requests_of es = [].
Proof.
  destruct (download_effects_in_order Sample.logged_out Sample2.direct
              (snd (handleFetchInfo Sample.logged_out
                      (Resolved (Sample.response 200 None (Some Sample.info)))
                      (Sample.typed Sample.reel_url)))
              Sample.info eq_refl) as (es & E & _ & H).
  exists es. split; [exact E|]. apply H. eexists. reflexivity.
Defined.

Lemma attempt_requests (w : World) (info : ReelInfo) (env : DownloadEnv)
    (r : Request) :
  In (Http r) (snd (attempt w info env)) ->
  r = proxy_request w /\ permission env = Ok (js "granted") /\
  exists e, native_download env = Throw e.
Proof.
  unfold attempt, transfer, cleanup.
  destruct (permission env) as [st|e0].
  2:{ cbn [snd In]. intros [H|[]]. discriminate. }
  destruct (str_eqb st (js "granted")) eqn:Eg; cbn [negb].
  2:{ cbn [snd In]. intros [H|[]]. discriminate. }
  apply str_eqb_eq in Eg. subst st.
  destruct (native_download env) as [uri|e1].
  - intros H. exfalso.
    destruct (truthy uri); cbn [negb snd] in H;
      [destruct (saved env) as [[]|e2];
       [destruct (temp_exists env) as [[|]|e3]|]|];
      cbn [snd app In] in H;
      repeat (destruct H as [H|H]; [discriminate|]); exact H.
  - intros H.
    assert (G : In (Http r)
                  [RequestPermissions;
                   DownloadFile (video_url info) (fileName info env);
                   Http (proxy_request w)] \/
                exists l, In (Http r) l /\
                          forall x, In x l -> forall q, x <> Http q).
    { destruct (fst (downloadReelBinary (trim (url w)) (fallback_now env)
                       (fallback env) [])) as [[blob name]|e2];
        [destruct (buffer env) as [[]|e3];
         [destruct (written env) as [[]|e4];
          [destruct (truthy (cache_uri env name));
           [destruct (saved env) as [[]|e5];
            [destruct (temp_exists env) as [[|]|e6]|]|]|]|]|];
        cbn [negb snd app In] in H;
        repeat (destruct H as [H|H];
                [first [discriminate
                       |left; rewrite <- H; cbn [In]; tauto]|]);
        destruct H. }
    destruct G as [G|(l & Hl & Hn)].
    + cbn [In] in G. destruct G as [G|[G|[G|[]]]]; try discriminate.
      injection G as <-. split; [reflexivity|]. split; [reflexivity|eauto].
    + exfalso. exact (Hn _ Hl r eq_refl).
Qed.

(** A retry after a failed download does not fetch the metadata again.
    With a ReelInfo held [handleRetry] is [handleDownload]; every request
    such a run makes is the POST to /download for the trimmed URL of the
    field, and it is made only when the permission was granted and the
    direct download threw.  With no ReelInfo held [handleRetry] is
    [handleFetchInfo]. *)
Theorem retry_resumes_where_it_failed (sess : Session.SessionState)
    (outcome : Fetched ReelInfo) (env : DownloadEnv) (w : World) :
  (reelInfo w = None ->
   handleRetry sess outcome env w = handleFetchInfo sess outcome w) /\
  (forall info, reelInfo w = Some info ->
     handleRetry sess outcome env w = handleDownload sess env w /\
     exists es,
       effects (snd (handleRetry sess outcome env w)) = effects w ++ es /\
       forall r, In (Http r) es ->
         r = Summary.post_request (js "/download") (trim (url w))
               DOWNLOAD_TIMEOUT_MS /\
         permission env = Ok (js "granted") /\
         exists e, native_download env = Throw e).
Proof.
  split.
  - intros H. unfold handleRetry, bind, get. rewrite H. reflexivity.
  - intros info H.
    assert (E : handleRetry sess outcome env w = handleDownload sess env w).
    { unfold handleRetry, bind, get. rewrite H. reflexivity. }
    split; [exact E|]. rewrite E, (handleDownload_run sess env w info H).
    eexists. split; [reflexivity|].
    intros r [Hr|Hr]; [discriminate|].
    exact (attempt_requests w info env r Hr).
Qed.

(** A retry after the refused download of the sample run. *)
Lemma retry_resumes_where_it_failed_witness :
  handleRetry Sample.logged_out Rejected Sample.proxied
    Sample.after_failed_download
  = handleDownload Sample.logged_out Sample.proxied
      Sample.after_failed_download.
Proof.
  apply (proj2 (retry_resumes_where_it_failed Sample.logged_out Rejected
                  Sample.proxied Sample.after_failed_download)
           Sample.info).
  reflexivity.
Defined.

End DownloadClaims.

(** * The home screen between handlers *)

Section MachineFacts.
Import Api Home Machine.

Lemma checkServerHealth_run (outcome : Fetched json) (log : list Request) :
  checkServerHealth outcome log
  = (Ok (Summary.health_verdict outcome),
     log ++ [{| req_method := GET;
                req_url := js "http://192.168.1.10:8000/";
                req_headers := [];
                req_body := None;
                req_timeout := HEALTH_TIMEOUT_MS |}]).
Proof.
  destruct outcome as [|r];
    cbv beta iota zeta delta [checkServerHealth bind try_catch
                                fetchWithTimeout modify throw ret read_body
                                of_res Summary.health_verdict];
    [reflexivity|].
  destruct (ok r); cbv beta iota delta [negb andb]; [|reflexivity].
  destruct (payload r) as [data|]; [|reflexivity].
  destruct data; try reflexivity.
Qed.

Lemma on_mount_run (outcome : Fetched json) (w : World) :
  on_mount outcome w
  = (Ok tt,
     {| url := url w; status := status w; reelInfo := reelInfo w;
        errorMessage := errorMessage w;
        serverOnline := Some (Summary.health_verdict outcome);
        is403 := is403 w;
        effects := effects w
                     ++ [Http {| req_method := GET;
                                 req_url := js "http://192.168.1.10:8000/";
                                 req_headers := [];
                                 req_body := None;
                                 req_timeout := HEALTH_TIMEOUT_MS |}] |}).
Proof.
  cbv beta iota zeta delta [on_mount bind call perform modify setServerOnline].
  rewrite checkServerHealth_run. reflexivity.
Qed.

Lemma handlePaste_run (clipboard : Res jsstring) (w : World) :
  handlePaste clipboard w
  = (Ok tt,
     {| url := match clipboard with
               | Ok (c :: content) => trim (c :: content)
               | _ => url w
               end;
        status := status w; reelInfo := reelInfo w;
        errorMessage := match clipboard with
                        | Ok (_ :: _) => []
                        | _ => errorMessage w
                        end;
        serverOnline := serverOnline w; is403 := is403 w;
        effects := effects w
                     ++ ClipboardRead
                        :: match clipboard with
                           | Ok _ => []
                           | Throw _ =>
                               [AlertShown (js "Error")
                                  (js "No se pudo acceder al portapapeles.")]
                           end |}).
Proof.
  cbv beta iota zeta delta [handlePaste bind try_catch perform modify of_res
                              setUrl setErrorMessage ret].
  destruct clipboard as [[|c content]|e]; cbn [truthy fst snd];
    cbn [url status reelInfo errorMessage serverOnline is403 effects];
    rewrite <- ?app_assoc; reflexivity.
Qed.

Lemma handleDownload_settled (sess : Session.SessionState)
    (env : DownloadEnv) (w : World) :
  settled w -> settled (snd (handleDownload sess env w)).
Proof.
  intros Hw. pose proof Hw as (H1 & H2 & H3).
  destruct (reelInfo w) as [info|] eqn:E.
  - rewrite (handleDownload_run sess env w info E). cbn [snd].
    unfold settled, Flow.downloaded_world. cbn [status reelInfo is403].
    rewrite E. split; [|split].
    + destruct (fst (Flow.attempt w info env)); auto.
    + intros _. discriminate.
    + intros H. apply H3 in H. destruct H as [H _]. discriminate H.
  - assert (N : handleDownload sess env w = (Ok tt, w)).
    { unfold handleDownload, bind, get. rewrite E. reflexivity. }
    rewrite N. exact Hw.
Qed.

Lemma machine_fetch_refused (sess : Session.SessionState)
    (outcome : Fetched Body) (w : World) :
  truthy (trim (url w)) = false \/
  test INSTAGRAM_URL_REGEX (trim (url w)) = false ->
  Machine.handleFetchInfo sess outcome w = (Ok tt, Summary.refused_world w).
Proof.
  intros H. unfold Summary.refused_world.
  cbv beta iota zeta delta [Machine.handleFetchInfo bind get perform
                              animateButton modify setErrorMessage].
  cbn [url status reelInfo errorMessage serverOnline is403 effects].
  rewrite <- app_assoc. cbn [app].
  destruct (truthy (trim (url w))) eqn:Ht; cbn [negb]; [|reflexivity].
  destruct H as [H|H]; [discriminate|]. rewrite H. reflexivity.
Qed.

Lemma machine_fetch_accepted (sess : Session.SessionState)
    (outcome : Fetched Body) (w : World) :
  truthy (trim (url w)) = true ->
  test INSTAGRAM_URL_REGEX (trim (url w)) = true ->
  Machine.handleFetchInfo sess outcome w
  = (Ok tt,
     Machine.fetched_world w (fst (fetchReelInfo (trim (url w)) outcome []))).
Proof.
  intros Ht Hr. unfold Machine.fetched_world.
  cbv beta iota zeta delta [Machine.handleFetchInfo bind get perform
                              animateButton modify setErrorMessage setReelInfo
                              setIs403 setStatus try_catch call
                              surplus_argument].
  cbn [url status reelInfo errorMessage serverOnline is403 effects].
  rewrite Ht, Hr. cbn [negb].
  rewrite fetchReelInfo_run.
  assert (E : forall l : list Effect,
             ((l ++ [KeyboardDismiss]) ++ [AnimateButton searchScale])
               ++ map Http ([] ++ [Summary.post_request (js "/info")
                                     (trim (url w)) INFO_TIMEOUT_MS])
             = l ++ [KeyboardDismiss; AnimateButton searchScale;
                     Http (Summary.post_request (js "/info") (trim (url w))
                             INFO_TIMEOUT_MS)]).
  { intros l. rewrite <- !app_assoc. reflexivity. }
  destruct outcome as [|r]; [|destruct (ok r); [destruct (payload r)|]];
    cbn [url status reelInfo errorMessage serverOnline is403 effects fst snd
         Summary.http_error];
    rewrite E; reflexivity.
Qed.

Lemma typed_run (u : jsstring) (outcome : Fetched ReelInfo)
    (log : list Request) :
  fst (fetchReelInfo u (typed outcome) log)
  = match fst (fetchReelInfo u outcome log) with
    | Ok info => Ok (Some info)
    | Throw e => Throw e
    end.
Proof.
  rewrite !fetchReelInfo_run. cbn [fst].
  destruct outcome as [|r]; [reflexivity|]. cbn [typed].
  unfold ok, Summary.http_error, Summary.server_detail.
  cbn [Api.status payload error_json].
  destruct ((200 <=? Api.status r)%Z && (Api.status r <=? 299)%Z);
    [destruct (payload r)|]; reflexivity.
Qed.

Lemma machine_fetch_typed (sess : Session.SessionState)
    (outcome : Fetched ReelInfo) (w : World) :
  Machine.handleFetchInfo sess (typed outcome) w
  = Home.handleFetchInfo sess outcome w.
Proof.
  destruct (truthy (trim (url w))) eqn:Ht;
    [destruct (test INSTAGRAM_URL_REGEX (trim (url w))) eqn:Hr|].
  - rewrite (machine_fetch_accepted sess (typed outcome) w Ht Hr),
      (handleFetchInfo_accepted sess outcome w Ht Hr), typed_run.
    unfold Machine.fetched_world, Summary.fetched_world.
    destruct (fst (fetchReelInfo (trim (url w)) outcome [])); reflexivity.
  - rewrite (machine_fetch_refused sess (typed outcome) w (or_intror Hr)),
      (handleFetchInfo_refused sess outcome w (or_intror Hr)). reflexivity.
  - rewrite (machine_fetch_refused sess (typed outcome) w (or_introl Ht)),
      (handleFetchInfo_refused sess outcome w (or_introl Ht)). reflexivity.
Qed.

Lemma handleFetchInfo_settled (sess : Session.SessionState)
    (outcome : Fetched Body) (w : World) :
  settled w -> settled (snd (Machine.handleFetchInfo sess outcome w)).
Proof.
  intros Hw. pose proof Hw as (H1 & H2 & H3).
  destruct (truthy (trim (url w))) eqn:Ht;
    [destruct (test INSTAGRAM_URL_REGEX (trim (url w))) eqn:Hr|].
  - rewrite (machine_fetch_accepted sess outcome w Ht Hr). cbn [snd].
    unfold settled, Machine.fetched_world. cbn [status reelInfo is403].
    destruct (fst (fetchReelInfo (trim (url w)) outcome [])) as [body|e].
    + split; [auto|]. split; [intros H; discriminate H|].
      intros H; discriminate H.
    + split; [auto|]. split; [intros H; discriminate H|]. auto.
  - rewrite (machine_fetch_refused sess outcome w (or_intror Hr)).
    exact Hw.
  - rewrite (machine_fetch_refused sess outcome w (or_introl Ht)).
    exact Hw.
Qed.

Lemma handler_settled (e : Event) (w : World) :
  settled w -> settled (snd (handler e w)).
Proof.
  intros Hw. pose proof Hw as (H1 & H2 & H3).
  destruct e as [outcome|clipboard| |text|sess outcome|sess env
                |sess outcome env| ]; cbn [handler].
  - rewrite on_mount_run. exact Hw.
  - rewrite handlePaste_run. exact Hw.
  - unfold settled. cbn. split; [auto|].
    split; intros H; discriminate H.
  - rewrite onChangeText_run. unfold settled. cbn [snd status reelInfo is403].
    split; [|split].
    + destruct H1 as [->|[->|[->| ->]]]; auto.
    + destruct H1 as [->|[->|[->| ->]]]; intros H; discriminate H.
    + intros H. apply H3 in H. destruct H as [E [S|S]]; rewrite S, E; auto.
  - apply handleFetchInfo_settled. exact Hw.
  - apply handleDownload_settled. exact Hw.
  - unfold Machine.handleRetry, bind, get. cbn [fst snd].
    destruct (reelInfo w) eqn:E.
    + apply handleDownload_settled. exact Hw.
    + apply handleFetchInfo_settled. exact Hw.
  - unfold settled. cbn. split; [auto|].
    split; intros H; discriminate H.
Qed.

Lemma run_settled (events : list Event) (w : World) :
  settled w -> settled (run events w).
Proof.
  revert w. induction events as [|e events IH]; intros w Hw; [exact Hw|].
  cbn [run fold_left]. apply IH. apply handler_settled. exact Hw.
Qed.

(** Invariants of the home screen.  After any sequence of handlers, run
    from the initial state, whatever the environment does and whether the
    body of an ok reply to /info is a ReelInfo or a falsy value such as
    [null], the status is [idle], [preview], [success] or [error]: no
    handler ends in a loading state and [checking_server] is never entered.
    A ReelInfo is held whenever the status is [success], and whenever the
    preview is shown.  The 403 flag is up only while no ReelInfo is held and
    the status is [idle] or [error], so the login prompt is only ever
    offered for a failed fetch.  The status [preview] alone does not tell
    that a ReelInfo is held: after an ok reply whose body is [null] the
    screen is in [preview], holds none and shows no preview.  On replies
    whose body is a ReelInfo the handler of the machine is
    [Home.handleFetchInfo]. *)
Theorem home_screen_invariants (events : list Event) :
  let w := run events initial in
  (status w = idle \/ status w = preview \/ status w = success
   \/ status w = error) /\
  status w <> checking_server /\
  isLoading w = false /\
  (status w = success -> reelInfo w <> None) /\
  (showPreview w = true -> reelInfo w <> None) /\
  (is403 w = true ->
   reelInfo w = None /\ (status w = idle \/ status w = error)) /\
  (forall sess text,
     Spec.reel_shaped (trim text) ->
     let null_body := Resolved (Sample.response 200 None (Some None)) in
     let w' := run [ChangeText text; FetchInfo sess null_body] initial in
     status w' = preview /\ reelInfo w' = None /\ showPreview w' = false) /\
  (forall sess outcome w0,
     Machine.handleFetchInfo sess (typed outcome) w0
     = Home.handleFetchInfo sess outcome w0).
Proof.
  intros w.
  assert (S0 : settled initial).
  { unfold settled. cbn. split; [auto|]. split; intros H; discriminate H. }
  destruct (run_settled events initial S0) as (H1 & H2 & H3).
  fold w in H1, H2, H3.
  split; [exact H1|]. split.
  { destruct H1 as [H|[H|[H|H]]]; rewrite H; discriminate. }
  split.
  { unfold isLoading. destruct H1 as [H|[H|[H|H]]]; rewrite H; reflexivity. }
  split; [exact H2|]. split.
  { unfold showPreview. destruct (reelInfo w); [discriminate|].
    intros H. discriminate H. }
  split; [exact H3|]. split; [|exact machine_fetch_typed].
  intros sess text Hshape null_body w'. subst w' null_body.
  cbn [run fold_left handler]. rewrite onChangeText_run. cbn [snd].
  rewrite machine_fetch_accepted;
    [|apply reel_shaped_truthy; exact Hshape
     |apply instagram_url_regex_spec; exact Hshape].
  cbn [snd]. rewrite fetchReelInfo_run.
  split; [reflexivity|]. split; reflexivity.
Qed.

(** A reply with the body [null] to the fetch of the sample url. *)
Lemma home_screen_invariants_witness :
  status (run [ChangeText Sample.reel_url;
               FetchInfo Sample.logged_out
                 (Resolved (Sample.response 200 None (Some None)))]
            initial) = preview /\
  reelInfo (run [ChangeText Sample.reel_url;
                 FetchInfo Sample.logged_out
                   (Resolved (Sample.response 200 None (Some None)))]
              initial) = None.
Proof.
  pose proof (home_screen_invariants []) as (_ & _ & _ & _ & _ & _ & H & _).
  destruct (H Sample.logged_out Sample.reel_url) as (S & R & _).
  - apply instagram_url_regex_spec. reflexivity.
  - split; [exact S|exact R].
Defined.

(** Pasting is not typing.  [handlePaste] never throws and never touches
    the status, the held ReelInfo or the 403 flag, so a preview that is
    shown stays shown next to the pasted URL.  A clipboard text that is not
    empty replaces the URL by its trimmed form and clears the error message;
    an empty clipboard changes nothing; a clipboard that cannot be read
    raises one alert and changes nothing else.  No request is made. *)
Theorem paste_keeps_the_preview (clipboard : Res jsstring) (w : World) :
  let w' := snd (handlePaste clipboard w) in
  fst (handlePaste clipboard w) = Ok tt /\
  status w' = status w /\ reelInfo w' = reelInfo w /\ is403 w' = is403 w /\
  showPreview w' = showPreview w /\
  Summary.requests_of (effects w') = Summary.requests_of (effects w) /\
  (forall content, clipboard = Ok content -> content <> [] ->
     url w' = trim content /\ errorMessage w' = []) /\
  (clipboard = Ok [] ->
     url w' = url w /\ errorMessage w' = errorMessage w /\
     effects w' = effects w ++ [ClipboardRead]) /\
  (forall e, clipboard = Throw e ->
     url w' = url w /\ errorMessage w' = errorMessage w /\
     effects w'
     = effects w ++ [ClipboardRead;
                     AlertShown (js "Error")
                       (js "No se pudo acceder al portapapeles.")]).
Proof.
  intros w'. subst w'. rewrite handlePaste_run.
  cbn [fst snd url status reelInfo errorMessage is403 effects].
  split; [reflexivity|]. do 3 (split; [reflexivity|]).
  split; [reflexivity|]. split.
  { assert (R : forall a b, Summary.requests_of (a ++ b)
                            = Summary.requests_of a ++ Summary.requests_of b).
    { intros a b. induction a as [|x a IH]; [reflexivity|].
      destruct x; cbn [app Summary.requests_of]; rewrite ?IH; reflexivity. }
    rewrite R. destruct clipboard; cbn [Summary.requests_of];
      apply app_nil_r. }
  split; [|split].
  - intros content -> Hne. destruct content; [congruence|]. split; reflexivity.
  - intros ->. repeat split; reflexivity.
  - intros e ->. repeat split; reflexivity.
Qed.

(** A URL pasted over the preview of the sample run. *)
Lemma paste_keeps_the_preview_witness :
  url (snd (handlePaste (Ok (js " https://www.instagram.com/p/XYZ "))
              (snd (Home.handleFetchInfo Sample.logged_out
                      (Resolved (Sample.response 200 None (Some Sample.info)))
                      (Sample.typed Sample.reel_url)))))
  = js "https://www.instagram.com/p/XYZ".
Proof.
  pose proof (paste_keeps_the_preview
                (Ok (js " https://www.instagram.com/p/XYZ "))
                (snd (Home.handleFetchInfo Sample.logged_out
                        (Resolved (Sample.response 200 None
                                     (Some Sample.info)))
                        (Sample.typed Sample.reel_url))))
    as (_ & _ & _ & _ & _ & _ & H & _).
  apply (H (js " https://www.instagram.com/p/XYZ ") eq_refl).
  discriminate.
Defined.

(** The health check at mount never throws and stays out of the flow: it
    makes one GET to the root of the server with the 5 s limit, sets the
    server flag to a definite value, and leaves the URL, the status, the
    held ReelInfo, the error message and the 403 flag as they were.  The
    flag is true exactly when the response is 2xx with a JSON body whose
    status is ok. *)
Theorem health_check_only_sets_server_flag (outcome : Fetched json)
    (w : World) :
  let w' := snd (on_mount outcome w) in
  fst (on_mount outcome w) = Ok tt /\
  url w' = url w /\ status w' = status w /\ reelInfo w' = reelInfo w /\
  errorMessage w' = errorMessage w /\ is403 w' = is403 w /\
  (exists b, serverOnline w' = Some b) /\
  (serverOnline w' = Some true <->
   exists r data,
     outcome = Resolved r /\ (200 <= Api.status r <= 299)%Z /\
     payload r = Some data /\
     get_prop data (js "status") = Ok (Value (JStr (js "ok")))) /\
  effects w'
  = effects w ++ [Http {| req_method := GET;
                          req_url := js "http://192.168.1.10:8000/";
                          req_headers := [];
                          req_body := None;
                          req_timeout := 5000 |}].
Proof.
  intros w'. subst w'. rewrite on_mount_run.
  cbn [fst snd url status reelInfo errorMessage serverOnline is403 effects].
  do 6 (split; [reflexivity|]). split; [eauto|]. split; [|reflexivity].
  rewrite <- health_verdict_true. split; congruence.
Qed.

End MachineFacts.

(** * The session screen *)

Section ManualSave.
Import Session SessionScreen Summary.

(** Every run of [handleManualSave] ends normally and shows exactly one
    alert.  An empty text, a text that gives no cookie and a text without a
    usable sessionid each get their own error message and change nothing.
    When the cookies are accepted and the secure store takes the write, the
    session is saved and stored, the field is emptied and the import view
    closed.  When the store rejects the write, the alert speaks of an
    invalid format, the text and the view stay, the store keeps what it
    held, and yet the session in memory is already the new, logged-in one. *)
Theorem manual_save_outcomes (resolves : bool) (w : World) :
  let text := trim (manualCookies w) in
  let cs := parse_cookies text in
  let w' := snd (handleManualSave resolves w) in
  fst (handleManualSave resolves w) = Ok tt /\
  (exists title message, alerts w' = alerts w ++ [(title, message)]) /\
  (text = [] ->
   w' = {| manualCookies := manualCookies w;
           showManualInput := showManualInput w;
           provider := provider w;
           alerts := alerts w ++ [(js "Error",
                                   js "Pega tus cookies primero.")] |}) /\
  (text <> [] -> cs = [] ->
   w' = {| manualCookies := manualCookies w;
           showManualInput := showManualInput w;
           provider := provider w;
           alerts := alerts w
                       ++ [(js "Error",
                            js "No se pudieron parsear las cookies. Verifica el formato.")] |}) /\
  (cs <> [] -> hasSession cs = false ->
   w' = {| manualCookies := manualCookies w;
           showManualInput := showManualInput w;
           provider := provider w;
           alerts := alerts w
                       ++ [(js "Error",
                            js "No se encontro la cookie " ++ [34%N]
                              ++ js "sessionid" ++ [34%N]
                              ++ js ". Asegurate de incluirla.")] |}) /\
  (hasSession cs = true -> resolves = true ->
   w' = {| manualCookies := [];
           showManualInput := false;
           provider := {| session := imported cs;
                          isLoading := isLoading (provider w);
                          secure_store := Some (Encoded (imported cs)) |};
           alerts := alerts w
                       ++ [(js "Listo!",
                            js "Cookies guardadas correctamente.")] |}) /\
  (hasSession cs = true -> resolves = false ->
   w' = {| manualCookies := manualCookies w;
           showManualInput := showManualInput w;
           provider := {| session := imported cs;
                          isLoading := isLoading (provider w);
                          secure_store := secure_store (provider w) |};
           alerts := alerts w
                       ++ [(js "Error",
                            js "Formato de cookies no valido.")] |} /\
   isLoggedIn (session (provider w')) = true).
Proof.
  intros text cs w'. subst w'.
  cbv beta iota zeta delta [handleManualSave bind get try_catch alert modify
                              in_provider saveCookies setSession setItemAsync
                              setManualCookies setShowManualInput throw].
  fold text. fold cs. fold (hasSession cs).
  destruct (truthy text) eqn:Ht; cbn [negb].
  2:{ apply truthy_false in Ht. cbn [fst snd alerts].
      split; [reflexivity|]. split; [eauto|].
      split; [reflexivity|]. split; [congruence|].
      assert (Hcs : cs = []) by (subst cs; rewrite Ht; reflexivity).
      split; [congruence|]. rewrite Hcs.
      split; [discriminate|discriminate]. }
  apply truthy_true in Ht.
  destruct cs as [|c cs'] eqn:Ecs; cbn [List.length Nat.eqb].
  { cbn [fst snd alerts]. split; [reflexivity|]. split; [eauto|].
    split; [congruence|]. split; [reflexivity|]. split; [congruence|].
    split; discriminate. }
  destruct (hasSession (c :: cs')) eqn:Hs; cbn [negb].
  2:{ cbn [fst snd alerts]. split; [reflexivity|]. split; [eauto|].
      split; [congruence|]. split; [discriminate|]. split; [reflexivity|].
      split; discriminate. }
  unfold imported.
  destruct (find (fun c0 => str_eqb (name c0) (js "ds_user_id")) (c :: cs'));
    destruct resolves; cbn [fst snd alerts manualCookies showManualInput
                            provider session isLoading secure_store].
  all: split; [reflexivity|]; split; [eauto|]; split; [congruence|].
  all: split; [discriminate|]; split; [discriminate|].
  all: split; [first [discriminate | reflexivity]|].
  all: first [discriminate | intros _ _; split; [reflexivity|exact Hs]].
Qed.

(** The import of the example with a store that rejects the write. *)
Lemma manual_save_outcomes_witness :
  manualCookies (snd (handleManualSave false (Sample.pasted Sample.pair_text)))
  = Sample.pair_text /\
  isLoggedIn
    (session (provider (snd (handleManualSave false
                               (Sample.pasted Sample.pair_text))))) = true.
Proof.
  pose proof (manual_save_outcomes false (Sample.pasted Sample.pair_text))
    as (_ & _ & _ & _ & _ & _ & H).
  destruct (H eq_refl eq_refl) as [E L].
  split; [rewrite E; reflexivity|exact L].
Defined.

End ManualSave.

(** * The in-app login *)

Section WebLoginFacts.
Import Session SessionScreen WebLogin.

Lemma startsWith_app (s p q : jsstring) :
  startsWith s (p ++ q) = true -> startsWith s p = true.
Proof.
  unfold startsWith. revert s.
  induction p as [|a p IH]; intros s H; [reflexivity|].
  destruct s as [|b s]; cbn [app strip_prefix] in *; [discriminate|].
  destruct (cu_eqb a b); [apply IH; exact H|discriminate].
Qed.

Lemma includes_app (s p q : jsstring) :
  includes s (p ++ q) = true -> includes s p = true.
Proof.
  induction s as [|c s IH]; cbn [includes]; intros H;
    apply orb_true_iff in H as [H|H]; apply orb_true_iff.
  - left. exact (startsWith_app _ _ _ H).
  - discriminate.
  - left. exact (startsWith_app _ _ _ H).
  - right. exact (IH H).
Qed.

Lemma isLoggedInNow_trigger (url : jsstring) :
  isLoggedInNow url && negb (includes url (js "/accounts/")) = triggers url.
Proof.
  unfold isLoggedInNow, triggers.
  destruct (str_eqb url (INSTAGRAM_BASE ++ js "/")) eqn:E1.
  { apply str_eqb_eq in E1. subst url. vm_compute. reflexivity. }
  destruct (str_eqb url INSTAGRAM_BASE) eqn:E2.
  { apply str_eqb_eq in E2. subst url. vm_compute. reflexivity. }
  cbn [orb].
  destruct (includes url (js "/accounts/login")) eqn:L.
  - change (js "/accounts/login") with (js "/accounts/" ++ js "login") in L.
    apply includes_app in L. rewrite L.
    destruct (startsWith url INSTAGRAM_BASE); reflexivity.
  - destruct (startsWith url INSTAGRAM_BASE),
      (includes url (js "/accounts/")), (includes url (js "/challenge"));
      reflexivity.
Qed.

(** A navigation of the login view sets the timer of [extractCookies],
    once and with 1500 ms, exactly when the url starts with the Instagram
    base and contains neither /accounts/ nor /challenge; nothing else of the
    screen changes, and it never throws.  The two comparisons with the base
    and the test for /accounts/login add nothing to this. *)
Theorem navigation_sets_timer_off_account_pages (url : jsstring) (w : World) :
  handleNavigationChange url w
  = (Ok tt,
     if startsWith url INSTAGRAM_BASE
        && negb (includes url (js "/accounts/"))
        && negb (includes url (js "/challenge"))
     then {| screen := screen w; showWebView := showWebView w;
             webViewLoading := webViewLoading w;
             timers := timers w ++ [1500%N];
             clearAll_calls := clearAll_calls w |}
     else w).
Proof.
  unfold handleNavigationChange. rewrite isLoggedInNow_trigger.
  unfold triggers.
  destruct (startsWith url INSTAGRAM_BASE
            && negb (includes url (js "/accounts/"))
            && negb (includes url (js "/challenge"))); reflexivity.
Qed.

Lemma session_found_logged_in (cs : list InstagramCookie)
    (u : option jsstring) :
  session_found cs = true -> isLoggedIn (More.saved_session cs u) = true.
Proof.
  unfold session_found, isLoggedIn. cbn [More.saved_session cookies].
  destruct (find (fun c => str_eqb (name c) (js "sessionid")) cs) as [c|] eqn:F;
    [|discriminate].
  intros T. apply find_some in F as [Hin Hn].
  apply existsb_exists. exists c. split; [exact Hin|].
  rewrite Hn, T. reflexivity.
Qed.

Lemma prop_or_default_nonempty (a : option jsstring) (b : jsstring) :
  b <> [] -> prop_or_default a b <> [].
Proof.
  intros Hb. destruct a as [[|c s]|]; cbn; [exact Hb|discriminate|exact Hb].
Qed.

Lemma cookie_of_defaults (raw : list (jsstring * RawCookie)) :
  Forall (fun c => secure c = true /\ domain c <> [] /\ path c <> []
                   /\ httpOnly c = str_eqb (name c) (js "sessionid"))
         (map cookie_of raw).
Proof.
  apply Forall_forall. intros c Hin. apply in_map_iff in Hin as (e & <- & _).
  cbn [cookie_of secure domain path httpOnly name].
  split; [reflexivity|].
  split; [apply prop_or_default_nonempty; discriminate|].
  split; [apply prop_or_default_nonempty; discriminate|reflexivity].
Qed.

(** What [extractCookies] does in each case.  It never throws and, but
    without the cookie module, where it does nothing at all, shows exactly
    one alert.  Every cookie it builds is secure and has a domain and a
    path.  A failed [get] and a cookie set whose first sessionid is absent
    or empty change nothing but the alerts.  Otherwise the cookies become
    the session, which is then logged in; with a store that takes the write
    the session is stored and the login view closed, and with a store that
    rejects it the view stays open and the store as it was, under the alert
    of a failed extraction. *)
Theorem extractCookies_outcomes (manager : option CookieManager)
    (resolves : bool) (w : World) :
  let w' := snd (extractCookies manager resolves w) in
  fst (extractCookies manager resolves w) = Ok tt /\
  (manager = None -> w' = w) /\
  (forall m, manager = Some m -> get_cookies m INSTAGRAM_BASE = None ->
     w' = alerted w (js "Error")
            (js "No se pudieron extraer las cookies. Intenta de nuevo.")) /\
  (forall m raw,
     manager = Some m -> get_cookies m INSTAGRAM_BASE = Some raw ->
     Forall (fun c => secure c = true /\ domain c <> [] /\ path c <> []
                      /\ httpOnly c = str_eqb (name c) (js "sessionid"))
            (map cookie_of raw) /\
     (session_found (map cookie_of raw) = false ->
      w' = alerted w (js "Sesion incompleta")
             (js "No se detectaron cookies de sesion. Asegurate de iniciar sesion completamente y presiona "
                ++ [34%N] ++ js "Listo" ++ [34%N] ++ js ".")) /\
     (session_found (map cookie_of raw) = true ->
      cookies (session (provider (screen w'))) = map cookie_of raw /\
      isLoggedIn (session (provider (screen w'))) = true /\
      secure_store (provider (screen w'))
      = (if resolves then Some (Encoded (session (provider (screen w'))))
         else secure_store (provider (screen w))) /\
      showWebView w' = (if resolves then false else showWebView w) /\
      alerts (screen w')
      = alerts (screen w)
          ++ [if resolves
              then (js "Listo!",
                    js "Sesion de Instagram guardada correctamente.")
              else (js "Error",
                    js "No se pudieron extraer las cookies. Intenta de nuevo.")])).
Proof.
  intros w'. subst w'.
  destruct manager as [m|].
  2:{ split; [reflexivity|]. split; [reflexivity|].
      split; [discriminate|discriminate]. }
  cbv beta iota zeta delta [extractCookies bind get try_catch WebLogin.alert
                              modify in_screen SessionScreen.alert in_provider
                              saveCookies setSession setItemAsync
                              setShowWebView throw call_get ret].
  destruct (get_cookies m INSTAGRAM_BASE) as [raw|] eqn:G.
  2:{ cbn [fst snd]. split; [reflexivity|]. split; [discriminate|].
      split; [reflexivity|]. intros m' raw' Hm Hr.
      injection Hm as <-. rewrite G in Hr. discriminate Hr. }
  fold (session_found (map cookie_of raw)).
  destruct (session_found (map cookie_of raw)) eqn:F; cbn [negb].
  2:{ cbn [fst snd]. split; [reflexivity|]. split; [discriminate|].
      split.
      { intros m' Hm Hr. injection Hm as <-. rewrite G in Hr.
        discriminate Hr. }
      intros m' raw' Hm Hr.
      injection Hm as <-. rewrite G in Hr. injection Hr as <-.
      split; [apply cookie_of_defaults|]. rewrite F.
      split; [reflexivity|discriminate]. }
  pose proof (session_found_logged_in (map cookie_of raw)
                (match find (fun c => str_eqb (name c) (js "ds_user_id"))
                         (map cookie_of raw)
                 with Some c => Some (value c) | None => None end) F) as L.
  unfold More.saved_session in L.
  destruct resolves;
    cbn [fst snd screen provider session secure_store alerts showWebView
         cookies].
  all: split; [reflexivity|]; split; [discriminate|].
  all: split;
    [intros m' Hm Hr; injection Hm as <-; rewrite G in Hr; discriminate Hr|].
  all: intros m' raw' Hm Hr; injection Hm as <-; rewrite G in Hr;
    injection Hr as <-.
  all: split; [apply cookie_of_defaults|]; rewrite F.
  all: split; [discriminate|]; intros _.
  all: split; [reflexivity|]; split; [exact L|].
  all: split; [reflexivity|]; split; reflexivity.
Qed.

(** The login view of the example, closed by a store that takes the
    write. *)
Lemma extractCookies_outcomes_witness :
  isLoggedIn
    (session (provider (screen (snd (extractCookies (Some Sample2.jar) true
                                       Sample2.fresh_screen))))) = true /\
  showWebView (snd (extractCookies (Some Sample2.jar) true
                      Sample2.fresh_screen)) = false.
Proof.
  pose proof (extractCookies_outcomes (Some Sample2.jar) true
                Sample2.fresh_screen) as (_ & _ & _ & H).
  destruct (H Sample2.jar _ eq_refl eq_refl) as (_ & _ & K).
  destruct (K eq_refl) as (_ & L & _ & V & _).
  split; [exact L|exact V].
Defined.

Lemma extractCookies_provider (manager : option CookieManager)
    (resolves : bool) (w : World) :
  provider (screen (snd (extractCookies manager resolves w)))
  = provider (screen w) \/
  exists cs u,
    session_found cs = true /\
    provider (screen (snd (extractCookies manager resolves w)))
    = {| session := More.saved_session cs u;
         isLoading := isLoading (provider (screen w));
         secure_store :=
           if resolves then Some (Encoded (More.saved_session cs u))
           else secure_store (provider (screen w)) |}.
Proof.
  destruct manager as [m|]; [|left; reflexivity].
  cbv beta iota zeta delta [extractCookies bind get try_catch WebLogin.alert
                              modify in_screen SessionScreen.alert in_provider
                              saveCookies setSession setItemAsync
                              setShowWebView throw call_get ret].
  destruct (get_cookies m INSTAGRAM_BASE) as [raw|]; [|left; reflexivity].
  fold (session_found (map cookie_of raw)).
  destruct (session_found (map cookie_of raw)) eqn:F; cbn [negb];
    [|left; reflexivity].
  right. exists (map cookie_of raw).
  exists (match find (fun c => str_eqb (name c) (js "ds_user_id"))
                  (map cookie_of raw)
          with Some c => Some (value c) | None => None end).
  split; [exact F|]. unfold More.saved_session.
  destruct resolves; reflexivity.
Qed.

Lemma handleManualSave_provider (resolves : bool) (w : SessionScreen.World) :
  provider (snd (handleManualSave resolves w)) = provider w \/
  exists cs u,
    Summary.hasSession cs = true /\
    provider (snd (handleManualSave resolves w))
    = {| session := More.saved_session cs u;
         isLoading := isLoading (provider w);
         secure_store :=
           if resolves then Some (Encoded (More.saved_session cs u))
           else secure_store (provider w) |}.
Proof.
  destruct (Summary.hasSession (parse_cookies (trim (manualCookies w))))
    eqn:H.
  2:{ left. exact (proj1 (handleManualSave_rejects resolves w H)). }
  right. destruct (hasSession_nonempty _ H) as [Ht Hn].
  exists (parse_cookies (trim (manualCookies w))).
  exists (match find (fun c => str_eqb (name c) (js "ds_user_id"))
                  (parse_cookies (trim (manualCookies w)))
          with Some c => Some (value c) | None => None end).
  split; [exact H|].
  cbv beta iota zeta delta [handleManualSave bind get try_catch
                              SessionScreen.alert modify
                              in_provider saveCookies setSession setItemAsync
                              setManualCookies setShowManualInput throw].
  rewrite Ht. cbn [negb]. rewrite Hn.
  fold (Summary.hasSession (parse_cookies (trim (manualCookies w)))).
  rewrite H. cbn [negb]. unfold More.saved_session.
  destruct resolves; reflexivity.
Qed.

Lemma clear_jar_screen (manager : option CookieManager) (w : World) :
  fst (clear_jar manager w) = Ok tt /\
  screen (snd (clear_jar manager w)) = screen w.
Proof.
  destruct manager as [m|]; [|split; reflexivity].
  cbv beta iota zeta delta [clear_jar call_clearAll try_catch bind modify ret
                              throw].
  destruct (clearAll m); split; reflexivity.
Qed.

Lemma saved_guarded (cs : list InstagramCookie) (u : option jsstring)
    (resolves l : bool) (p : Session.World) :
  isLoggedIn (More.saved_session cs u) = true ->
  guarded p ->
  guarded {| session := More.saved_session cs u;
             isLoading := l;
             secure_store :=
               if resolves then Some (Encoded (More.saved_session cs u))
               else secure_store p |}.
Proof.
  intros L [_ G]. split; cbn [session secure_store]; [right; exact L|].
  intros s. destruct resolves; [|apply G].
  intros E. injection E as <-. right. exact L.
Qed.

Lemma handler_guarded (e : Event) (w : World) :
  guarded (provider (screen w)) ->
  guarded (provider (screen (snd (handler e w)))).
Proof.
  intros G. destruct e as [text|r|m|url| | |m r|m r]; cbn [handler].
  - exact G.
  - unfold in_screen.
    destruct (handleManualSave r (screen w)) as [res s] eqn:E.
    cbn [snd screen].
    pose proof (handleManualSave_provider r (screen w)) as P.
    rewrite E in P. cbn [snd] in P.
    destruct P as [P|(cs & u & H & P)]; rewrite P; [exact G|].
    apply saved_guarded; [|exact G].
    exact H.
  - unfold handleOpenLogin, bind.
    pose proof (clear_jar_screen m w) as [R S].
    destruct (clear_jar m w) as [res w1]. cbn [fst snd] in R, S.
    rewrite R. cbn [setWebViewLoading setShowWebView modify snd screen].
    rewrite S. exact G.
  - unfold handleNavigationChange. rewrite isLoggedInNow_trigger.
    destruct (triggers url); exact G.
  - exact G.
  - exact G.
  - destruct (extractCookies_provider m r w) as [P|(cs & u & F & P)];
      rewrite P; [exact G|].
    apply saved_guarded; [|exact G].
    apply session_found_logged_in. exact F.
  - unfold handleLogout_onPress, bind.
    pose proof (clear_jar_screen m w) as [R S].
    destruct (clear_jar m w) as [res w1]. cbn [fst snd] in R, S.
    rewrite R. unfold in_screen, in_provider.
    rewrite clearSession_cases. cbn [snd screen provider]. rewrite S.
    destruct G as [_ G].
    split; cbn [session secure_store cookies]; [left; reflexivity|].
    destruct r; [discriminate|exact G].
Qed.

(** Whatever is done on the session screen (typing and saving cookies by
    hand, opening, navigating, closing and finishing the in-app login,
    logging out) and whichever store and cookie-module calls fail, a
    provider that neither holds nor stores a cookie set without a sessionid
    stays so: the session in memory is empty or logged in, and so is the
    stored one. *)
Theorem session_screen_keeps_sessions_usable (events : list Event)
    (w : World) :
  guarded (provider (screen w)) ->
  guarded (provider (screen (run events w))).
Proof.
  unfold run. revert w.
  induction events as [|e events IH]; intros w G; cbn [fold_left];
    [exact G|].
  apply IH. apply handler_guarded. exact G.
Qed.

(** A login that cannot be stored, followed by a logout, on a fresh
    install. *)
Lemma session_screen_keeps_sessions_usable_witness :
  guarded
    (provider (screen (run [OpenLogin (Some Sample2.jar);
                            Navigate (js "https://www.instagram.com/");
                            Done (Some Sample2.jar) false;
                            Logout (Some Sample2.jar) true]
                           Sample2.fresh_screen))).
Proof.
  apply (session_screen_keeps_sessions_usable
           [OpenLogin (Some Sample2.jar);
            Navigate (js "https://www.instagram.com/");
            Done (Some Sample2.jar) false;
            Logout (Some Sample2.jar) true]
           Sample2.fresh_screen).
  split; [left; reflexivity|intros s H; discriminate H].
Defined.

End WebLoginFacts.

(** * The history screen and the remaining checks *)

Section HistoryScreenFacts.
Import HistoryScreen.

(** The age shown for a record.  The clock being within the range of
    [Date], as every reading of it is, a time stamp beyond that range gives
    the text of an invalid date.  Otherwise the text depends only on the
    time passed since the download: under a minute, and for a record dated
    in the future, it is Ahora; then whole minutes from 1 to 59, whole hours
    from 1 to 23 and whole days from 1 to 6, each rounded down; from seven
    days on the locale's date of the download. *)
Theorem formatDate_bands (locale : N -> jsstring) (now timestamp : N) :
  (now <= MAX_TIME)%N ->
  let diff := (Z.of_N now - Z.of_N timestamp)%Z in
  ((MAX_TIME < timestamp)%N ->
   formatDate locale now timestamp = js "Invalid Date") /\
  ((timestamp <= MAX_TIME)%N ->
   ((diff < 60000)%Z -> formatDate locale now timestamp = js "Ahora") /\
   ((60000 <= diff < 3600000)%Z ->
    (1 <= diff / 60000 <= 59)%Z /\
    formatDate locale now timestamp
    = js "Hace " ++ decimal (Z.to_N (diff / 60000)) ++ js " min") /\
   ((3600000 <= diff < 86400000)%Z ->
    (1 <= diff / 3600000 <= 23)%Z /\
    formatDate locale now timestamp
    = js "Hace " ++ decimal (Z.to_N (diff / 3600000)) ++ js "h") /\
   ((86400000 <= diff < 604800000)%Z ->
    (1 <= diff / 86400000 <= 6)%Z /\
    formatDate locale now timestamp
    = js "Hace " ++ decimal (Z.to_N (diff / 86400000)) ++ js "d") /\
   ((604800000 <= diff)%Z ->
    formatDate locale now timestamp = locale timestamp)).
Proof.
  intros _ diff. unfold formatDate, time_clip. split.
  { intros H. apply N.leb_gt in H. rewrite H. reflexivity. }
  intros H. apply N.leb_le in H. rewrite H. fold diff.
  generalize diff. clear diff H. intros d.
  pose proof (Z.div_mod d 60000 ltac:(lia)) as M1.
  pose proof (Z.mod_pos_bound d 60000 ltac:(lia)) as M2.
  pose proof (Z.div_mod d 3600000 ltac:(lia)) as H1.
  pose proof (Z.mod_pos_bound d 3600000 ltac:(lia)) as H2.
  pose proof (Z.div_mod d 86400000 ltac:(lia)) as D1.
  pose proof (Z.mod_pos_bound d 86400000 ltac:(lia)) as D2.
  destruct (Z.ltb_spec (d / 60000) 1), (Z.ltb_spec (d / 60000) 60),
    (Z.ltb_spec (d / 3600000) 24), (Z.ltb_spec (d / 86400000) 7).
  all: split; [intros ?; first [reflexivity | exfalso; lia]|].
  all: split; [intros ?; first [split; [lia|reflexivity] | exfalso; lia]|].
  all: split; [intros ?; first [split; [lia|reflexivity] | exfalso; lia]|].
  all: split; [intros ?; first [split; [lia|reflexivity] | exfalso; lia]|].
  all: intros ?; first [reflexivity | exfalso; lia].
Qed.

(** A record downloaded five minutes ago, and one dated beyond the range of
    [Date]. *)
Lemma formatDate_bands_witness :
  formatDate (fun _ => js "14 nov") 1700000300000 1700000000000
  = js "Hace 5 min" /\
  formatDate (fun _ => js "14 nov") 1700000300000 8640000000000001
  = js "Invalid Date".
Proof.
  split.
  - apply (proj1 (proj2 (proj2 (formatDate_bands (fun _ => js "14 nov")
                                  1700000300000 1700000000000
                                  ltac:(vm_compute; discriminate))
                           ltac:(vm_compute; discriminate)))).
    lia.
  - apply (proj1 (formatDate_bands (fun _ => js "14 nov")
                    1700000300000 8640000000000001
                    ltac:(vm_compute; discriminate))).
    reflexivity.
Defined.

End HistoryScreenFacts.

Section UrlCheck.
Import Home.

(** The pattern of the url check has no end anchor: a text it accepts is
    still accepted with anything appended, a query string as much as
    arbitrary text. *)
Theorem url_check_ignores_what_follows (s rest : jsstring) :
  test INSTAGRAM_URL_REGEX s = true ->
  test INSTAGRAM_URL_REGEX (s ++ rest) = true.
Proof.
  rewrite !instagram_url_regex_spec.
  intros (scheme & www & segment & c & tail & H1 & H2 & H3 & H4 & ->).
  exists scheme, www, segment, c, (tail ++ rest).
  split; [exact H1|]. split; [exact H2|]. split; [exact H3|].
  split; [exact H4|].
  rewrite <- ?app_assoc. cbn [app]. rewrite <- ?app_assoc. reflexivity.
Qed.

(** A reel url followed by text that is not part of any url. *)
Lemma url_check_ignores_what_follows_witness :
  test INSTAGRAM_URL_REGEX (Sample.reel_url ++ js " y algo mas") = true.
Proof.
  apply (url_check_ignores_what_follows Sample.reel_url (js " y algo mas")).
  vm_compute. reflexivity.
Defined.

End UrlCheck.

Section HistoryLoad.
Import History.

Lemma raw_history_load_cases (resolves : bool) (w : RawHistory.World) :
  RawHistory.load resolves w
  = (Ok tt,
     {| RawHistory.history :=
          match resolves, RawHistory.async_storage w with
          | true, Some (Parsed v) => v
          | _, _ => RawHistory.history w
          end;
        RawHistory.isLoading := false;
        RawHistory.async_storage := RawHistory.async_storage w |}).
Proof.
  destruct resolves;
    cbv beta iota zeta delta [RawHistory.load bind try_catch
                                RawHistory.getItem RawHistory.setHistory
                                RawHistory.setIsLoading modify get ret throw];
    [|reflexivity].
  destruct w as [h0 l0 st]. cbn [RawHistory.async_storage].
  destruct st as [[| |v]|]; reflexivity.
Qed.

Lemma history_load_cases (resolves : bool) (w : World) :
  load resolves w
  = (Ok tt,
     {| history := match resolves, async_storage w with
                   | true, Some (Encoded records) => records
                   | _, _ => history w
                   end;
        isLoading := false;
        async_storage := async_storage w |}).
Proof.
  destruct resolves;
    cbv beta iota zeta delta [load bind try_catch getItem setHistory
                                setIsLoading modify get ret throw];
    [|reflexivity].
  destruct w as [h0 l0 st]. cbn [async_storage].
  destruct st as [[|records]|]; reflexivity.
Qed.

(** The mount effect of the history provider checks nothing of what it
    reads.  It never throws, always ends the loading phase and leaves the
    store untouched.  When the store answers with a text that parses, the
    parsed value becomes the history whatever it is, a list or not; a list
    of records is shown whole, of whatever length, the cap of [addRecord]
    not being applied to what is loaded.  When the store fails, is empty, or
    holds an empty or unparsable text, a fresh provider shows the empty
    history.  On stores the provider wrote, the effect is the one described
    by [History.load]. *)
Theorem history_load_is_fail_safe (resolves : bool) (store : option Item) :
  let w' := snd (RawHistory.load resolves (RawHistory.initial store)) in
  fst (RawHistory.load resolves (RawHistory.initial store)) = Ok tt /\
  RawHistory.isLoading w' = false /\
  RawHistory.async_storage w' = store /\
  (forall v, resolves = true -> store = Some (Parsed v) ->
             RawHistory.history w' = v) /\
  (forall records : list DownloadRecord,
     resolves = true ->
     store = Some (Parsed (RawHistory.history_json records)) ->
     RawHistory.history w' = JArr (map RawHistory.record_json records)) /\
  (resolves = false \/ store = None \/ store = Some EmptyText
   \/ store = Some Unparsable ->
   RawHistory.history w' = JArr []) /\
  (forall (r : bool) (w : World),
     RawHistory.load r (RawHistory.world_of w)
     = (Ok tt, RawHistory.world_of (snd (load r w)))).
Proof.
  intros w'. subst w'. rewrite raw_history_load_cases.
  cbn [fst snd RawHistory.initial RawHistory.history RawHistory.isLoading
       RawHistory.async_storage].
  split; [reflexivity|]. split; [reflexivity|]. split; [reflexivity|]. split.
  { intros v -> ->. reflexivity. }
  split.
  { intros records -> ->. reflexivity. }
  split.
  { intros [->|[->|[->| ->]]]; [destruct store as [[| |v]|]|destruct resolves
                               |destruct resolves|destruct resolves];
      reflexivity. }
  intros r w. rewrite raw_history_load_cases, history_load_cases.
  unfold RawHistory.world_of.
  cbn [snd history isLoading async_storage RawHistory.history
       RawHistory.async_storage].
  destruct r, (async_storage w) as [[|records]|]; reflexivity.
Qed.

(** The mount effect over a store that holds the text [null], and over one
    that fails. *)
Lemma history_load_is_fail_safe_witness :
  RawHistory.history
    (snd (RawHistory.load true (RawHistory.initial (Some (Parsed JNull)))))
  = JNull /\
  RawHistory.history
    (snd (RawHistory.load false (RawHistory.initial (Some (Parsed JNull)))))
  = JArr [].
Proof.
  split.
  - pose proof (history_load_is_fail_safe true (Some (Parsed JNull)))
      as (_ & _ & _ & A & _).
    exact (A JNull eq_refl eq_refl).
  - pose proof (history_load_is_fail_safe false (Some (Parsed JNull)))
      as (_ & _ & _ & _ & _ & E & _).
    apply E. left. reflexivity.
Defined.

End HistoryLoad.
